(** * The code-event loggers and the sampling profiler of src/logging/log.cc

  A shallow embedding of the parts of [log.cc] that the specification
  talks about, followed by the properties proved of them.  Every
  definition is named after the C++ member it transcribes.

  Conventions.  C++ [int], [int32_t], [uint32_t], [uint64_t] and
  [Address] values are integers in [Z]; where the source can wrap, the
  wrap-around is written out.  Arrays are lists indexed through stdpp's
  lookup and insert.  A call that can block, abort on a [CHECK] or stop
  early returns an [option].                                            *)

From Stdlib Require Import ZArith Lia Bool Ascii String.
From Stdlib.Strings Require Import Byte.
From Stdlib Require Import DecimalString HexadecimalString.
From Stdlib Require DecimalPos HexadecimalN.
From stdpp Require Import base numbers list option gmap.

Local Open Scope Z_scope.

(* ===================================================================== *)
(** * Part I.  The embedding                                              *)
(* ===================================================================== *)

(** ** Tick samples (the fields [V8FileLogger::TickEvent] reads) *)

Module TickSamples.

Record TickSample := mkTickSample {
  pc : Z;
  has_external_callback : bool;
  external_callback_entry : Z;
  tos : Z;
  state : Z;
  frames_count : nat;
  stack : list Z
}.

(** A default-constructed sample ([TickSample sample;]).  Its field
    values come from tick-sample.h, which is outside [src/]; nothing
    below depends on them. *)
Definition TickSample_default : TickSample :=
  mkTickSample 0 false 0 0 0 0%nat [].

#[export] Instance TickSample_inhabited : Inhabited TickSample :=
  populate TickSample_default.

End TickSamples.
Export TickSamples.

(** ** class Profiler: the circular sample buffer and its consumer *)

Module Profiler.

(** [static const int kBufferSize = 128;] *)
Definition kBufferSize : Z := 128.

(** [int Succ(int index) { return (index + 1) % kBufferSize; }]
    C++ [%] truncates towards zero, which is [Z.rem]; [index + 1]
    cannot leave the range of [int] for the indices the class keeps. *)
Definition Succ (index : Z) : Z := Z.rem (index + 1) kBufferSize.

(** The data members the buffer protocol uses.  [buffer_semaphore_] is
    the current count of the counting semaphore. *)
Record t := mk {
  buffer_ : list TickSample;
  head_ : Z;
  tail_ : Z;
  overflow_ : bool;
  buffer_semaphore_ : nat;
  running_ : Z
}.

(** [Profiler::Profiler]: [head_(0), overflow_(false),
    buffer_semaphore_(0)], then [tail_] and [running_] stored as 0. *)
Definition new : t :=
  mk (replicate (Z.to_nat kBufferSize) TickSample_default) 0 0 false 0%nat 0.

(** [base::Relaxed_Store(&running_, v)], as done by [Engage] (1) and
    [Disengage] (0). *)
Definition store_running (p : t) (v : Z) : t :=
  mk (buffer_ p) (head_ p) (tail_ p) (overflow_ p) (buffer_semaphore_ p) v.

(** [Profiler::Insert].  The only semaphore operation is [Signal], so
    the function is total: the producer cannot wait. *)
Definition Insert (p : t) (sample : TickSample) : t :=
  if Succ (head_ p) =? tail_ p then
    mk (buffer_ p) (head_ p) (tail_ p) true (buffer_semaphore_ p) (running_ p)
  else
    mk (<[Z.to_nat (head_ p) := sample]> (buffer_ p))
       (Succ (head_ p)) (tail_ p) (overflow_ p)
       (S (buffer_semaphore_ p)) (running_ p).

(** [base::Semaphore::Wait]: [None] when the count is zero, where the
    calling thread blocks; otherwise the decremented count. *)
Definition Wait (count : nat) : option nat :=
  match count with
  | O => None
  | S n => Some n
  end.

(** [Profiler::Remove]: the flag returned, the sample copied out and
    the profiler afterwards; [None] while the caller is blocked in
    [Wait]. *)
Definition Remove (p : t) : option (bool * TickSample * t) :=
  match Wait (buffer_semaphore_ p) with
  | None => None
  | Some n =>
      let sample := buffer_ p !!! Z.to_nat (tail_ p) in
      let result := overflow_ p in
      Some (result, sample,
            mk (buffer_ p) (head_ p) (Succ (tail_ p)) false n (running_ p))
  end.

(** The slots holding samples that were written and not yet read:
    [n] slots starting at [index], in ring order. *)
Fixpoint slots (buffer : list TickSample) (index : Z) (n : nat)
  : list TickSample :=
  match n with
  | O => []
  | S n' => (buffer !!! Z.to_nat index) :: slots buffer (Succ index) n'
  end.

(** The unread samples: one per outstanding semaphore signal, starting
    at [tail_]. *)
Definition unread (p : t) : list TickSample :=
  slots (buffer_ p) (tail_ p) (buffer_semaphore_ p).

(** The representation invariant of the ring: 128 slots, [tail_] in
    range, at most 127 outstanding signals, and [head_] that many slots
    after [tail_]. *)
Definition ring_ok (p : t) : Prop :=
  length (buffer_ p) = 128%nat /\
  0 <= tail_ p < 128 /\
  (buffer_semaphore_ p <= 127)%nat /\
  head_ p = (tail_ p + Z.of_nat (buffer_semaphore_ p)) mod 128.

(** *** Sequences of producer and consumer operations *)

Inductive Op :=
| OpInsert (sample : TickSample)
| OpRemove.

(** What a completed operation lets its caller see. *)
Inductive Obs :=
| Inserted
| Removed (overflow : bool) (sample : TickSample).

(** Runs the operations in order.  A [Remove] is listed where its
    [Wait] completes; a sequence that lists one on an empty semaphore
    has no run. *)
Fixpoint run (p : t) (ops : list Op) : option (t * list Obs) :=
  match ops with
  | [] => Some (p, [])
  | OpInsert sample :: ops' =>
      match run (Insert p sample) ops' with
      | Some (q, obs) => Some (q, Inserted :: obs)
      | None => None
      end
  | OpRemove :: ops' =>
      match Remove p with
      | None => None
      | Some (overflow, sample, p') =>
          match run p' ops' with
          | Some (q, obs) => Some (q, Removed overflow sample :: obs)
          | None => None
          end
      end
  end.

(** The states the class can be in: constructed, then any number of
    [Insert]s, completed [Remove]s and stores to [running_]. *)
Inductive reachable : t -> Prop :=
| reachable_new : reachable new
| reachable_Insert p sample :
    reachable p -> reachable (Insert p sample)
| reachable_Remove p overflow sample p' :
    reachable p -> Remove p = Some (overflow, sample, p') -> reachable p'
| reachable_store_running p v :
    reachable p -> reachable (store_running p v).

(** *** The consumer thread: [Profiler::Run]

    [[
      TickSample sample;
      bool overflow = Remove(&sample);
      while (base::Relaxed_Load(&running_)) {
        LOG(isolate_, TickEvent(&sample, overflow));
        overflow = Remove(&sample);
      }
    ]]
    The thread is followed statement by statement.  Both calls of
    [Remove] continue at the loop test, so they share one program
    point. *)
Inductive Pc :=
| AtRemove
| AtTest (sample : TickSample) (overflow : bool)
| AtTick (sample : TickSample) (overflow : bool)
| Exited.

(** The profiler, where its consumer thread stands, and the
    [TickEvent] calls made so far, oldest first. *)
Record World := mkWorld {
  profiler : t;
  consumer : Pc;
  ticks : list (TickSample * bool)
}.

(** One statement of [Run]; [None] when the thread cannot move, either
    blocked in [Remove] or finished. *)
Definition Run_step (w : World) : option World :=
  match consumer w with
  | AtRemove =>
      match Remove (profiler w) with
      | None => None
      | Some (overflow, sample, p') =>
          Some (mkWorld p' (AtTest sample overflow) (ticks w))
      end
  | AtTest sample overflow =>
      if running_ (profiler w) =? 0
      then Some (mkWorld (profiler w) Exited (ticks w))
      else Some (mkWorld (profiler w) (AtTick sample overflow) (ticks w))
  | AtTick sample overflow =>
      Some (mkWorld (profiler w) AtRemove (ticks w ++ [(sample, overflow)]))
  | Exited => None
  end.

(** Up to [k] statements of the consumer, fewer if it cannot move. *)
Fixpoint Run_steps (k : nat) (w : World) : World :=
  match k with
  | O => w
  | S k' =>
      match Run_step w with
      | None => w
      | Some w' => Run_steps k' w'
      end
  end.

(** [Engage] stores 1 to [running_] and starts the thread. *)
Definition Engage (p : t) : World :=
  mkWorld (store_running p 1) AtRemove [].

(** [Ticker::SampleStack] while the profiler is attached:
    [profiler_->Insert(&sample)]. *)
Definition SampleStack (w : World) (sample : TickSample) : World :=
  mkWorld (Insert (profiler w) sample) (consumer w) (ticks w).

(** [base::Thread::Join]: returns once the consumer has left [Run].
    While the caller waits nobody else touches the buffer, so a
    consumer that cannot move never will, and [Join] does not return
    ([None]); [fuel] bounds the statements followed. *)
Fixpoint Join (fuel : nat) (w : World) : option World :=
  match consumer w with
  | Exited => Some w
  | _ =>
      match fuel with
      | O => None
      | S fuel' =>
          match Run_step w with
          | None => None
          | Some w' => Join fuel' w'
          end
      end
  end.

(** [Profiler::Disengage], after [ClearProfiler] has detached the
    sampler: store 0 to [running_], [Insert] a default-constructed
    sample, [Join].  The consumer runs concurrently: [k] is the number
    of its statements that fall between the store and the [Insert]. *)
Definition Disengage_request (k : nat) (w : World) : World :=
  let w1 := mkWorld (store_running (profiler w) 0) (consumer w) (ticks w) in
  let w2 := Run_steps k w1 in
  mkWorld (Insert (profiler w2) TickSample_default) (consumer w2) (ticks w2).

Definition Disengage (k fuel : nat) (w : World) : option World :=
  Join fuel (Disengage_request k w).

(** *** Interleavings of the sampler and the consumer *)

Inductive Action :=
| ASample (sample : TickSample)
| AConsume.

(** Whether [Insert] takes its storing branch. *)
Definition Insert_stores (p : t) : bool :=
  negb (Succ (head_ p) =? tail_ p).

(** Runs a schedule.  Next to the world it returns the samples that
    [Insert] stored, in the order of the calls.  A consumer that cannot
    move when scheduled stays where it is. *)
Fixpoint exec (w : World) (acc : list TickSample) (sched : list Action)
  : World * list TickSample :=
  match sched with
  | [] => (w, acc)
  | ASample sample :: sched' =>
      exec (SampleStack w sample)
           (if Insert_stores (profiler w) then acc ++ [sample] else acc)
           sched'
  | AConsume :: sched' =>
      exec (Run_steps 1 w) acc sched'
  end.

(** The sample the consumer has removed and not yet logged. *)
Definition in_hand (c : Pc) : list TickSample :=
  match c with
  | AtTest sample _ | AtTick sample _ => [sample]
  | AtRemove | Exited => []
  end.

(** The [TickEvent] the consumer is committed to: it has passed the
    loop test and has not logged yet. *)
Definition committed (c : Pc) : list (TickSample * bool) :=
  match c with
  | AtTick sample overflow => [(sample, overflow)]
  | AtRemove | AtTest _ _ | Exited => []
  end.

(** *** The bounded queue of the specification

    The buffer as the specification words it: samples leave in the
    order they entered, a push on a full queue is dropped, and the next
    pop reports whether a push was dropped since the pop before it.
    Full means [kBufferSize - 1] samples: the ring keeps one slot
    open. *)
Record Fifo := mkFifo {
  queued : list TickSample;
  push_dropped : bool
}.

Definition Fifo_new : Fifo := mkFifo [] false.

Definition Fifo_capacity : nat := 127.

Definition Fifo_push (f : Fifo) (sample : TickSample) : Fifo :=
  if (length (queued f) =? Fifo_capacity)%nat
  then mkFifo (queued f) true
  else mkFifo (queued f ++ [sample]) (push_dropped f).

Definition Fifo_pop (f : Fifo) : option (bool * TickSample * Fifo) :=
  match queued f with
  | [] => None
  | sample :: rest => Some (push_dropped f, sample, mkFifo rest false)
  end.

Fixpoint Fifo_run (f : Fifo) (ops : list Op) : option (Fifo * list Obs) :=
  match ops with
  | [] => Some (f, [])
  | OpInsert sample :: ops' =>
      match Fifo_run (Fifo_push f sample) ops' with
      | Some (g, obs) => Some (g, Inserted :: obs)
      | None => None
      end
  | OpRemove :: ops' =>
      match Fifo_pop f with
      | None => None
      | Some (overflow, sample, f') =>
          match Fifo_run f' ops' with
          | Some (g, obs) => Some (g, Removed overflow sample :: obs)
          | None => None
          end
      end
  end.

(** *** Sample states used in the examples *)

(** A sample recognisable by its program counter. *)
Definition numbered (n : nat) : TickSample :=
  mkTickSample (Z.of_nat n) false 0 0 0 0%nat [].

(** [n] samples, numbered from 1, pushed one after the other. *)
Definition fill (p : t) (n : nat) : t :=
  fold_left Insert (map numbered (seq 1 n)) p.

(** An engaged profiler whose consumer has not been scheduled while
    the sampler pushed 127 samples. *)
Definition full_world : World := mkWorld (fill (store_running new 1) 127) AtRemove [].

(** The same with two samples pending. *)
Definition busy_world : World := mkWorld (fill (store_running new 1) 2) AtRemove [].

End Profiler.

(** ** The sampler and the consumer, one memory access at a time

    [Insert] and [Remove] run on different threads and overlap.  Here
    each is cut into its accesses to the shared members, in program
    order, and the two threads are interleaved access by access. *)

Module ProfilerSteps.

Import Profiler.

(** Where the sampler stands in [Insert]: not in it; the test has found
    the ring full and [overflow_] is to be set; the test has found room
    and the sample is to be copied to [buffer_[head_]]; [head_] is to be
    advanced; the semaphore is to be signalled. *)
Inductive ProducerPc :=
| PIdle
| PFull
| PStore (sample : TickSample)
| PAdvance (sample : TickSample)
| PSignal.

(** Where the consumer stands in [Run], and in [Remove] inside it: at
    [Wait]; at the copy of [buffer_[tail_]]; at the read of [overflow_];
    at the store to [tail_]; at the reset of [overflow_]; at the loop
    test; at the [TickEvent]; out of [Run]. *)
Inductive ConsumerPc :=
| CWait
| CCopy
| CFlag (sample : TickSample)
| CTail (sample : TickSample) (result : bool)
| CClear (sample : TickSample) (result : bool)
| CTest (sample : TickSample) (overflow : bool)
| CTick (sample : TickSample) (overflow : bool)
| CExited.

(** The shared profiler, the two threads, the [TickEvent] calls made,
    and the samples whose [Insert] has advanced [head_], in that
    order. *)
Record State := mkState {
  profiler : Profiler.t;
  producer : ProducerPc;
  consumer : ConsumerPc;
  ticks : list (TickSample * bool);
  stored : list TickSample
}.

(** The profiler with one member replaced. *)
Definition with_overflow (p : Profiler.t) (v : bool) : Profiler.t :=
  Profiler.mk (buffer_ p) (head_ p) (tail_ p) v (buffer_semaphore_ p)
    (running_ p).

Definition with_buffer (p : Profiler.t) (b : list TickSample) : Profiler.t :=
  Profiler.mk b (head_ p) (tail_ p) (overflow_ p) (buffer_semaphore_ p)
    (running_ p).

Definition with_head (p : Profiler.t) (h : Z) : Profiler.t :=
  Profiler.mk (buffer_ p) h (tail_ p) (overflow_ p) (buffer_semaphore_ p)
    (running_ p).

Definition with_tail (p : Profiler.t) (t : Z) : Profiler.t :=
  Profiler.mk (buffer_ p) (head_ p) t (overflow_ p) (buffer_semaphore_ p)
    (running_ p).

Definition with_semaphore (p : Profiler.t) (n : nat) : Profiler.t :=
  Profiler.mk (buffer_ p) (head_ p) (tail_ p) (overflow_ p) n (running_ p).

(** The sampler enters [Insert(&sample)] and makes the test; nothing
    happens if it is still inside an earlier call. *)
Definition begin_Insert (st : State) (sample : TickSample) : State :=
  match producer st with
  | PIdle =>
      let p := profiler st in
      mkState p
        (if Succ (head_ p) =? tail_ p then PFull else PStore sample)
        (consumer st) (ticks st) (stored st)
  | _ => st
  end.

(** The next access of the sampler inside [Insert]. *)
Definition producer_step (st : State) : State :=
  let p := profiler st in
  match producer st with
  | PIdle => st
  | PFull =>
      mkState (with_overflow p true) PIdle (consumer st) (ticks st) (stored st)
  | PStore sample =>
      mkState (with_buffer p (<[Z.to_nat (head_ p) := sample]> (buffer_ p)))
        (PAdvance sample) (consumer st) (ticks st) (stored st)
  | PAdvance sample =>
      mkState (with_head p (Succ (head_ p))) PSignal (consumer st) (ticks st)
        (stored st ++ [sample])
  | PSignal =>
      mkState (with_semaphore p (S (buffer_semaphore_ p))) PIdle (consumer st)
        (ticks st) (stored st)
  end.

(** The next access or statement of the consumer; it stays where it is
    when blocked in [Wait] or out of [Run]. *)
Definition consumer_step (st : State) : State :=
  let p := profiler st in
  match consumer st with
  | CWait =>
      match Wait (buffer_semaphore_ p) with
      | None => st
      | Some n =>
          mkState (with_semaphore p n) (producer st) CCopy (ticks st)
            (stored st)
      end
  | CCopy =>
      mkState p (producer st) (CFlag (buffer_ p !!! Z.to_nat (tail_ p)))
        (ticks st) (stored st)
  | CFlag sample =>
      mkState p (producer st) (CTail sample (overflow_ p)) (ticks st)
        (stored st)
  | CTail sample result =>
      mkState (with_tail p (Succ (tail_ p))) (producer st)
        (CClear sample result) (ticks st) (stored st)
  | CClear sample result =>
      mkState (with_overflow p false) (producer st) (CTest sample result)
        (ticks st) (stored st)
  | CTest sample overflow =>
      mkState p (producer st)
        (if running_ p =? 0 then CExited else CTick sample overflow)
        (ticks st) (stored st)
  | CTick sample overflow =>
      mkState p (producer st) CWait (ticks st ++ [(sample, overflow)])
        (stored st)
  | CExited => st
  end.

(** What the scheduler can do next. *)
Inductive Move :=
| MBegin (sample : TickSample)
| MProducer
| MConsumer.

Definition move (st : State) (m : Move) : State :=
  match m with
  | MBegin sample => begin_Insert st sample
  | MProducer => producer_step st
  | MConsumer => consumer_step st
  end.

(** The profiler just engaged: both threads at their starting points. *)
Definition engaged : State :=
  mkState (store_running Profiler.new 1) PIdle CWait [] [].

(** The sample the consumer has copied and not logged yet. *)
Definition held (c : ConsumerPc) : list TickSample :=
  match c with
  | CFlag sample | CTail sample _ | CClear sample _
  | CTest sample _ | CTick sample _ => [sample]
  | CWait | CCopy | CExited => []
  end.

(** Signals the consumer has taken without having advanced [tail_] yet,
    and advances of [head_] not signalled yet. *)
Definition waited (c : ConsumerPc) : nat :=
  match c with
  | CCopy | CFlag _ | CTail _ _ => 1
  | _ => 0
  end.

Definition unsignalled (pr : ProducerPc) : nat :=
  match pr with
  | PSignal => 1
  | _ => 0
  end.

(** The slots between [tail_] and [head_]. *)
Definition occupied (st : State) : nat :=
  (buffer_semaphore_ (profiler st) + waited (consumer st) +
   unsignalled (producer st))%nat.

(** The stored samples the consumer has not copied yet, in ring
    order. *)
Definition pending (st : State) : list TickSample :=
  let p := profiler st in
  match consumer st with
  | CFlag _ | CTail _ _ =>
      slots (buffer_ p) (Succ (tail_ p)) (occupied st - 1)
  | _ => slots (buffer_ p) (tail_ p) (occupied st)
  end.

(** What holds of every state the two threads can reach. *)
Definition coherent (st : State) : Prop :=
  let p := profiler st in
  length (buffer_ p) = 128%nat /\
  0 <= tail_ p < 128 /\
  (occupied st <= 127)%nat /\
  head_ p = (tail_ p + Z.of_nat (occupied st)) mod 128 /\
  running_ p <> 0 /\
  match producer st with
  | PStore _ => (occupied st <= 126)%nat
  | PAdvance sample =>
      (occupied st <= 126)%nat /\
      buffer_ p !!! Z.to_nat (head_ p) = sample
  | _ => True
  end /\
  stored st = map fst (ticks st) ++ held (consumer st) ++ pending st.

End ProfilerSteps.

(** ** Code tags and code kinds *)

Module CodeTags.

(** [LogEventListener::CodeTag], as enumerated by the switch of
    [GetCodeEventTypeForTag]. *)
Inductive CodeTag :=
| kBuiltin | kCallback | kEval | kFunction | kHandler | kBytecodeHandler
| kRegExp | kScript | kStub | kNativeFunction | kNativeScript | kLength.

(** [v8::CodeEventType], the values that switch returns. *)
Inductive CodeEventType :=
| kBuiltinType | kCallbackType | kEvalType | kFunctionType | kHandlerType
| kBytecodeHandlerType | kRegExpType | kScriptType | kStubType.

Definition GetCodeEventTypeForTag (tag : CodeTag) : CodeEventType :=
  match tag with
  | kLength | kBuiltin => kBuiltinType
  | kCallback => kCallbackType
  | kEval => kEvalType
  | kNativeFunction | kFunction => kFunctionType
  | kHandler => kHandlerType
  | kBytecodeHandler => kBytecodeHandlerType
  | kRegExp => kRegExpType
  | kNativeScript | kScript => kScriptType
  | kStub => kStubType
  end.

End CodeTags.
Export CodeTags.

(** ** class CodeEventLogger::NameBuffer *)

Module NameBuffer.

(** [static const int kUtf8BufferSize = 4096;] *)
Definition kUtf8BufferSize : Z := 4096.

(** [utf8_pos_] and the bytes of [utf8_buffer_]. *)
Record t := mk {
  utf8_pos_ : Z;
  utf8_buffer_ : list byte
}.

(** [size()] and the [size()] bytes at [get()]: what the callers hand
    to [LogRecordedBuffer]. *)
Definition size (nb : t) : Z := utf8_pos_ nb.

Definition contents (nb : t) : list byte :=
  take (Z.to_nat (utf8_pos_ nb)) (utf8_buffer_ nb).

(** A store of [bytes] at [offset] of the array.  [None] when a byte
    would land outside the array, before its start or past its
    capacity. *)
Definition write (buffer : list byte) (offset : Z) (bytes : list byte)
  : option (list byte) :=
  if (0 <=? offset) &&
     (offset + Z.of_nat (length bytes) <=? Z.of_nat (length buffer))
  then Some (take (Z.to_nat offset) buffer ++ bytes ++
             drop (Z.to_nat offset + length bytes) buffer)
  else None.

(** [MemCopy(utf8_buffer_ + offset, src, size)].  A negative [size]
    converts to a huge [size_t] and a [size] above the length of [src]
    reads past it: both are faults. *)
Definition MemCopy (buffer : list byte) (offset : Z) (src : list byte)
    (size : Z) : option (list byte) :=
  if (0 <=? size) && (size <=? Z.of_nat (length src))
  then write buffer offset (take (Z.to_nat size) src)
  else None.

(** Modelled from the spec: [SNPrintF] (src/base/strings.h and the
    platform's [VSNPrintF], neither under src/) is the bounds-checked
    formatted write of the Name Formatter: it never writes outside the
    vector it is given.  With [text] the complete text of the format
    and [length] the length of the vector, the result is the number of
    characters of [text] when text and terminating NUL fit, and -1
    otherwise; the second component is what it stored at the start of
    the vector. *)
Definition SNPrintF (length : Z) (text : list byte) : Z * list byte :=
  if length <=? 0 then (-1, [])
  else if Z.of_nat (List.length text) <? length
  then (Z.of_nat (List.length text), text ++ [x00])
  else (-1, take (Z.to_nat (length - 1)) text ++ [x00]).

(** The text of ["%d"] for an [int] and of ["%x"] for a [uint32_t]. *)
Definition format_d (n : Z) : list byte :=
  list_byte_of_string (DecimalString.NilEmpty.string_of_int (Z.to_int n)).

Definition format_x (n : Z) : list byte :=
  list_byte_of_string
    (HexadecimalString.NilEmpty.string_of_uint
       (N.to_hex_uint (Z.to_N (n mod 2 ^ 32)))).

(** [void Reset() { utf8_pos_ = 0; }] *)
Definition Reset (nb : t) : t := mk 0 (utf8_buffer_ nb).

(** [NameBuffer() { Reset(); }] over the bytes the storage happens to
    hold. *)
Definition new (storage : list byte) : t := Reset (mk 0 storage).

(** [void AppendBytes(const char* bytes, int size)] *)
Definition AppendBytes (nb : t) (bytes : list byte) (size : Z) : option t :=
  let size := Z.min size (kUtf8BufferSize - utf8_pos_ nb) in
  buffer ← MemCopy (utf8_buffer_ nb) (utf8_pos_ nb) bytes size;
  Some (mk (utf8_pos_ nb + size) buffer).

(** [void AppendBytes(const char* bytes)]: [strlen], whose result fits
    an [int] by [DCHECK_GE(kMaxInt, len)], so that the cast keeps it. *)
Definition AppendBytes_cstr (nb : t) (bytes : list byte) : option t :=
  AppendBytes nb bytes (Z.of_nat (length bytes)).

(** [void AppendByte(char c)] *)
Definition AppendByte (nb : t) (c : byte) : option t :=
  if utf8_pos_ nb >=? kUtf8BufferSize then Some nb
  else
    buffer ← write (utf8_buffer_ nb) (utf8_pos_ nb) [c];
    Some (mk (utf8_pos_ nb + 1) buffer).

(** The body that [AppendInt] and [AppendHex] share, [text] being what
    the format makes of the argument. *)
Definition AppendFormatted (nb : t) (text : list byte) : option t :=
  let space := kUtf8BufferSize - utf8_pos_ nb in
  if space <=? 0 then Some nb
  else
    let '(size, stored) := SNPrintF space text in
    buffer ← write (utf8_buffer_ nb) (utf8_pos_ nb) stored;
    if (0 <? size) && (utf8_pos_ nb + size <=? kUtf8BufferSize)
    then Some (mk (utf8_pos_ nb + size) buffer)
    else Some (mk (utf8_pos_ nb) buffer).

(** [void AppendInt(int n)] *)
Definition AppendInt (nb : t) (n : Z) : option t :=
  let space := kUtf8BufferSize - utf8_pos_ nb in
  if space <=? 0 then Some nb
  else
    let '(size, stored) := SNPrintF space (format_d n) in
    buffer ← write (utf8_buffer_ nb) (utf8_pos_ nb) stored;
    if (0 <? size) && (utf8_pos_ nb + size <=? kUtf8BufferSize)
    then Some (mk (utf8_pos_ nb + size) buffer)
    else Some (mk (utf8_pos_ nb) buffer).

(** [void AppendHex(uint32_t n)] *)
Definition AppendHex (nb : t) (n : Z) : option t :=
  let space := kUtf8BufferSize - utf8_pos_ nb in
  if space <=? 0 then Some nb
  else
    let '(size, stored) := SNPrintF space (format_x n) in
    buffer ← write (utf8_buffer_ nb) (utf8_pos_ nb) stored;
    if (0 <? size) && (utf8_pos_ nb + size <=? kUtf8BufferSize)
    then Some (mk (utf8_pos_ nb + size) buffer)
    else Some (mk (utf8_pos_ nb) buffer).

(** A [String]: [None] when [is_null()], else the bytes and length that
    [ToCString] yields. *)
Definition V8String := option (list byte).

(** [void AppendString(String str)] *)
Definition AppendString (nb : t) (str : V8String) : option t :=
  match str with
  | None => Some nb
  | Some c_str => AppendBytes nb c_str (Z.of_nat (length c_str))
  end.

(** A [Name]: a string, or a symbol with its description ([None] when
    undefined) and hash. *)
Inductive Name :=
| IsString (str : V8String)
| IsSymbol (description : option (list byte)) (hash : Z).

(** [void AppendName(Name name)] *)
Definition AppendName (nb : t) (name : Name) : option t :=
  match name with
  | IsString str => AppendString nb str
  | IsSymbol description hash =>
      nb ← AppendBytes_cstr nb (list_byte_of_string "symbol(");
      nb ← match description with
           | Some text =>
               nb ← AppendBytes_cstr nb [x22];
               nb ← AppendString nb (Some text);
               AppendBytes_cstr nb [x22; x20]
           | None => Some nb
           end;
      nb ← AppendBytes_cstr nb (list_byte_of_string "hash ");
      nb ← AppendHex nb hash;
      AppendByte nb ")"%byte
  end.

Section WithTagNames.

(** [kCodeTagNames], the table that the macro [CODE_TYPE_LIST] of
    code-events.h (outside src/) expands to. *)
Variable kCodeTagNames : CodeTag -> list byte.

(** [void Init(CodeTag tag)] *)
Definition Init (nb : t) (tag : CodeTag) : option t :=
  nb ← AppendBytes_cstr (Reset nb) (kCodeTagNames tag);
  AppendByte nb ":"%byte.

(** *** Sequences of operations *)

Inductive Op :=
| OpInit (tag : CodeTag)
| OpAppendName (name : Name)
| OpAppendString (str : V8String)
| OpAppendBytes (bytes : list byte)
| OpAppendByte (c : byte)
| OpAppendInt (n : Z)
| OpAppendHex (n : Z).

(** One call.  [AppendBytes] is called as the source calls it, with a
    pointer to bytes and their number. *)
Definition step (nb : t) (op : Op) : option t :=
  match op with
  | OpInit tag => Init nb tag
  | OpAppendName name => AppendName nb name
  | OpAppendString str => AppendString nb str
  | OpAppendBytes bytes => AppendBytes nb bytes (Z.of_nat (length bytes))
  | OpAppendByte c => AppendByte nb c
  | OpAppendInt n => AppendInt nb n
  | OpAppendHex n => AppendHex nb n
  end.

(** The calls in order; [None] as soon as one faults. *)
Fixpoint run (nb : t) (ops : list Op) : option t :=
  match ops with
  | [] => Some nb
  | op :: ops' => nb' ← step nb op; run nb' ops'
  end.

End WithTagNames.

(** The state invariant: the position is within the array. *)
Definition ok (nb : t) : Prop :=
  0 <= utf8_pos_ nb <= kUtf8BufferSize /\
  Z.of_nat (length (utf8_buffer_ nb)) = kUtf8BufferSize.

(** *** Sample values used in the examples *)

Definition zeroes : list byte := replicate 4096 x00.

Definition sample_names (tag : CodeTag) : list byte :=
  list_byte_of_string "Function".

(** A buffer holding 4094 bytes. *)
Definition nearly_full : t :=
  mk 4094 (replicate 4094 "a"%byte ++ [x00; x00]).

End NameBuffer.

(** ** Code objects *)

Module CodeKinds.

(** [CodeKind], as enumerated by the switch of
    [ExistingCodeLogger::LogCodeObject]. *)
Inductive CodeKind :=
| BYTECODE_HANDLER | FOR_TESTING | BUILTIN | REGEXP | WASM_FUNCTION
| WASM_TO_CAPI_FUNCTION | WASM_TO_JS_FUNCTION | JS_TO_WASM_FUNCTION
| JS_TO_JS_FUNCTION | C_WASM_ENTRY
| INTERPRETED_FUNCTION | BASELINE | MAGLEV | TURBOFAN.

(** Modelled from the spec: [CodeKindIsBuiltinOrJSFunction] is declared
    in src/objects/code-kind.h, outside src/.  As its name says it holds
    of builtins and of the code of JavaScript functions, the
    "user-function code" of the specification; [LogCodeObject] names the
    kinds of the latter (the ones it leaves to [LogCompiledFunctions]). *)
Definition CodeKindIsJSFunction (kind : CodeKind) : bool :=
  match kind with
  | INTERPRETED_FUNCTION | BASELINE | MAGLEV | TURBOFAN => true
  | _ => false
  end.

Definition CodeKindIsBuiltinOrJSFunction (kind : CodeKind) : bool :=
  match kind with
  | BUILTIN => true
  | _ => CodeKindIsJSFunction kind
  end.

(** What the loggers read of an [AbstractCode]: its kind, where its
    instructions start, how many bytes they take, and those bytes. *)
Record AbstractCode := mkCode {
  kind : CodeKind;
  InstructionStart : Z;
  InstructionSize : Z;
  instructions : list byte
}.

End CodeKinds.
Export CodeKinds.

(** ** class LinuxPerfBasicLogger *)

Module LinuxPerfBasicLogger.

(** A [FILE*] that is not null. *)
Definition FILE := nat.

(** The calls made on the C library and the operating system. *)
Inductive OsCall :=
| FOpen (path : list byte) (stream : FILE)
| Setvbuf (stream : FILE)
| FPrint (stream : FILE) (text : list byte)
| Fclose (stream : FILE).

(** The static members, shared by all instances in the process and
    protected by [file_mutex_], and the calls made so far.
    [reference_count_] is a [uint64_t]; [None] is [nullptr]. *)
Record Statics := mkStatics {
  reference_count_ : Z;
  perf_output_handle_ : option FILE;
  os_calls : list OsCall
}.

(** [reference_count_ = 0; perf_output_handle_ = nullptr;] *)
Definition initial : Statics := mkStatics 0 None [].

(** [const char kFilenameFormatString[] = "/tmp/perf-%d.map";] applied
    to the process id, and the size of the buffer it is printed into:
    [sizeof(kFilenameFormatString) + kFilenameBufferPadding]. *)
Definition perf_dump_text (process_id : Z) : list byte :=
  list_byte_of_string "/tmp/perf-" ++ NameBuffer.format_d process_id ++
  list_byte_of_string ".map".

Definition kFilenameBufferPadding : Z := 16.

Definition bufferSize : Z := 17 + kFilenameBufferPadding.

(** [LinuxPerfBasicLogger::LinuxPerfBasicLogger].  [fopen_result] is
    what [base::OS::FOpen] returns if it is called.  [None]: a [CHECK]
    has aborted the process. *)
Definition construct (process_id : Z) (fopen_result : option FILE)
    (s : Statics) : option Statics :=
  let count := (reference_count_ s + 1) mod 2 ^ 64 in
  if count =? 1 then
    match perf_output_handle_ s with
    | Some _ => None
    | None =>
        let '(size, perf_dump_name) :=
          NameBuffer.SNPrintF bufferSize (perf_dump_text process_id) in
        if size =? -1 then None
        else
          match fopen_result with
          | None => None
          | Some stream =>
              Some (mkStatics count (Some stream)
                      (os_calls s ++
                       [FOpen (take (Z.to_nat size) perf_dump_name) stream;
                        Setvbuf stream]))
          end
    end
  else Some (mkStatics count (perf_output_handle_ s) (os_calls s)).

(** [LinuxPerfBasicLogger::~LinuxPerfBasicLogger] *)
Definition destroy (s : Statics) : option Statics :=
  let count := (reference_count_ s - 1) mod 2 ^ 64 in
  if count =? 0 then
    match perf_output_handle_ s with
    | None => None
    | Some stream =>
        Some (mkStatics count None (os_calls s ++ [Fclose stream]))
    end
  else Some (mkStatics count (perf_output_handle_ s) (os_calls s)).

(** The text of ["%lx"] for a [uintptr_t] of 64 bits. *)
Definition format_lx (n : Z) : list byte :=
  list_byte_of_string
    (HexadecimalString.NilEmpty.string_of_uint
       (N.to_hex_uint (Z.to_N (n mod 2 ^ 64)))).

(** The text of ["%.*s"]: at most [precision] bytes, up to the first
    NUL. *)
Fixpoint format_s (precision : nat) (str : list byte) : list byte :=
  match precision, str with
  | S precision', c :: str' =>
      if Byte.eqb c x00 then [] else c :: format_s precision' str'
  | _, _ => []
  end.

(** [LinuxPerfBasicLogger::WriteLogRecordedBuffer]:
    [FPrint(perf_output_handle_, "%lx %x %.*s\n", address, size,
    name_length, name)].  [None]: printing through a null [FILE*]. *)
Definition WriteLogRecordedBuffer (s : Statics) (address size : Z)
    (name : list byte) (name_length : Z) : option Statics :=
  match perf_output_handle_ s with
  | None => None
  | Some stream =>
      Some (mkStatics (reference_count_ s) (Some stream)
              (os_calls s ++
               [FPrint stream
                  (format_lx address ++ [x20] ++ NameBuffer.format_x size ++
                   [x20] ++ format_s (Z.to_nat name_length) name ++ [x0a])]))
  end.

(** [LinuxPerfBasicLogger::LogRecordedBuffer] for an [AbstractCode],
    under a given value of [FLAG_perf_basic_prof_only_functions]. *)
Definition LogRecordedBuffer (FLAG_perf_basic_prof_only_functions : bool)
    (s : Statics) (code : AbstractCode) (name : list byte) (length : Z)
  : option Statics :=
  if FLAG_perf_basic_prof_only_functions &&
     CodeKindIsBuiltinOrJSFunction (kind code)
  then Some s
  else WriteLogRecordedBuffer s (InstructionStart code) (InstructionSize code)
         name length.

(** The lines printed to the perf map so far. *)
Definition map_lines (s : Statics) : list (list byte) :=
  omap (fun call => match call with FPrint _ text => Some text | _ => None end)
       (os_calls s).

(** Whether the calls leave the map file open. *)
Definition file_open (calls : list OsCall) : bool :=
  fold_left (fun open call =>
               match call with
               | FOpen _ _ => true
               | Fclose _ => false
               | _ => open
               end) calls false.

(** The lifecycle invariant: the count is a [uint64_t], the handle is
    set exactly when the count is positive, and the file is open exactly
    when the handle is set. *)
Definition consistent (s : Statics) : Prop :=
  0 <= reference_count_ s < 2 ^ 64 /\
  (is_Some (perf_output_handle_ s) <-> 0 < reference_count_ s) /\
  (file_open (os_calls s) = true <-> is_Some (perf_output_handle_ s)).

(** *** Sample values used in the examples *)

(** The statics while one logger is alive, its map open as stream 3. *)
Definition one_logger : Statics :=
  mkStatics 1 (Some 3%nat)
    [FOpen (list_byte_of_string "/tmp/perf-7.map") 3%nat; Setvbuf 3%nat].

(** The code of a user function and the code of a regular expression. *)
Definition function_code : AbstractCode :=
  mkCode INTERPRETED_FUNCTION 4096 64 (replicate 64 x90).

Definition regexp_code : AbstractCode :=
  mkCode REGEXP 8192 32 (replicate 32 x90).

End LinuxPerfBasicLogger.

(** ** class V8FileLogger: the text log *)

Module V8FileLogger.

(** What [operator<<] appends to a [LogFile::MessageBuilder]. *)
Inductive Item :=
| Str (text : string)
| Num (n : Z)
| Ptr (address : Z)
| Chr (c : ascii)
| kNext.

Definition MessageBuilder := list Item.

(** The flags the logger reads. *)
Record Flags := mkFlags {
  FLAG_log : bool;
  FLAG_log_code : bool;
  FLAG_log_code_disassemble : bool;
  FLAG_log_deopt : bool;
  FLAG_log_function_events : bool;
  FLAG_log_ic : bool;
  FLAG_log_maps : bool;
  FLAG_log_maps_details : bool;
  FLAG_prof_cpp : bool;
  FLAG_predictable : bool;
  FLAG_interpreted_frames_native_stack : bool;
  FLAG_prof_sampling_interval : Z
}.

(** The logger and what it reads of its isolate: the atomic
    [is_logging_], [isolate_->is_profiling()],
    [is_listening_to_code_events()], the value of [Time()], the set
    [logged_source_code_], whether runtime call stats are enabled by
    native tracing and the name of the current counter, and the messages
    written to the log file, oldest first. *)
Record t := mk {
  is_logging_ : bool;
  is_profiling : bool;
  is_listening_to_code_events : bool;
  Time : Z;
  logged_source_code_ : gset Z;
  runtime_stats_enabled_by_native : bool;
  current_counter : option string;
  log_ : list MessageBuilder
}.

(** [bool V8FileLogger::is_logging()] *)
Definition is_logging (s : t) : bool :=
  if is_profiling s then false else is_logging_ s.

(** Modelled from the spec: [LogFile::NewMessageBuilder] is defined in
    src/logging/log-file.cc, outside src/.  "Create a message builder
    (fails — returns an empty/null builder — if logging is currently
    disabled)": [None] is the null builder. *)
Definition NewMessageBuilder (s : t) : option MessageBuilder :=
  if is_logging s then Some [] else None.

(** The macro [MSG_BUILDER()]: ask for a builder and return from the
    enclosing function when it is null.  [rest] is the remainder of that
    function. *)
Definition MSG_BUILDER (s : t) (rest : MessageBuilder -> t) : t :=
  match NewMessageBuilder s with
  | None => s
  | Some msg => rest msg
  end.

(** [msg.WriteToLogFile()] *)
Definition WriteToLogFile (s : t) (msg : MessageBuilder) : t :=
  mk (is_logging_ s) (is_profiling s) (is_listening_to_code_events s)
     (Time s) (logged_source_code_ s) (runtime_stats_enabled_by_native s)
     (current_counter s) (log_ s ++ [msg]).

(** Two states of the logger that differ at most in
    [logged_source_code_]: the log file and the rest are the same. *)
Definition same_log (s s' : t) : Prop :=
  is_logging_ s' = is_logging_ s /\
  is_profiling s' = is_profiling s /\
  is_listening_to_code_events s' = is_listening_to_code_events s /\
  Time s' = Time s /\
  runtime_stats_enabled_by_native s' = runtime_stats_enabled_by_native s /\
  current_counter s' = current_counter s /\
  log_ s' = log_ s.

(** *** What the logger reads of the objects it is given *)

Record Script := mkScript {
  id : Z;
  name : option string;
  source : option string;
  line_offset : Z;
  column_offset : Z;
  source_mapping_url : option string
}.

(** [InliningId] is [None] when the position is not inlined. *)
Record SourcePosition := mkSourcePosition {
  ScriptOffset : Z;
  InliningId : option Z
}.

Record InliningPosition := mkInliningPosition {
  inlined_function_id : Z;
  position : SourcePosition
}.

Record SharedFunctionInfo := mkSharedFunctionInfo {
  address : Z;
  script : option Script;
  StartPosition : Z;
  EndPosition : Z;
  DebugNameCStr : string;
  optimization_disabled : bool;
  disabled_optimization_reason : string
}.

(** A code object as the text logger sees it.  [kind_number] is its
    kind as an [int], [kind_name] is [CodeKindToString] of it
    (code-kind.h), [is_CompileLazy] tells whether it is the builtin
    [CompileLazy], and [disassembly] is the text its [Disassemble]
    prints. *)
Record Code := mkCode {
  code : AbstractCode;
  kind_number : Z;
  kind_name : string;
  is_off_heap_trampoline : bool;
  is_CompileLazy : bool;
  SourcePositionTable : list (Z * SourcePosition);
  InliningPositions : list InliningPosition;
  inlined_functions : list Z;
  disassembly : string
}.

(** [LogEventListener::Event], the events this file logs by name. *)
Inductive Event :=
| kCodeCreation | kCodeMove | kSharedFuncMove | kCodeDisableOpt
| kCodeDeopt | kSnapshotCodeName | kTick.

Section WithNames.

(** [operator<<] for a [CodeTag] and for an [Event], that is the tables
    [kCodeTagNames] and [kLogEventsNames] that the macros of
    code-events.h expand to, and [CodeKindToMarker] of code-kind.h; the
    headers are outside src/. *)
Variable tag_name : CodeTag -> string.
Variable event_name : Event -> string.
Variable CodeKindToMarker : CodeKind -> string.

(** [const char* ComputeMarker(SharedFunctionInfo shared,
    AbstractCode code)] *)
Definition ComputeMarker (flags : Flags) (shared : SharedFunctionInfo)
    (c : Code) : string :=
  let kind :=
    match kind (code c) with
    | BUILTIN =>
        if FLAG_interpreted_frames_native_stack flags &&
           negb (is_off_heap_trampoline c)
        then INTERPRETED_FUNCTION else BUILTIN
    | other => other
    end in
  match kind with
  | INTERPRETED_FUNCTION =>
      if optimization_disabled shared then EmptyString
      else CodeKindToMarker kind
  | _ => CodeKindToMarker kind
  end.

(** *** The operations *)

(** [ProfilerBeginEvent] *)
Definition ProfilerBeginEvent (flags : Flags) (s : t) : t :=
  MSG_BUILDER s (fun msg =>
    WriteToLogFile s
      (msg ++ [Str "profiler"; kNext; Str "begin"; kNext;
               Num (FLAG_prof_sampling_interval flags)])).

(** [UncheckedStringEvent] and [StringEvent] *)
Definition UncheckedStringEvent (s : t) (name value : string) : t :=
  MSG_BUILDER s (fun msg =>
    WriteToLogFile s (msg ++ [Str name; kNext; Str value])).

Definition StringEvent (flags : Flags) (s : t) (name value : string) : t :=
  if FLAG_log flags then UncheckedStringEvent s name value else s.

(** [IntPtrTEvent] *)
Definition IntPtrTEvent (flags : Flags) (s : t) (name : string) (value : Z)
  : t :=
  if negb (FLAG_log flags) then s
  else MSG_BUILDER s (fun msg =>
    WriteToLogFile s (msg ++ [Str name; kNext] ++ [Num value])).

(** [SharedLibraryEvent] and [SharedLibraryEnd] *)
Definition SharedLibraryEvent (flags : Flags) (s : t) (library_path : string)
    (start end_ aslr_slide : Z) : t :=
  if negb (FLAG_prof_cpp flags) then s
  else MSG_BUILDER s (fun msg =>
    WriteToLogFile s
      (msg ++ [Str "shared-library"; kNext; Str library_path; kNext;
               Ptr start; kNext; Ptr end_; kNext; Num aslr_slide])).

Definition SharedLibraryEnd (flags : Flags) (s : t) : t :=
  if negb (FLAG_prof_cpp flags) then s
  else MSG_BUILDER s (fun msg =>
    WriteToLogFile s (msg ++ [Str "shared-library-end"])).

(** [CurrentTimeEvent] *)
Definition CurrentTimeEvent (s : t) : t :=
  MSG_BUILDER s (fun msg =>
    WriteToLogFile s (msg ++ [Str "current-time"; kNext; Num (Time s)])).

(** [TimerEvent] *)
Inductive LogEventStatus := kStart | kEnd | kStamp.

Definition TimerEvent (s : t) (se : LogEventStatus) (name : string) : t :=
  MSG_BUILDER s (fun msg =>
    let msg := msg ++ match se with
                      | kStart => [Str "timer-event-start"]
                      | kEnd => [Str "timer-event-end"]
                      | kStamp => [Str "timer-event"]
                      end in
    WriteToLogFile s (msg ++ [kNext; Str name; kNext; Num (Time s)])).

(** [NewEvent] and [DeleteEvent] *)
Definition NewEvent (flags : Flags) (s : t) (name : string) (object size : Z)
  : t :=
  if negb (FLAG_log flags) then s
  else MSG_BUILDER s (fun msg =>
    WriteToLogFile s
      (msg ++ [Str "new"; kNext; Str name; kNext; Ptr object; kNext;
               Num (size mod 2 ^ 32)])).

Definition DeleteEvent (flags : Flags) (s : t) (name : string) (object : Z)
  : t :=
  if negb (FLAG_log flags) then s
  else MSG_BUILDER s (fun msg =>
    WriteToLogFile s
      (msg ++ [Str "delete"; kNext; Str name; kNext; Ptr object])).

(** [AppendCodeCreateHeader], both overloads *)
Definition AppendCodeCreateHeader_kind (msg : MessageBuilder) (tag : CodeTag)
    (kind_number start size time : Z) : MessageBuilder :=
  msg ++ [Str (event_name kCodeCreation); kNext; Str (tag_name tag); kNext;
          Num kind_number; kNext; Num time; kNext; Ptr start; kNext;
          Num size; kNext].

Definition AppendCodeCreateHeader (msg : MessageBuilder) (tag : CodeTag)
    (c : Code) (time : Z) : MessageBuilder :=
  AppendCodeCreateHeader_kind msg tag (kind_number c)
    (InstructionStart (code c)) (InstructionSize (code c)) time.

(** [bool EnsureLogScriptSource(Script script)] *)
Definition EnsureLogScriptSource (s : t) (script : Script) : bool * t :=
  if decide (id script ∈ logged_source_code_ s) then (true, s)
  else
    let s := mk (is_logging_ s) (is_profiling s)
                (is_listening_to_code_events s) (Time s)
                ({[id script]} ∪ logged_source_code_ s)
                (runtime_stats_enabled_by_native s) (current_counter s)
                (log_ s) in
    match source script with
    | None => (false, s)
    | Some source_code =>
        match NewMessageBuilder s with
        | None => (false, s)
        | Some msg =>
            let msg := msg ++ [Str "script-source"; kNext; Num (id script);
                               kNext] in
            let msg := msg ++ match name script with
                              | Some text => [Str text; kNext]
                              | None => [Str "<unknown>"; kNext]
                              end in
            (true, WriteToLogFile s (msg ++ [Str source_code]))
        end
    end.

(** The ["C<code-offset>O<script-offset>[I<inlining-id>]"] and
    ["F<function-id>O<script-offset>[I<inlining-id>]"] entries of
    [LogSourceCodeInformation]. *)
Definition position_items (entry : Z * SourcePosition) : list Item :=
  [Str "C"; Num entry.1; Str "O"; Num (ScriptOffset entry.2)] ++
  match InliningId entry.2 with
  | Some i => [Str "I"; Num i]
  | None => []
  end.

Definition inlining_items (p : InliningPosition) : list Item :=
  [Str "F"] ++
  (if inlined_function_id p =? -1 then [] else [Num (inlined_function_id p)]) ++
  [Str "O"; Num (ScriptOffset (position p))] ++
  match InliningId (position p) with
  | Some i => [Str "I"; Num i]
  | None => []
  end.

(** [LogSourceCodeInformation] *)
Definition LogSourceCodeInformation (s : t) (c : Code)
    (shared : SharedFunctionInfo) : t :=
  match script shared with
  | None => s
  | Some script_ =>
      let s := (EnsureLogScriptSource s script_).2 in
      MSG_BUILDER s (fun msg =>
        let msg := msg ++ [Str "code-source-info"; kNext;
                           Ptr (InstructionStart (code c)); kNext;
                           Num (id script_); kNext;
                           Num (StartPosition shared); kNext;
                           Num (EndPosition shared); kNext] in
        let table :=
          match kind (code c) with
          | BASELINE => []
          | _ => SourcePositionTable c
          end in
        let hasInlined :=
          existsb (fun entry => bool_decide (is_Some (InliningId entry.2)))
                  table in
        let msg := msg ++ concat (map position_items table) ++ [kNext] in
        let maxInlinedId :=
          if hasInlined
          then fold_left (fun m p => Z.max m (inlined_function_id p))
                         (InliningPositions c) (-1)
          else -1 in
        let msg := msg ++
          (if hasInlined
           then concat (map inlining_items (InliningPositions c))
           else []) ++ [kNext] in
        let msg := msg ++
          (if hasInlined
           then concat (map (fun a => [Str "S"; Ptr a])
                            (take (Z.to_nat (maxInlinedId + 1))
                                  (inlined_functions c)))
           else []) in
        WriteToLogFile s msg)
  end.

(** [LogCodeDisassemble] *)
Definition LogCodeDisassemble (flags : Flags) (s : t) (c : Code) : t :=
  if negb (FLAG_log_code_disassemble flags) then s
  else MSG_BUILDER s (fun msg =>
    WriteToLogFile s
      (msg ++ [Str "code-disassemble"; kNext;
               Ptr (InstructionStart (code c)); kNext; Str (kind_name c);
               kNext] ++ [Str (disassembly c)])).

(** [CodeCreateEvent(tag, code, const char* name)] and
    [CodeCreateEvent(tag, code, Handle<Name> name)]: builtins and
    bytecode handlers. *)
Definition CodeCreateEvent_name (flags : Flags) (s : t) (tag : CodeTag)
    (c : Code) (name : string) : t :=
  if negb (is_listening_to_code_events s) then s
  else if negb (FLAG_log_code flags) then s
  else MSG_BUILDER s (fun msg =>
    let msg := AppendCodeCreateHeader msg tag c (Time s) in
    let s := WriteToLogFile s (msg ++ [Str name]) in
    LogCodeDisassemble flags s c).

(** [CodeCreateEvent(tag, code, shared, script_name)]: scripts. *)
Definition CodeCreateEvent_script (flags : Flags) (s : t) (tag : CodeTag)
    (c : Code) (shared : SharedFunctionInfo) (script_name : string) : t :=
  if negb (is_listening_to_code_events s) then s
  else if negb (FLAG_log_code flags) then s
  else if is_CompileLazy c then s
  else MSG_BUILDER s (fun msg =>
    let msg := AppendCodeCreateHeader msg tag c (Time s) in
    let s := WriteToLogFile s
               (msg ++ [Str script_name; kNext; Ptr (address shared); kNext;
                        Str (ComputeMarker flags shared c)]) in
    let s := LogSourceCodeInformation s c shared in
    LogCodeDisassemble flags s c).

(** [CodeCreateEvent(tag, code, shared, script_name, line, column)]:
    functions. *)
Definition CodeCreateEvent_function (flags : Flags) (s : t) (tag : CodeTag)
    (c : Code) (shared : SharedFunctionInfo) (script_name : string)
    (line column : Z) : t :=
  if negb (is_listening_to_code_events s) then s
  else if negb (FLAG_log_code flags) then s
  else MSG_BUILDER s (fun msg =>
    let msg := AppendCodeCreateHeader msg tag c (Time s) in
    let s := WriteToLogFile s
               (msg ++ [Str (DebugNameCStr shared); Str " "; Str script_name;
                        Str ":"; Num line; Str ":"; Num column; kNext;
                        Ptr (address shared); kNext;
                        Str (ComputeMarker flags shared c)]) in
    let s := LogSourceCodeInformation s c shared in
    LogCodeDisassemble flags s c).

(** [CodeCreateEvent(tag, const wasm::WasmCode* code, name, ...)];
    [kind_number] is [CodeKind::WASM_FUNCTION] as an [int]. *)
Definition CodeCreateEvent_wasm (flags : Flags) (s : t) (tag : CodeTag)
    (kind_number start size : Z) (name : string) (tag_ptr : Z)
    (wasm_marker : string) : t :=
  if negb (is_listening_to_code_events s) then s
  else if negb (FLAG_log_code flags) then s
  else MSG_BUILDER s (fun msg =>
    let msg := AppendCodeCreateHeader_kind msg tag kind_number start size
                 (Time s) in
    WriteToLogFile s
      (msg ++ [Str name] ++ [kNext; Ptr tag_ptr; kNext; Str wasm_marker])).

(** [CallbackEventInternal] and its three callers *)
Definition CallbackEventInternal (flags : Flags) (s : t) (prefix name : string)
    (entry_point : Z) : t :=
  if negb (FLAG_log_code flags) then s
  else MSG_BUILDER s (fun msg =>
    WriteToLogFile s
      (msg ++ [Str (event_name kCodeCreation); kNext; Str (tag_name kCallback);
               kNext;
               Num (-2); kNext; Num (Time s); kNext; Ptr entry_point; kNext;
               Num 1; kNext; Str prefix; Str name])).

Definition CallbackEvent (flags : Flags) (s : t) (name : string)
    (entry_point : Z) : t :=
  CallbackEventInternal flags s EmptyString name entry_point.

Definition GetterCallbackEvent (flags : Flags) (s : t) (name : string)
    (entry_point : Z) : t :=
  CallbackEventInternal flags s "get " name entry_point.

Definition SetterCallbackEvent (flags : Flags) (s : t) (name : string)
    (entry_point : Z) : t :=
  CallbackEventInternal flags s "set " name entry_point.

(** [RegExpCodeCreateEvent] *)
Definition RegExpCodeCreateEvent (flags : Flags) (s : t) (c : Code)
    (source : string) : t :=
  if negb (is_listening_to_code_events s) then s
  else if negb (FLAG_log_code flags) then s
  else MSG_BUILDER s (fun msg =>
    let msg := AppendCodeCreateHeader msg kRegExp c (Time s) in
    WriteToLogFile s (msg ++ [Str source])).

(** [MoveEventInternal], [CodeMoveEvent], [SharedFunctionInfoMoveEvent] *)
Definition MoveEventInternal (flags : Flags) (s : t) (event : Event)
    (from to : Z) : t :=
  if negb (FLAG_log_code flags) then s
  else MSG_BUILDER s (fun msg =>
    WriteToLogFile s
      (msg ++ [Str (event_name event); kNext; Ptr from; kNext; Ptr to])).

Definition CodeMoveEvent (flags : Flags) (s : t) (from to : AbstractCode) : t :=
  if negb (is_listening_to_code_events s) then s
  else MoveEventInternal flags s kCodeMove (InstructionStart from)
         (InstructionStart to).

Definition SharedFunctionInfoMoveEvent (flags : Flags) (s : t) (from to : Z)
  : t :=
  if negb (is_listening_to_code_events s) then s
  else MoveEventInternal flags s kSharedFuncMove from to.

(** [CodeDisableOptEvent] *)
Definition CodeDisableOptEvent (flags : Flags) (s : t)
    (shared : SharedFunctionInfo) : t :=
  if negb (is_listening_to_code_events s) then s
  else if negb (FLAG_log_code flags) then s
  else MSG_BUILDER s (fun msg =>
    WriteToLogFile s
      (msg ++ [Str (event_name kCodeDisableOpt); kNext;
               Str (DebugNameCStr shared); kNext;
               Str (disabled_optimization_reason shared)])).

(** [ProcessDeoptEvent], [CodeDeoptEvent], [CodeDependencyChangeEvent].
    [position] is [None] when not known, else the text it prints with
    its inlining id and script offset. *)
Definition ProcessDeoptEvent (s : t) (CodeSize start : Z)
    (position : option (string * Z * Z)) (kind reason : string) : t :=
  MSG_BUILDER s (fun msg =>
    let msg := msg ++ [Str (event_name kCodeDeopt); kNext; Num (Time s); kNext;
                       Num CodeSize; kNext; Ptr start] in
    let '(deopt_location, inlining_id, script_offset) :=
      match position with
      | Some (text, i, o) => (text, i, o)
      | None => ("<unknown>"%string, -1, -1)
      end in
    let msg := msg ++ [kNext; Num inlining_id; kNext; Num script_offset;
                       kNext] in
    let msg := msg ++ [Str kind; kNext] in
    WriteToLogFile s (msg ++ [Str deopt_location; kNext; Str reason])).

Definition CodeDeoptEvent (flags : Flags) (s : t) (CodeSize start : Z)
    (position : option (string * Z * Z)) (kind reason : string) : t :=
  if negb (is_logging s) || negb (FLAG_log_deopt flags) then s
  else ProcessDeoptEvent s CodeSize start position kind reason.

Definition CodeDependencyChangeEvent (flags : Flags) (s : t)
    (CodeSize start : Z) (sfi : SharedFunctionInfo)
    (position_text reason : string) : t :=
  if negb (is_logging s) || negb (FLAG_log_deopt flags) then s
  else ProcessDeoptEvent s CodeSize start
         (Some (position_text, -1, StartPosition sfi))
         "dependency-change" reason.

(** [CodeNameEvent]; [code_name] is [None] for [nullptr]. *)
Definition CodeNameEvent (s : t) (addr pos : Z) (code_name : option string)
  : t :=
  match code_name with
  | None => s
  | Some text =>
      if negb (is_listening_to_code_events s) then s
      else MSG_BUILDER s (fun msg =>
        WriteToLogFile s
          (msg ++ [Str (event_name kSnapshotCodeName); kNext; Num pos; kNext;
                   Str text]))
  end.

(** [AppendFunctionMessage] and the two [FunctionEvent]s; [time_delta]
    is the [double] as it prints. *)
Definition AppendFunctionMessage (flags : Flags) (msg : MessageBuilder)
    (reason : string) (script_id : Z) (time_delta : string)
    (start_position end_position time : Z) : MessageBuilder :=
  let msg := msg ++ [Str "function"; kNext; Str reason; kNext; Num script_id;
                     kNext; Num start_position; kNext; Num end_position;
                     kNext] in
  let msg := msg ++ (if FLAG_predictable flags then [Str "0.1"]
                     else [Str time_delta]) in
  msg ++ [kNext; Num time; kNext].

Definition FunctionEvent (flags : Flags) (s : t) (reason : string)
    (script_id : Z) (time_delta : string) (start_position end_position : Z)
    (function_name : option string) : t :=
  if negb (FLAG_log_function_events flags) then s
  else MSG_BUILDER s (fun msg =>
    let msg := AppendFunctionMessage flags msg reason script_id time_delta
                 start_position end_position (Time s) in
    let msg := msg ++ match function_name with
                      | Some text => [Str text]
                      | None => []
                      end in
    WriteToLogFile s msg).

Definition FunctionEvent_chars (flags : Flags) (s : t) (reason : string)
    (script_id : Z) (time_delta : string) (start_position end_position : Z)
    (function_name : string) (function_name_length : Z) : t :=
  if negb (FLAG_log_function_events flags) then s
  else MSG_BUILDER s (fun msg =>
    let msg := AppendFunctionMessage flags msg reason script_id time_delta
                 start_position end_position (Time s) in
    let msg := msg ++ (if 0 <? function_name_length
                       then [Str function_name] else []) in
    WriteToLogFile s msg).

(** [CompilationCacheEvent] *)
Definition CompilationCacheEvent (flags : Flags) (s : t)
    (action cache_type : string) (sfi : SharedFunctionInfo) : t :=
  if negb (FLAG_log_function_events flags) then s
  else MSG_BUILDER s (fun msg =>
    let script_id := match script sfi with
                     | Some script_ => id script_
                     | None => -1
                     end in
    WriteToLogFile s
      (msg ++ [Str "compilation-cache"; kNext; Str action; kNext;
               Str cache_type; kNext; Num script_id; kNext;
               Num (StartPosition sfi); kNext; Num (EndPosition sfi); kNext;
               Num (Time s)])).

(** [ScriptEvent] *)
Inductive ScriptEventType :=
| kReserveId | kCreate | kDeserialize | kBackgroundCompile
| kStreamingCompile.

Definition ScriptEvent (flags : Flags) (s : t) (type : ScriptEventType)
    (script_id : Z) : t :=
  if negb (FLAG_log_function_events flags) then s
  else MSG_BUILDER s (fun msg =>
    let msg := msg ++ [Str "script"; kNext] in
    let msg := msg ++ match type with
                      | kReserveId => [Str "reserve-id"]
                      | kCreate => [Str "create"]
                      | kDeserialize => [Str "deserialize"]
                      | kBackgroundCompile => [Str "background-compile"]
                      | kStreamingCompile => [Str "streaming-compile"]
                      end in
    WriteToLogFile s (msg ++ [kNext; Num script_id; kNext; Num (Time s)])).

(** [ScriptDetails] *)
Definition ScriptDetails (flags : Flags) (s : t) (script_ : Script) : t :=
  if negb (FLAG_log_function_events flags) then s
  else MSG_BUILDER s (fun msg =>
    let msg := msg ++ [Str "script-details"; kNext; Num (id script_); kNext] in
    let msg := msg ++ match name script_ with
                      | Some text => [Str text]
                      | None => []
                      end in
    let msg := msg ++ [kNext; Num (line_offset script_); kNext;
                       Num (column_offset script_); kNext] in
    let msg := msg ++ match source_mapping_url script_ with
                      | Some text => [Str text]
                      | None => []
                      end in
    let s := WriteToLogFile s msg in
    (EnsureLogScriptSource s script_).2).

(** [RuntimeCallTimerEvent], with [V8_RUNTIME_CALL_STATS] defined *)
Definition RuntimeCallTimerEvent (s : t) : t :=
  match current_counter s with
  | None => s
  | Some counter_name =>
      MSG_BUILDER s (fun msg =>
        WriteToLogFile s
          (msg ++ [Str "active-runtime-timer"; kNext; Str counter_name]))
  end.

(** [TickEvent] *)
Definition TickEvent (flags : Flags) (s : t) (sample : TickSample)
    (overflow : bool) : t :=
  if negb (FLAG_prof_cpp flags) then s
  else
    let s := if runtime_stats_enabled_by_native s
             then RuntimeCallTimerEvent s else s in
    MSG_BUILDER s (fun msg =>
      let msg := msg ++ [Str (event_name kTick); kNext; Ptr (pc sample); kNext;
                         Num (Time s)] in
      let msg := msg ++
        (if has_external_callback sample
         then [kNext; Num 1; kNext; Ptr (external_callback_entry sample)]
         else [kNext; Num 0; kNext; Ptr (tos sample)]) in
      let msg := msg ++ [kNext; Num (state sample)] in
      let msg := msg ++ (if overflow then [kNext; Str "overflow"] else []) in
      let msg := msg ++
        concat (map (fun frame => [kNext; Ptr frame])
                    (take (frames_count sample) (stack sample))) in
      WriteToLogFile s msg).

(** [ICEvent]; [key] is the text of a Smi, number or name key, [None]
    for any other key; [slow_stub_reason] is [None] for [nullptr]. *)
Definition ICEvent (flags : Flags) (s : t) (type : string) (keyed : bool)
    (map_ pc line column : Z) (key : option Item) (old_state new_state : ascii)
    (modifier : string) (slow_stub_reason : option string) : t :=
  if negb (FLAG_log_ic flags) then s
  else MSG_BUILDER s (fun msg =>
    let msg := msg ++ (if keyed then [Str "Keyed"] else []) in
    let msg := msg ++ [Str type; kNext; Ptr pc; kNext; Num (Time s); kNext;
                       Num line; kNext; Num column; kNext; Chr old_state;
                       kNext; Chr new_state; kNext; Ptr map_; kNext] in
    let msg := msg ++ match key with
                      | Some item => [item]
                      | None => []
                      end in
    let msg := msg ++ [kNext; Str modifier; kNext] in
    let msg := msg ++ match slow_stub_reason with
                      | Some text => [Str text]
                      | None => []
                      end in
    WriteToLogFile s msg).

(** [MapCreate], [MapDetails], [MapEvent]; [details] is what
    [PrintMapDetails] prints. *)
Definition MapCreate (flags : Flags) (s : t) (map_ : Z) : t :=
  if negb (FLAG_log_maps flags) then s
  else MSG_BUILDER s (fun msg =>
    WriteToLogFile s
      (msg ++ [Str "map-create"; kNext; Num (Time s); kNext; Ptr map_])).

Definition MapDetails (flags : Flags) (s : t) (map_ : Z) (details : string)
  : t :=
  if negb (FLAG_log_maps flags) then s
  else MSG_BUILDER s (fun msg =>
    let msg := msg ++ [Str "map-details"; kNext; Num (Time s); kNext; Ptr map_;
                       kNext] in
    let msg := msg ++ (if FLAG_log_maps_details flags then [Str details]
                       else []) in
    WriteToLogFile s msg).

Definition MapEvent (flags : Flags) (s : t) (type : string) (from : Z)
    (to : option (Z * string)) (pc line column : Z) (reason : string)
    (name_or_sfi : option string) : t :=
  if negb (FLAG_log_maps flags) then s
  else
    let s := match to with
             | Some (map_, details) => MapDetails flags s map_ details
             | None => s
             end in
    MSG_BUILDER s (fun msg =>
      let msg := msg ++ [Str "map"; kNext; Str type; kNext; Num (Time s);
                         kNext; Ptr from; kNext;
                         Ptr (match to with Some (m, _) => m | None => 0 end);
                         kNext; Ptr pc; kNext; Num line; kNext; Num column;
                         kNext; Str reason; kNext] in
      let msg := msg ++ match name_or_sfi with
                        | Some text => [Str text]
                        | None => []
                        end in
      WriteToLogFile s msg).

(** [FeedbackVectorEvent]; [fields] are the five values it prints
    after the start of the code and [contents] is the printed vector. *)
Definition FeedbackVectorEvent (flags : Flags) (s : t) (vector length_ : Z)
    (start : Z) (fields : list Z) (contents : string) : t :=
  if negb (FLAG_log_code flags) then s
  else MSG_BUILDER s (fun msg =>
    let msg := msg ++ [Str "feedback-vector"; kNext; Num (Time s)] in
    let msg := msg ++ [kNext; Ptr vector; kNext; Num length_] in
    let msg := msg ++ [kNext; Ptr start] in
    let msg := msg ++ concat (map (fun v => [kNext; Num v]) fields) ++
               [kNext] in
    WriteToLogFile s (msg ++ [Str contents])).

(** [LogAllMaps], over the maps the heap iterator yields, each with
    the details it prints. *)
Definition LogAllMaps (flags : Flags) (s : t) (maps : list (Z * string)) : t :=
  fold_left (fun s m => MapDetails flags (MapCreate flags s m.1) m.1 m.2)
            maps s.

End WithNames.

(** *** The calls, one constructor per operation that writes *)

Inductive Call :=
| CallProfilerBeginEvent
| CallStringEvent (name value : string)
| CallUncheckedStringEvent (name value : string)
| CallIntPtrTEvent (name : string) (value : Z)
| CallSharedLibraryEvent (library_path : string) (start end_ aslr_slide : Z)
| CallSharedLibraryEnd
| CallCurrentTimeEvent
| CallTimerEvent (se : LogEventStatus) (name : string)
| CallNewEvent (name : string) (object size : Z)
| CallDeleteEvent (name : string) (object : Z)
| CallLogSourceCodeInformation (c : Code) (shared : SharedFunctionInfo)
| CallLogCodeDisassemble (c : Code)
| CallCodeCreateEvent_name (tag : CodeTag) (c : Code) (name : string)
| CallCodeCreateEvent_script (tag : CodeTag) (c : Code)
    (shared : SharedFunctionInfo) (script_name : string)
| CallCodeCreateEvent_function (tag : CodeTag) (c : Code)
    (shared : SharedFunctionInfo) (script_name : string) (line column : Z)
| CallCodeCreateEvent_wasm (tag : CodeTag) (kind_number start size : Z)
    (name : string) (tag_ptr : Z) (wasm_marker : string)
| CallFeedbackVectorEvent (vector length_ start : Z) (fields : list Z)
    (contents : string)
| CallCallbackEvent (name : string) (entry_point : Z)
| CallGetterCallbackEvent (name : string) (entry_point : Z)
| CallSetterCallbackEvent (name : string) (entry_point : Z)
| CallRegExpCodeCreateEvent (c : Code) (source : string)
| CallCodeMoveEvent (from to : AbstractCode)
| CallSharedFunctionInfoMoveEvent (from to : Z)
| CallCodeDisableOptEvent (shared : SharedFunctionInfo)
| CallProcessDeoptEvent (CodeSize start : Z)
    (position : option (string * Z * Z)) (kind reason : string)
| CallCodeDeoptEvent (CodeSize start : Z)
    (position : option (string * Z * Z)) (kind reason : string)
| CallCodeDependencyChangeEvent (CodeSize start : Z)
    (sfi : SharedFunctionInfo) (position_text reason : string)
| CallCodeNameEvent (addr pos : Z) (code_name : option string)
| CallFunctionEvent (reason : string) (script_id : Z) (time_delta : string)
    (start_position end_position : Z) (function_name : option string)
| CallFunctionEvent_chars (reason : string) (script_id : Z)
    (time_delta : string) (start_position end_position : Z)
    (function_name : string) (function_name_length : Z)
| CallCompilationCacheEvent (action cache_type : string)
    (sfi : SharedFunctionInfo)
| CallScriptEvent (type : ScriptEventType) (script_id : Z)
| CallScriptDetails (script_ : Script)
| CallEnsureLogScriptSource (script_ : Script)
| CallRuntimeCallTimerEvent
| CallTickEvent (sample : TickSample) (overflow : bool)
| CallICEvent (type : string) (keyed : bool) (map_ pc line column : Z)
    (key : option Item) (old_state new_state : ascii) (modifier : string)
    (slow_stub_reason : option string)
| CallMapEvent (type : string) (from : Z) (to : option (Z * string))
    (pc line column : Z) (reason : string) (name_or_sfi : option string)
| CallMapCreate (map_ : Z)
| CallMapDetails (map_ : Z) (details : string)
| CallLogAllMaps (maps : list (Z * string)).

Section Perform.

Variable tag_name : CodeTag -> string.
Variable event_name : Event -> string.
Variable CodeKindToMarker : CodeKind -> string.

Definition perform (flags : Flags) (s : t) (call : Call) : t :=
  match call with
  | CallProfilerBeginEvent => ProfilerBeginEvent flags s
  | CallStringEvent n v => StringEvent flags s n v
  | CallUncheckedStringEvent n v => UncheckedStringEvent s n v
  | CallIntPtrTEvent n v => IntPtrTEvent flags s n v
  | CallSharedLibraryEvent p a b d => SharedLibraryEvent flags s p a b d
  | CallSharedLibraryEnd => SharedLibraryEnd flags s
  | CallCurrentTimeEvent => CurrentTimeEvent s
  | CallTimerEvent se n => TimerEvent s se n
  | CallNewEvent n o z => NewEvent flags s n o z
  | CallDeleteEvent n o => DeleteEvent flags s n o
  | CallLogSourceCodeInformation c sh => LogSourceCodeInformation s c sh
  | CallLogCodeDisassemble c => LogCodeDisassemble flags s c
  | CallCodeCreateEvent_name tag c n =>
      CodeCreateEvent_name tag_name event_name flags s tag c n
  | CallCodeCreateEvent_script tag c sh n =>
      CodeCreateEvent_script tag_name event_name CodeKindToMarker flags s tag
        c sh n
  | CallCodeCreateEvent_function tag c sh n l col =>
      CodeCreateEvent_function tag_name event_name CodeKindToMarker flags s
        tag c sh n l col
  | CallCodeCreateEvent_wasm tag k a z n p m =>
      CodeCreateEvent_wasm tag_name event_name flags s tag k a z n p m
  | CallFeedbackVectorEvent v l a f c => FeedbackVectorEvent flags s v l a f c
  | CallCallbackEvent n e => CallbackEvent tag_name event_name flags s n e
  | CallGetterCallbackEvent n e =>
      GetterCallbackEvent tag_name event_name flags s n e
  | CallSetterCallbackEvent n e =>
      SetterCallbackEvent tag_name event_name flags s n e
  | CallRegExpCodeCreateEvent c src =>
      RegExpCodeCreateEvent tag_name event_name flags s c src
  | CallCodeMoveEvent a b => CodeMoveEvent event_name flags s a b
  | CallSharedFunctionInfoMoveEvent a b =>
      SharedFunctionInfoMoveEvent event_name flags s a b
  | CallCodeDisableOptEvent sh => CodeDisableOptEvent event_name flags s sh
  | CallProcessDeoptEvent z a p k r => ProcessDeoptEvent event_name s z a p k r
  | CallCodeDeoptEvent z a p k r => CodeDeoptEvent event_name flags s z a p k r
  | CallCodeDependencyChangeEvent z a sfi p r =>
      CodeDependencyChangeEvent event_name flags s z a sfi p r
  | CallCodeNameEvent a p n => CodeNameEvent event_name s a p n
  | CallFunctionEvent r i d a b n => FunctionEvent flags s r i d a b n
  | CallFunctionEvent_chars r i d a b n l =>
      FunctionEvent_chars flags s r i d a b n l
  | CallCompilationCacheEvent a c sfi => CompilationCacheEvent flags s a c sfi
  | CallScriptEvent ty i => ScriptEvent flags s ty i
  | CallScriptDetails sc => ScriptDetails flags s sc
  | CallEnsureLogScriptSource sc => (EnsureLogScriptSource s sc).2
  | CallRuntimeCallTimerEvent => RuntimeCallTimerEvent s
  | CallTickEvent sample o => TickEvent event_name flags s sample o
  | CallICEvent ty k m p l c key o n md r =>
      ICEvent flags s ty k m p l c key o n md r
  | CallMapEvent ty f to p l c r n => MapEvent flags s ty f to p l c r n
  | CallMapCreate m => MapCreate flags s m
  | CallMapDetails m d => MapDetails flags s m d
  | CallLogAllMaps maps => LogAllMaps flags s maps
  end.

(** Calls one after the other. *)
Definition perform_all (flags : Flags) (s : t) (calls : list Call) : t :=
  fold_left (perform flags) calls s.

End Perform.

(** *** Sample values used in the examples *)

Definition all_flags : Flags :=
  mkFlags true true true true true true true true true false false 1000.

Definition sample_tag_name (tag : CodeTag) : string := "Function".

Definition sample_event_name (event : Event) : string := "event".

Definition sample_marker (kind : CodeKind) : string := "~".

(** A logger whose [is_logging_] is set while the CPU profiler runs. *)
Definition profiling_logger : t :=
  mk true true true 17 ∅ false None [[Str "profiler"; kNext; Str "begin"]].

End V8FileLogger.

(** ** class LowLevelLogger: the binary low-level log *)

Module LowLevelLogger.

(** The target the file is compiled for: the branch of the [#if] chain
    of [LogCodeInfo], the size of a pointer in bytes and the byte
    order. *)
Inductive Arch :=
| ia32 | x64 | arm | ppc | ppc64 | mips | loong64 | arm64 | s390
| riscv64 | riscv32 | unknown.

Record Target := mkTarget {
  target_arch : Arch;
  kSystemPointerSize : nat;
  big_endian : bool
}.

(** [const char arch[] = "..."], without the terminating NUL. *)
Definition arch (a : Arch) : list byte :=
  list_byte_of_string
    match a with
    | ia32 => "ia32" | x64 => "x64" | arm => "arm" | ppc => "ppc"
    | ppc64 => "ppc64" | mips => "mips" | loong64 => "loong64"
    | arm64 => "arm64" | s390 => "s390" | riscv64 => "riscv64"
    | riscv32 => "riscv32" | unknown => "unknown"
    end.

(** The byte holding the value [n mod 256]. *)
Definition byte_of_Z (n : Z) : byte :=
  default x00 (Byte.of_N (Z.to_N (n mod 256))).

(** The object representation of an integer in [width] bytes: two's
    complement, least significant byte first unless the target is
    big-endian. *)
Fixpoint little_endian (width : nat) (n : Z) : list byte :=
  match width with
  | O => []
  | S width' => byte_of_Z n :: little_endian width' (n / 256)
  end.

Definition repr (tg : Target) (width : nat) (n : Z) : list byte :=
  if big_endian tg then rev (little_endian width n) else little_endian width n.

(** The bytes of a [CodeCreateStruct] whose three fields have been
    assigned: [int32_t name_size] at offset 0, [Address code_address] at
    the next multiple of the pointer size, [int32_t code_size] after it,
    and padding up to a multiple of the pointer size.  The padding bytes
    keep what [storage], the memory the local variable [event] occupies,
    held before. *)
Definition CodeCreateStruct (tg : Target) (storage : list byte)
    (name_size code_address code_size : Z) : list byte :=
  let ptr := kSystemPointerSize tg in
  repr tg 4 name_size ++
  take (ptr - 4) (drop 4 storage) ++
  repr tg ptr code_address ++
  repr tg 4 code_size ++
  take (ptr - 4) (drop (2 * ptr + 4) storage).

(** The bytes of a [CodeMoveStruct]: two [Address]es. *)
Definition CodeMoveStruct (tg : Target) (from_address to_address : Z)
  : list byte :=
  repr tg (kSystemPointerSize tg) from_address ++
  repr tg (kSystemPointerSize tg) to_address.

(** [LogWriteBytes(bytes, size)]: [fwrite] of [size] bytes at the end of
    the file, whose contents stand for [ll_output_handle_]. *)
Definition LogWriteBytes (file : list byte) (bytes : list byte) (size : Z)
  : list byte :=
  file ++ take (Z.to_nat size) bytes.

(** [LogWriteStruct(s)]: the tag [T::kTag], then the [sizeof(s)] bytes
    of [s]. *)
Definition LogWriteStruct (file : list byte) (kTag : byte) (s : list byte)
  : list byte :=
  let file := LogWriteBytes file [kTag] 1 in
  LogWriteBytes file s (Z.of_nat (length s)).

(** [LogCodeInfo]: [LogWriteBytes(arch, sizeof(arch))], the name with
    its NUL. *)
Definition LogCodeInfo (tg : Target) (file : list byte) : list byte :=
  let arch := arch (target_arch tg) ++ [x00] in
  LogWriteBytes file arch (Z.of_nat (length arch)).

(** [LowLevelLogger::LowLevelLogger]: the file is opened empty in
    [LogFileOpenMode] and [LogCodeInfo] writes its head. *)
Definition new (tg : Target) : list byte := LogCodeInfo tg [].

(** [LowLevelLogger::LogRecordedBuffer] for an [AbstractCode];
    [event_storage] is what the memory of [event] holds on entry. *)
Definition LogRecordedBuffer (tg : Target) (file : list byte)
    (event_storage : list byte) (code : AbstractCode) (name : list byte)
    (length : Z) : list byte :=
  let event := CodeCreateStruct tg event_storage length
                 (InstructionStart code) (InstructionSize code) in
  let file := LogWriteStruct file "C"%byte event in
  let file := LogWriteBytes file name length in
  LogWriteBytes file (instructions code) (InstructionSize code).

(** [LowLevelLogger::CodeMoveEvent] *)
Definition CodeMoveEvent (tg : Target) (file : list byte)
    (from to : AbstractCode) : list byte :=
  let event := CodeMoveStruct tg (InstructionStart from) (InstructionStart to) in
  LogWriteStruct file "M"%byte event.

(** [LowLevelLogger::CodeMovingGCEvent] *)
Definition CodeMovingGCEvent (file : list byte) : list byte :=
  LogWriteBytes file ["G"%byte] 1.

(** *** Sequences of events *)

Inductive Call :=
| CallLogRecordedBuffer (event_storage : list byte) (code : AbstractCode)
    (name : list byte) (length : Z)
| CallCodeMoveEvent (from to : AbstractCode)
| CallCodeMovingGCEvent.

Definition perform (tg : Target) (file : list byte) (call : Call) : list byte :=
  match call with
  | CallLogRecordedBuffer storage code name length =>
      LogRecordedBuffer tg file storage code name length
  | CallCodeMoveEvent from to => CodeMoveEvent tg file from to
  | CallCodeMovingGCEvent => CodeMovingGCEvent file
  end.

(** The file left by a logger that was constructed and then received the
    calls. *)
Definition written (tg : Target) (calls : list Call) : list byte :=
  fold_left (perform tg) calls (new tg).

(** *** Reading the file back

    The reader the specification speaks of, written from its description
    of the format: a NUL-terminated architecture name, then tagged
    records with the layout above. *)

Inductive Parsed :=
| CodeCreate (name : list byte) (code_address code_size : Z)
| CodeMove (from_address to_address : Z)
| CodeMovingGC.

(** The value of an unsigned integer from its bytes, and of an
    [int32_t] from its unsigned reading. *)
Fixpoint from_little_endian (bytes : list byte) : Z :=
  match bytes with
  | [] => 0
  | b :: bytes' => Z.of_N (Byte.to_N b) + 256 * from_little_endian bytes'
  end.

Definition value (tg : Target) (bytes : list byte) : Z :=
  from_little_endian (if big_endian tg then rev bytes else bytes).

Definition as_int32 (n : Z) : Z := if n <? 2 ^ 31 then n else n - 2 ^ 32.

(** The next [n] bytes and what follows them. *)
Definition read (n : nat) (bytes : list byte)
  : option (list byte * list byte) :=
  if (n <=? length bytes)%nat then Some (take n bytes, drop n bytes) else None.

(** The bytes before the first NUL and what follows it. *)
Fixpoint read_c_string (bytes : list byte) : option (list byte * list byte) :=
  match bytes with
  | [] => None
  | b :: bytes' =>
      if Byte.eqb b x00 then Some ([], bytes')
      else '(text, rest) ← read_c_string bytes'; Some (b :: text, rest)
  end.

Fixpoint parse_records (tg : Target) (fuel : nat) (bytes : list byte)
  : option (list Parsed) :=
  match bytes with
  | [] => Some []
  | tag :: bytes =>
      match fuel with
      | O => None
      | S fuel' =>
          let ptr := kSystemPointerSize tg in
          if Byte.eqb tag "C"%byte then
            '(name_size, bytes) ← read 4 bytes;
            '(_, bytes) ← read (ptr - 4) bytes;
            '(code_address, bytes) ← read ptr bytes;
            '(code_size, bytes) ← read 4 bytes;
            '(_, bytes) ← read (ptr - 4) bytes;
            let name_size := as_int32 (value tg name_size) in
            let code_size := as_int32 (value tg code_size) in
            if (name_size <? 0) || (code_size <? 0) then None
            else
              '(name, bytes) ← read (Z.to_nat name_size) bytes;
              '(_, bytes) ← read (Z.to_nat code_size) bytes;
              records ← parse_records tg fuel' bytes;
              Some (CodeCreate name (value tg code_address) code_size
                      :: records)
          else if Byte.eqb tag "M"%byte then
            '(from_address, bytes) ← read ptr bytes;
            '(to_address, bytes) ← read ptr bytes;
            records ← parse_records tg fuel' bytes;
            Some (CodeMove (value tg from_address) (value tg to_address)
                    :: records)
          else if Byte.eqb tag "G"%byte then
            records ← parse_records tg fuel' bytes;
            Some (CodeMovingGC :: records)
          else None
      end
  end.

(** The architecture name and the records of a file. *)
Definition parse (tg : Target) (file : list byte)
  : option (list byte * list Parsed) :=
  '(name, bytes) ← read_c_string file;
  records ← parse_records tg (length bytes) bytes;
  Some (name, records).

(** What a call is expected to read back as. *)
Definition record_of (call : Call) : Parsed :=
  match call with
  | CallLogRecordedBuffer _ code name length =>
      CodeCreate (take (Z.to_nat length) name) (InstructionStart code)
        (InstructionSize code)
  | CallCodeMoveEvent from to =>
      CodeMove (InstructionStart from) (InstructionStart to)
  | CallCodeMovingGCEvent => CodeMovingGC
  end.

(** The calls a logger can receive on a target with pointers of 4 or 8
    bytes: addresses fit a pointer, sizes and lengths fit an [int32_t]
    and are not negative, [length] bytes of [name] exist, the code holds
    [InstructionSize] bytes, and the storage of [event] is as large as
    the struct. *)
Definition pointer_ok (tg : Target) : Prop :=
  kSystemPointerSize tg = 4%nat \/ kSystemPointerSize tg = 8%nat.

Definition address_ok (tg : Target) (a : Z) : Prop :=
  0 <= a < 2 ^ (8 * Z.of_nat (kSystemPointerSize tg)).

Definition call_ok (tg : Target) (call : Call) : Prop :=
  match call with
  | CallLogRecordedBuffer storage code name length =>
      Z.of_nat (List.length storage) = 3 * Z.of_nat (kSystemPointerSize tg) /\
      0 <= length <= Z.of_nat (List.length name) /\ length < 2 ^ 31 /\
      address_ok tg (InstructionStart code) /\
      0 <= InstructionSize code < 2 ^ 31 /\
      Z.of_nat (List.length (instructions code)) = InstructionSize code
  | CallCodeMoveEvent from to =>
      address_ok tg (InstructionStart from) /\
      address_ok tg (InstructionStart to)
  | CallCodeMovingGCEvent => True
  end.

(** *** The events of the round-trip scenario *)

(** Code of 64 bytes at [0x1000], and the same code moved to [0x2000]. *)
Definition code_at (address : Z) (bytes : list byte) : AbstractCode :=
  CodeKinds.mkCode TURBOFAN address 64 bytes.

Definition scenario (storage bytes : list byte) : list Call :=
  [CallLogRecordedBuffer storage (code_at 4096 bytes)
     (list_byte_of_string "foo") 3;
   CallCodeMoveEvent (code_at 4096 bytes) (code_at 8192 bytes)].

Definition x64_target : Target := mkTarget x64 8 false.

End LowLevelLogger.

(** ** The names as plain byte sequences

    What the operations of [NameBuffer] compute, stated on the sequence
    of the bytes appended so far instead of the array and its position:
    a text of at most [kUtf8BufferSize] bytes.  The properties compare
    the buffer with this. *)

Module NameText.

Import NameBuffer.

(** [AppendBytes]: as many of the bytes as fit. *)
Definition append_bytes (text bytes : list byte) : list byte :=
  take (Z.to_nat kUtf8BufferSize) (text ++ bytes).

(** [AppendByte]. *)
Definition append_byte (text : list byte) (c : byte) : list byte :=
  append_bytes text [c].

(** [AppendInt] and [AppendHex]: the digits, when they fit together with
    the NUL that [SNPrintF] puts after them. *)
Definition append_formatted (text digits : list byte) : list byte :=
  if Z.of_nat (length text + length digits) <? kUtf8BufferSize
  then text ++ digits else text.

(** [AppendString]. *)
Definition append_string (text : list byte) (str : V8String) : list byte :=
  match str with
  | None => text
  | Some c_str => append_bytes text c_str
  end.

(** [AppendName]. *)
Definition append_name (text : list byte) (name : Name) : list byte :=
  match name with
  | IsString str => append_string text str
  | IsSymbol description hash =>
      let text := append_bytes text (list_byte_of_string "symbol(") in
      let text :=
        match description with
        | Some d =>
            append_bytes (append_bytes (append_bytes text [x22]) d) [x22; x20]
        | None => text
        end in
      let text := append_bytes text (list_byte_of_string "hash ") in
      let text := append_formatted text (format_x hash) in
      append_byte text ")"%byte
  end.

Section WithTagNames.

Variable kCodeTagNames : CodeTag -> list byte.

(** [Init]: the text starts again with the name of the tag and a
    colon. *)
Definition init (tag : CodeTag) : list byte :=
  append_byte (append_bytes [] (kCodeTagNames tag)) ":"%byte.

Definition step (text : list byte) (op : Op) : list byte :=
  match op with
  | OpInit tag => init tag
  | OpAppendName name => append_name text name
  | OpAppendString str => append_string text str
  | OpAppendBytes bytes => append_bytes text bytes
  | OpAppendByte c => append_byte text c
  | OpAppendInt n => append_formatted text (format_d n)
  | OpAppendHex n => append_formatted text (format_x n)
  end.

Definition run (text : list byte) (ops : list Op) : list byte :=
  fold_left step ops text.

End WithTagNames.

(** The operations that only append. *)
Definition appends (op : Op) : bool :=
  match op with
  | OpInit _ => false
  | _ => true
  end.

End NameText.

(** ** class CodeEventLogger: the events that are logged under a name *)

Module CodeEventLogger.

Import NameBuffer.

(** What the loggers read of a [wasm::WasmCode]: [instruction_start()],
    the bytes of [instructions()], [IsAnonymous()], [index()], and the
    text of [ExecutionTierToString(tier())] (wasm-tier.h, outside
    src/). *)
Record WasmCode := mkWasmCode {
  instruction_start : Z;
  wasm_instructions : list byte;
  IsAnonymous : bool;
  index : Z;
  tier : list byte
}.

Section WithLogger.

(** [kCodeTagNames] and [CodeKindToMarker] as before, the flags that
    [ComputeMarker] reads, and the subclass: its state and its two
    overrides of the pure virtual [LogRecordedBuffer], which receive
    [name_buffer_->get()] and [name_buffer_->size()]. *)
Variable kCodeTagNames : CodeTag -> list byte.
Variable CodeKindToMarker : CodeKind -> string.
Variable flags : V8FileLogger.Flags.
Variable Logger : Type.
Variable LogRecordedBuffer :
  Logger -> AbstractCode -> option V8FileLogger.SharedFunctionInfo ->
  list byte -> Z -> option Logger.
Variable LogRecordedBuffer_wasm :
  Logger -> WasmCode -> list byte -> Z -> option Logger.

(** The logger: [name_buffer_] and the members of the subclass. *)
Record t := mk {
  name_buffer_ : NameBuffer.t;
  logger : Logger
}.

(** The marker that [ComputeMarker] gives the function and its code, as
    the C string it is. *)
Definition marker (shared : V8FileLogger.SharedFunctionInfo)
    (c : V8FileLogger.Code) : list byte :=
  list_byte_of_string
    (V8FileLogger.ComputeMarker CodeKindToMarker flags shared c).

(** [CodeCreateEvent(tag, code, const char* comment)] *)
Definition CodeCreateEvent_comment (l : t) (tag : CodeTag)
    (code : AbstractCode) (comment : list byte) : option t :=
  nb ← Init kCodeTagNames (name_buffer_ l) tag;
  nb ← AppendBytes_cstr nb comment;
  lg ← LogRecordedBuffer (logger l) code None (utf8_buffer_ nb) (size nb);
  Some (mk nb lg).

(** [CodeCreateEvent(tag, code, Handle<Name> name)] *)
Definition CodeCreateEvent_name (l : t) (tag : CodeTag)
    (code : AbstractCode) (name : Name) : option t :=
  nb ← Init kCodeTagNames (name_buffer_ l) tag;
  nb ← AppendName nb name;
  lg ← LogRecordedBuffer (logger l) code None (utf8_buffer_ nb) (size nb);
  Some (mk nb lg).

(** [CodeCreateEvent(tag, code, shared, script_name)] *)
Definition CodeCreateEvent_script (l : t) (tag : CodeTag)
    (c : V8FileLogger.Code) (shared : V8FileLogger.SharedFunctionInfo)
    (script_name : Name) : option t :=
  nb ← Init kCodeTagNames (name_buffer_ l) tag;
  nb ← AppendBytes_cstr nb (marker shared c);
  nb ← AppendByte nb " "%byte;
  nb ← AppendName nb script_name;
  lg ← LogRecordedBuffer (logger l) (V8FileLogger.code c) (Some shared)
         (utf8_buffer_ nb) (size nb);
  Some (mk nb lg).

(** [CodeCreateEvent(tag, code, shared, script_name, line, column)] *)
Definition CodeCreateEvent_function (l : t) (tag : CodeTag)
    (c : V8FileLogger.Code) (shared : V8FileLogger.SharedFunctionInfo)
    (script_name : Name) (line column : Z) : option t :=
  nb ← Init kCodeTagNames (name_buffer_ l) tag;
  nb ← AppendBytes_cstr nb (marker shared c);
  nb ← AppendBytes_cstr nb
         (list_byte_of_string (V8FileLogger.DebugNameCStr shared));
  nb ← AppendByte nb " "%byte;
  nb ← match script_name with
       | IsString str => AppendString nb str
       | IsSymbol _ hash =>
           nb ← AppendBytes_cstr nb (list_byte_of_string "symbol(hash ");
           nb ← AppendHex nb hash;
           AppendByte nb ")"%byte
       end;
  nb ← AppendByte nb ":"%byte;
  nb ← AppendInt nb line;
  nb ← AppendByte nb ":"%byte;
  nb ← AppendInt nb column;
  lg ← LogRecordedBuffer (logger l) (V8FileLogger.code c) (Some shared)
         (utf8_buffer_ nb) (size nb);
  Some (mk nb lg).

(** [CodeCreateEvent(tag, const wasm::WasmCode* code, name, source_url,
    code_offset, script_id)]; [name] is the [wasm::WasmName], a vector
    of characters. *)
Definition CodeCreateEvent_wasm (l : t) (tag : CodeTag) (code : WasmCode)
    (name : list byte) : option t :=
  nb ← Init kCodeTagNames (name_buffer_ l) tag;
  nb ← AppendBytes nb name (Z.of_nat (length name));
  nb ← AppendByte nb "-"%byte;
  nb ← (if IsAnonymous code
        then AppendBytes_cstr nb (list_byte_of_string "<anonymous>")
        else AppendInt nb (index code));
  nb ← AppendByte nb "-"%byte;
  nb ← AppendBytes_cstr nb (tier code);
  lg ← LogRecordedBuffer_wasm (logger l) code (utf8_buffer_ nb) (size nb);
  Some (mk nb lg).

(** [RegExpCodeCreateEvent(code, source)] *)
Definition RegExpCodeCreateEvent (l : t) (code : AbstractCode)
    (source : V8String) : option t :=
  nb ← Init kCodeTagNames (name_buffer_ l) kRegExp;
  nb ← AppendString nb source;
  lg ← LogRecordedBuffer (logger l) code None (utf8_buffer_ nb) (size nb);
  Some (mk nb lg).

(** *** Sequences of events *)

Inductive Call :=
| CallCodeCreateEvent_comment (tag : CodeTag) (code : AbstractCode)
    (comment : list byte)
| CallCodeCreateEvent_name (tag : CodeTag) (code : AbstractCode) (name : Name)
| CallCodeCreateEvent_script (tag : CodeTag) (c : V8FileLogger.Code)
    (shared : V8FileLogger.SharedFunctionInfo) (script_name : Name)
| CallCodeCreateEvent_function (tag : CodeTag) (c : V8FileLogger.Code)
    (shared : V8FileLogger.SharedFunctionInfo) (script_name : Name)
    (line column : Z)
| CallCodeCreateEvent_wasm (tag : CodeTag) (code : WasmCode) (name : list byte)
| CallRegExpCodeCreateEvent (code : AbstractCode) (source : V8String).

Definition perform (l : t) (call : Call) : option t :=
  match call with
  | CallCodeCreateEvent_comment tag code comment =>
      CodeCreateEvent_comment l tag code comment
  | CallCodeCreateEvent_name tag code name =>
      CodeCreateEvent_name l tag code name
  | CallCodeCreateEvent_script tag c shared script_name =>
      CodeCreateEvent_script l tag c shared script_name
  | CallCodeCreateEvent_function tag c shared script_name line column =>
      CodeCreateEvent_function l tag c shared script_name line column
  | CallCodeCreateEvent_wasm tag code name =>
      CodeCreateEvent_wasm l tag code name
  | CallRegExpCodeCreateEvent code source =>
      RegExpCodeCreateEvent l code source
  end.

Fixpoint perform_all (l : t) (calls : list Call) : option t :=
  match calls with
  | [] => Some l
  | call :: calls' => l' ← perform l call; perform_all l' calls'
  end.

(** *** The name of an event as a plain byte sequence

    The text that the calls of each event spell, in the terms of
    [NameText]. *)
Definition name_text (call : Call) : list byte :=
  match call with
  | CallCodeCreateEvent_comment tag _ comment =>
      NameText.append_bytes (NameText.init kCodeTagNames tag) comment
  | CallCodeCreateEvent_name tag _ name =>
      NameText.append_name (NameText.init kCodeTagNames tag) name
  | CallCodeCreateEvent_script tag c shared script_name =>
      NameText.append_name
        (NameText.append_byte
           (NameText.append_bytes (NameText.init kCodeTagNames tag)
              (marker shared c))
           " "%byte)
        script_name
  | CallCodeCreateEvent_function tag c shared script_name line column =>
      let text :=
        NameText.append_byte
          (NameText.append_bytes
             (NameText.append_bytes (NameText.init kCodeTagNames tag)
                (marker shared c))
             (list_byte_of_string (V8FileLogger.DebugNameCStr shared)))
          " "%byte in
      let text :=
        match script_name with
        | IsString str => NameText.append_string text str
        | IsSymbol _ hash =>
            NameText.append_byte
              (NameText.append_formatted
                 (NameText.append_bytes text
                    (list_byte_of_string "symbol(hash "))
                 (format_x hash))
              ")"%byte
        end in
      NameText.append_formatted
        (NameText.append_byte
           (NameText.append_formatted (NameText.append_byte text ":"%byte)
              (format_d line))
           ":"%byte)
        (format_d column)
  | CallCodeCreateEvent_wasm tag code name =>
      let text :=
        NameText.append_byte
          (NameText.append_bytes (NameText.init kCodeTagNames tag) name)
          "-"%byte in
      let text :=
        if IsAnonymous code
        then NameText.append_bytes text (list_byte_of_string "<anonymous>")
        else NameText.append_formatted text (format_d (index code)) in
      NameText.append_bytes (NameText.append_byte text "-"%byte) (tier code)
  | CallRegExpCodeCreateEvent _ source =>
      NameText.append_string (NameText.init kCodeTagNames kRegExp) source
  end.

(** The override that an event reaches, applied to a name and its
    length. *)
Definition deliver (lg : Logger) (call : Call) (name : list byte) (length : Z)
  : option Logger :=
  match call with
  | CallCodeCreateEvent_comment _ code _
  | CallCodeCreateEvent_name _ code _
  | CallRegExpCodeCreateEvent code _ =>
      LogRecordedBuffer lg code None name length
  | CallCodeCreateEvent_script _ c shared _
  | CallCodeCreateEvent_function _ c shared _ _ _ =>
      LogRecordedBuffer lg (V8FileLogger.code c) (Some shared) name length
  | CallCodeCreateEvent_wasm _ code _ =>
      LogRecordedBuffer_wasm lg code name length
  end.

End WithLogger.

Arguments mk {Logger}.
Arguments name_buffer_ {Logger}.
Arguments logger {Logger}.

(** Where the code of an event starts, how many bytes it takes and the
    bytes themselves, as the overrides of [LogRecordedBuffer] read
    them. *)
Definition code_start (call : Call) : Z :=
  match call with
  | CallCodeCreateEvent_comment _ code _
  | CallCodeCreateEvent_name _ code _
  | CallRegExpCodeCreateEvent code _ => InstructionStart code
  | CallCodeCreateEvent_script _ c _ _
  | CallCodeCreateEvent_function _ c _ _ _ _ =>
      InstructionStart (V8FileLogger.code c)
  | CallCodeCreateEvent_wasm _ code _ => instruction_start code
  end.

Definition code_size (call : Call) : Z :=
  match call with
  | CallCodeCreateEvent_comment _ code _
  | CallCodeCreateEvent_name _ code _
  | CallRegExpCodeCreateEvent code _ => InstructionSize code
  | CallCodeCreateEvent_script _ c _ _
  | CallCodeCreateEvent_function _ c _ _ _ _ =>
      InstructionSize (V8FileLogger.code c)
  | CallCodeCreateEvent_wasm _ code _ =>
      Z.of_nat (length (wasm_instructions code))
  end.

Definition code_bytes (call : Call) : list byte :=
  match call with
  | CallCodeCreateEvent_comment _ code _
  | CallCodeCreateEvent_name _ code _
  | CallRegExpCodeCreateEvent code _ => instructions code
  | CallCodeCreateEvent_script _ c _ _
  | CallCodeCreateEvent_function _ c _ _ _ _ =>
      instructions (V8FileLogger.code c)
  | CallCodeCreateEvent_wasm _ code _ => wasm_instructions code
  end.

(** *** Sample values used in the examples *)

Definition sample_code : V8FileLogger.Code :=
  V8FileLogger.mkCode LinuxPerfBasicLogger.function_code 12 "INTERPRETED_FUNCTION"
    false false [] [] [] EmptyString.

Definition sample_shared : V8FileLogger.SharedFunctionInfo :=
  V8FileLogger.mkSharedFunctionInfo 24576 None 0 10 "f" false EmptyString.

End CodeEventLogger.

(** ** The perf map logger as a [CodeEventLogger] *)

Module LinuxPerfBasicLoggerEvents.

Import LinuxPerfBasicLogger.

(** [LinuxPerfBasicLogger::LogRecordedBuffer] for a [wasm::WasmCode]:
    it does not read the flag. *)
Definition LogRecordedBuffer_wasm (s : Statics)
    (code : CodeEventLogger.WasmCode) (name : list byte) (length : Z)
  : option Statics :=
  WriteLogRecordedBuffer s (CodeEventLogger.instruction_start code)
    (Z.of_nat (List.length (CodeEventLogger.wasm_instructions code)))
    name length.

Section WithNames.

Variable kCodeTagNames : CodeTag -> list byte.
Variable CodeKindToMarker : CodeKind -> string.
Variable flags : V8FileLogger.Flags.
Variable FLAG_perf_basic_prof_only_functions : bool.

(** The events of [CodeEventLogger] on this subclass. *)
Definition perform (l : CodeEventLogger.t Statics)
    (call : CodeEventLogger.Call) : option (CodeEventLogger.t Statics) :=
  CodeEventLogger.perform kCodeTagNames CodeKindToMarker flags Statics
    (fun s code _ name length =>
       LogRecordedBuffer FLAG_perf_basic_prof_only_functions s code name
         length)
    LogRecordedBuffer_wasm l call.

Fixpoint perform_all (l : CodeEventLogger.t Statics)
    (calls : list CodeEventLogger.Call) : option (CodeEventLogger.t Statics) :=
  match calls with
  | [] => Some l
  | call :: calls' => l' ← perform l call; perform_all l' calls'
  end.

(** Whether the override that an event reaches gets to
    [WriteLogRecordedBuffer]. *)
Definition reaches_the_map (call : CodeEventLogger.Call) : bool :=
  match call with
  | CodeEventLogger.CallCodeCreateEvent_comment _ code _
  | CodeEventLogger.CallCodeCreateEvent_name _ code _
  | CodeEventLogger.CallRegExpCodeCreateEvent code _ =>
      negb (FLAG_perf_basic_prof_only_functions &&
            CodeKindIsBuiltinOrJSFunction (kind code))
  | CodeEventLogger.CallCodeCreateEvent_script _ c _ _
  | CodeEventLogger.CallCodeCreateEvent_function _ c _ _ _ _ =>
      negb (FLAG_perf_basic_prof_only_functions &&
            CodeKindIsBuiltinOrJSFunction (kind (V8FileLogger.code c)))
  | CodeEventLogger.CallCodeCreateEvent_wasm _ _ _ => true
  end.

(** The line of an event: start and size in hexadecimal, then the name
    of the event up to its first NUL, and a newline. *)
Definition map_line (call : CodeEventLogger.Call) : list byte :=
  let name :=
    CodeEventLogger.name_text kCodeTagNames CodeKindToMarker flags call in
  format_lx (CodeEventLogger.code_start call) ++ [x20] ++
  NameBuffer.format_x (CodeEventLogger.code_size call) ++ [x20] ++
  format_s (length name) name ++ [x0a].

End WithNames.

End LinuxPerfBasicLoggerEvents.

(** ** The low-level logger as a [CodeEventLogger] *)

Module LowLevelLoggerEvents.

Import LowLevelLogger.

(** [LowLevelLogger::LogRecordedBuffer] for a [wasm::WasmCode]. *)
Definition LogRecordedBuffer_wasm (tg : Target) (file : list byte)
    (event_storage : list byte) (code : CodeEventLogger.WasmCode)
    (name : list byte) (length : Z) : list byte :=
  let event :=
    CodeCreateStruct tg event_storage length
      (CodeEventLogger.instruction_start code)
      (Z.of_nat (List.length (CodeEventLogger.wasm_instructions code))) in
  let file := LogWriteStruct file "C"%byte event in
  let file := LogWriteBytes file name length in
  LogWriteBytes file (CodeEventLogger.wasm_instructions code)
    (Z.of_nat (List.length (CodeEventLogger.wasm_instructions code))).

(** The events the logger receives: a code-creation event of
    [CodeEventLogger], with what the memory of the local [event] holds
    when [LogRecordedBuffer] is entered, a code move, or a moving
    collection. *)
Inductive Call :=
| CallCodeCreate (event_storage : list byte) (call : CodeEventLogger.Call)
| CallCodeMoveEvent (from to : AbstractCode)
| CallCodeMovingGCEvent.

Section WithNames.

Variable kCodeTagNames : CodeTag -> list byte.
Variable CodeKindToMarker : CodeKind -> string.
Variable flags : V8FileLogger.Flags.
Variable tg : Target.

Definition perform (l : CodeEventLogger.t (list byte)) (call : Call)
  : option (CodeEventLogger.t (list byte)) :=
  match call with
  | CallCodeCreate event_storage call =>
      CodeEventLogger.perform kCodeTagNames CodeKindToMarker flags (list byte)
        (fun file code _ name length =>
           Some (LogRecordedBuffer tg file event_storage code name length))
        (fun file code name length =>
           Some (LogRecordedBuffer_wasm tg file event_storage code name length))
        l call
  | CallCodeMoveEvent from to =>
      Some (CodeEventLogger.mk (CodeEventLogger.name_buffer_ l)
              (CodeMoveEvent tg (CodeEventLogger.logger l) from to))
  | CallCodeMovingGCEvent =>
      Some (CodeEventLogger.mk (CodeEventLogger.name_buffer_ l)
              (CodeMovingGCEvent (CodeEventLogger.logger l)))
  end.

Fixpoint perform_all (l : CodeEventLogger.t (list byte)) (calls : list Call)
  : option (CodeEventLogger.t (list byte)) :=
  match calls with
  | [] => Some l
  | call :: calls' => l' ← perform l call; perform_all l' calls'
  end.

(** A logger just constructed, its name buffer over [storage]. *)
Definition new (storage : list byte) : CodeEventLogger.t (list byte) :=
  CodeEventLogger.mk (NameBuffer.new storage) (LowLevelLogger.new tg).

(** What an event is expected to read back as. *)
Definition record_of (call : Call) : Parsed :=
  match call with
  | CallCodeCreate _ call =>
      CodeCreate
        (CodeEventLogger.name_text kCodeTagNames CodeKindToMarker flags call)
        (CodeEventLogger.code_start call)
        (CodeEventLogger.code_size call)
  | CallCodeMoveEvent from to =>
      CodeMove (InstructionStart from) (InstructionStart to)
  | CallCodeMovingGCEvent => CodeMovingGC
  end.

(** The events a logger can receive: the storage of [event] is as large
    as the struct, addresses fit a pointer, and the code holds as many
    bytes as its size says, fewer than [2^31]. *)
Definition call_ok (call : Call) : Prop :=
  match call with
  | CallCodeCreate event_storage call =>
      Z.of_nat (length event_storage) = 3 * Z.of_nat (kSystemPointerSize tg) /\
      address_ok tg (CodeEventLogger.code_start call) /\
      0 <= CodeEventLogger.code_size call < 2 ^ 31 /\
      Z.of_nat (length (CodeEventLogger.code_bytes call)) =
        CodeEventLogger.code_size call
  | CallCodeMoveEvent from to =>
      address_ok tg (InstructionStart from) /\
      address_ok tg (InstructionStart to)
  | CallCodeMovingGCEvent => True
  end.

End WithNames.

(** *** Sample values used in the examples *)

Definition sample_events : list Call :=
  [CallCodeCreate (replicate 24 xff)
     (CodeEventLogger.CallCodeCreateEvent_comment kFunction
        (LowLevelLogger.code_at 4096 (replicate 64 x90))
        (list_byte_of_string "foo"));
   CallCodeMovingGCEvent;
   CallCodeMoveEvent
     (LowLevelLogger.code_at 4096 (replicate 64 x90))
     (LowLevelLogger.code_at 8192 (replicate 64 x90))].

End LowLevelLoggerEvents.

(** ** The name of the log file: [PrepareLogFileName] *)

Module LogFileName.

Section WithPlatform.

(** [base::OS::isDirectorySeparator], the text that [os << isolate]
    prints for the pointer, [base::OS::GetCurrentProcessId()] and
    [CurrentClockTimeMillis()] cast to [int64_t]. *)
Variable isDirectorySeparator : byte -> bool.
Variable isolate : list byte.
Variable process_id : Z.
Variable time : Z.

(** [static void AddIsolateIdIfNeeded(std::ostream& os, Isolate*
    isolate)]; [os] is the text written to the stream so far. *)
Definition AddIsolateIdIfNeeded (FLAG_logfile_per_isolate : bool)
    (os : list byte) : list byte :=
  if negb FLAG_logfile_per_isolate then os
  else os ++ list_byte_of_string "isolate-" ++ isolate ++
       list_byte_of_string "-" ++ NameBuffer.format_d process_id ++
       list_byte_of_string "-".

(** The first loop of [PrepareLogFileName]: the number of directory
    separators in the name.  A C string is the list of its characters
    before the NUL. *)
Definition count_separators (file_name : list byte) : Z :=
  fold_left (fun dir_separator_count c =>
               if isDirectorySeparator c then dir_separator_count + 1
               else dir_separator_count)
            file_name 0.

(** The second loop, from the character [p] points to.  After a ['%']
    the next character is looked at; at the end of the string the
    pointer is moved back and the loop ends. *)
Fixpoint expand (FLAG_logfile_per_isolate : bool) (p : list byte)
    (dir_separator_count : Z) (os : list byte) : list byte :=
  match p with
  | [] => os
  | c :: p' =>
      let '(os, dir_separator_count) :=
        if dir_separator_count =? 0
        then (AddIsolateIdIfNeeded FLAG_logfile_per_isolate os,
              dir_separator_count - 1)
        else (os, dir_separator_count) in
      if Byte.eqb c "%"%byte then
        match p' with
        | [] => os
        | d :: p'' =>
            if Byte.eqb d "p"%byte then
              expand FLAG_logfile_per_isolate p'' dir_separator_count
                (os ++ NameBuffer.format_d process_id)
            else if Byte.eqb d "t"%byte then
              expand FLAG_logfile_per_isolate p'' dir_separator_count
                (os ++ NameBuffer.format_d time)
            else if Byte.eqb d "%"%byte then
              expand FLAG_logfile_per_isolate p'' dir_separator_count
                (os ++ ["%"%byte])
            else
              expand FLAG_logfile_per_isolate p'' dir_separator_count
                (os ++ ["%"%byte; d])
        end
      else
        let dir_separator_count :=
          if isDirectorySeparator c then dir_separator_count - 1
          else dir_separator_count in
        expand FLAG_logfile_per_isolate p' dir_separator_count (os ++ [c])
  end.

(** [static void PrepareLogFileName(std::ostream& os, Isolate* isolate,
    const char* file_name)], on an empty stream. *)
Definition PrepareLogFileName (FLAG_logfile_per_isolate : bool)
    (file_name : list byte) : list byte :=
  expand FLAG_logfile_per_isolate file_name (count_separators file_name) [].

End WithPlatform.

(** A name with every ['%'] doubled: how a caller keeps a name as it
    is. *)
Definition escape (name : list byte) : list byte :=
  flat_map (fun c => if Byte.eqb c "%"%byte then ["%"%byte; "%"%byte] else [c])
           name.

(** *** Sample values used in the examples *)

Definition slash (c : byte) : bool := Byte.eqb c "/"%byte.

End LogFileName.

(** ** The text log over time *)

Module V8FileLoggerHistory.

Import V8FileLogger.

(** [void V8FileLogger::UpdateIsLogging(bool value)]: the store to
    [is_logging_]. *)
Definition UpdateIsLogging (s : t) (value : bool) : t :=
  mk value (is_profiling s) (is_listening_to_code_events s) (Time s)
     (logged_source_code_ s) (runtime_stats_enabled_by_native s)
     (current_counter s) (log_ s).

(** The isolate starts or stops profiling: what [is_profiling()]
    returns changes. *)
Definition set_profiling (s : t) (value : bool) : t :=
  mk (is_logging_ s) value (is_listening_to_code_events s) (Time s)
     (logged_source_code_ s) (runtime_stats_enabled_by_native s)
     (current_counter s) (log_ s).

(** What can happen to the logger: one of its operations is called,
    logging is switched, or profiling starts or stops. *)
Inductive Step :=
| StepCall (call : Call)
| StepUpdateIsLogging (value : bool)
| StepProfiling (value : bool).

Section WithNames.

Variable tag_name : CodeTag -> string.
Variable event_name : Event -> string.
Variable CodeKindToMarker : CodeKind -> string.

Definition step (flags : Flags) (s : t) (st : Step) : t :=
  match st with
  | StepCall call => perform tag_name event_name CodeKindToMarker flags s call
  | StepUpdateIsLogging value => UpdateIsLogging s value
  | StepProfiling value => set_profiling s value
  end.

Definition steps (flags : Flags) (s : t) (sts : list Step) : t :=
  fold_left (step flags) sts s.

End WithNames.

(** A later state of the logger as its operations leave it: what it
    reads of the isolate is the same, every script noted is still noted,
    and the log starts with the messages it had. *)
Definition grows (s s' : t) : Prop :=
  is_logging_ s' = is_logging_ s /\
  is_profiling s' = is_profiling s /\
  is_listening_to_code_events s' = is_listening_to_code_events s /\
  Time s' = Time s /\
  runtime_stats_enabled_by_native s' = runtime_stats_enabled_by_native s /\
  current_counter s' = current_counter s /\
  logged_source_code_ s ⊆ logged_source_code_ s' /\
  log_ s `prefix_of` log_ s'.

(** *** Sample values used in the examples *)

Definition sample_script : Script :=
  mkScript 5 (Some "a.js"%string) (Some "f()"%string) 0 0 None.

End V8FileLoggerHistory.

(** ** A schedule in which [Insert] overlaps [Remove] *)

Module ProfilerRace.

Import Profiler ProfilerSteps.

(** One whole [Insert] of a sample, access by access. *)
Definition whole_Insert (sample : TickSample) : list Move :=
  [MBegin sample; MProducer; MProducer; MProducer].

(** The sampler fills the ring while the consumer is not scheduled; the
    consumer then starts a [Remove] and has copied the sample and read
    [overflow_] when the sampler enters [Insert] once more. *)
Definition full_then_overlap : list Move :=
  concat (map (fun n => whole_Insert (numbered n)) (seq 1 127)) ++
  [MConsumer; MConsumer; MConsumer; MBegin (numbered 128)].

End ProfilerRace.

(** ** class JitLogger: line position events *)

Module JitLogger.

(** [JitCodeEvent::CodeType] and [JitCodeEvent::PositionType]. *)
Inductive CodeType := BYTE_CODE | JIT_CODE | WASM_CODE.

Inductive PositionType := POSITION | STATEMENT_POSITION.

(** A [JitCodeEvent] as the three line-position functions fill it in:
    its [type] with [code_type] and, as the function sets them,
    [user_data], [line_info] and [code_start].  The members [offset]
    and [pos] of [line_info] are of type [size_t] (the wasm override of
    [LogRecordedBuffer] fills the same struct with a
    [static_cast<size_t>] and a [size_t]). *)
Inductive JitCodeEvent :=
| CODE_ADD_LINE_POS_INFO (code_type : CodeType) (user_data : Z)
    (offset pos : Z) (position_type : PositionType)
| CODE_START_LINE_INFO_RECORDING (code_type : CodeType)
| CODE_END_LINE_INFO_RECORDING (code_type : CodeType) (code_start : Z)
    (user_data : Z).

(** What [CodeLinePosEvent] reads of a [SourcePositionTableIterator]
    at one entry: [code_offset()], [source_position().ScriptOffset()]
    and [is_statement()].  The iterator is the list of the entries it
    has not passed. *)
Record Entry := mkEntry {
  code_offset : Z;
  script_offset : Z;
  is_statement : bool
}.

(** The conversion of an [int] to a [size_t] of 64 bits: the value
    modulo 2^64, so that a negative [n] becomes [2^64 + n]. *)
Definition to_size_t (n : Z) : Z := n mod 2 ^ 64.

Section WithHandler.

(** The embedder's [code_event_handler_].  The logger is followed by
    the events it has handed to the handler, oldest first;
    [user_data_after] is what the handler leaves in [event.user_data]
    when it returns from the last of them. *)
Variable user_data_after : list JitCodeEvent -> Z.

(** [void* JitLogger::StartCodePosInfoEvent(JitCodeEvent::CodeType)] *)
Definition StartCodePosInfoEvent (events : list JitCodeEvent)
    (code_type : CodeType) : list JitCodeEvent * Z :=
  let events := events ++ [CODE_START_LINE_INFO_RECORDING code_type] in
  (events, user_data_after events).

(** [void JitLogger::AddCodeLinePosInfoEvent(...)].  [pc_offset] and
    [position] are [int]s, and [event.line_info.offset = pc_offset;
    event.line_info.pos = position;] converts them to [size_t]. *)
Definition AddCodeLinePosInfoEvent (events : list JitCodeEvent)
    (jit_handler_data pc_offset position : Z) (position_type : PositionType)
    (code_type : CodeType) : list JitCodeEvent :=
  events ++ [CODE_ADD_LINE_POS_INFO code_type jit_handler_data
               (to_size_t pc_offset) (to_size_t position) position_type].

(** [void JitLogger::EndCodePosInfoEvent(...)] *)
Definition EndCodePosInfoEvent (events : list JitCodeEvent)
    (start_address jit_handler_data : Z) (code_type : CodeType)
  : list JitCodeEvent :=
  events ++ [CODE_END_LINE_INFO_RECORDING code_type start_address
               jit_handler_data].

(** [void CodeLinePosEvent(JitLogger& jit_logger, Address code_start,
    SourcePositionTableIterator& iter, JitCodeEvent::CodeType
    code_type)] *)
Definition CodeLinePosEvent (events : list JitCodeEvent) (code_start : Z)
    (iter : list Entry) (code_type : CodeType) : list JitCodeEvent :=
  let '(events, jit_handler_data) := StartCodePosInfoEvent events code_type in
  let events :=
    fold_left
      (fun events entry =>
         let events :=
           if is_statement entry
           then AddCodeLinePosInfoEvent events jit_handler_data
                  (code_offset entry) (script_offset entry)
                  STATEMENT_POSITION code_type
           else events in
         AddCodeLinePosInfoEvent events jit_handler_data (code_offset entry)
           (script_offset entry) POSITION code_type)
      iter events in
  EndCodePosInfoEvent events code_start jit_handler_data code_type.

End WithHandler.

(** The position an event adds, if it adds one of the given type. *)
Definition added (position_type : PositionType) (event : JitCodeEvent)
  : option (Z * Z) :=
  match event, position_type with
  | CODE_ADD_LINE_POS_INFO _ _ offset pos POSITION, POSITION
  | CODE_ADD_LINE_POS_INFO _ _ offset pos STATEMENT_POSITION,
    STATEMENT_POSITION => Some (offset, pos)
  | _, _ => None
  end.

(** The position the handler is given for a table entry. *)
Definition position_of (entry : Entry) : Z * Z :=
  (to_size_t (code_offset entry), to_size_t (script_offset entry)).

(** Whether an event adds a position for the given code type and
    handler data. *)
Definition adds_for (code_type : CodeType) (user_data : Z)
    (event : JitCodeEvent) : Prop :=
  exists offset pos position_type,
    event = CODE_ADD_LINE_POS_INFO code_type user_data offset pos position_type.

End JitLogger.

(** ** Reading the perf map back

    The reader of a line of the map, written from the format string of
    [WriteLogRecordedBuffer]: two hexadecimal numbers, each followed by
    a space, then the name up to the newline. *)

Module PerfMapReader.

(** The bytes before the first [sep] and what follows it. *)
Fixpoint split_at (sep : byte) (bytes : list byte)
  : option (list byte * list byte) :=
  match bytes with
  | [] => None
  | b :: bytes' =>
      if Byte.eqb b sep then Some ([], bytes')
      else '(field, rest) ← split_at sep bytes'; Some (b :: field, rest)
  end.

(** The value of a hexadecimal numeral without prefix. *)
Definition hex (text : list byte) : option Z :=
  d ← HexadecimalString.NilEmpty.uint_of_string (string_of_list_byte text);
  Some (Z.of_N (N.of_hex_uint d)).

(** The address, the size and the name of a line. *)
Definition read_line (line : list byte) : option (Z * Z * list byte) :=
  '(address, rest) ← split_at x20 line;
  '(size, rest) ← split_at x20 rest;
  '(name, rest) ← split_at x0a rest;
  match rest with
  | [] => address ← hex address; size ← hex size; Some (address, size, name)
  | _ :: _ => None
  end.

End PerfMapReader.

(* ===================================================================== *)
(** * Part II.  Properties                                                *)
(* ===================================================================== *)

Ltac Zify.zify_post_hook ::= Z.div_mod_to_equations.

(** ** The circular sample buffer *)

Section ProfilerFacts.
Import Profiler.

Lemma Succ_in_range i : 0 <= i < 128 -> Succ i = (i + 1) mod 128.
Proof.
  intros Hi. unfold Succ, kBufferSize.
  apply Z.rem_mod_nonneg; lia.
Qed.

Lemma ring_ok_head p : ring_ok p -> 0 <= head_ p < 128.
Proof. intros (_ & ? & ? & ->). lia. Qed.

(** The test of [Insert] succeeds exactly when 127 samples are unread. *)
Lemma full_iff p :
  ring_ok p ->
  Succ (head_ p) = tail_ p <-> buffer_semaphore_ p = 127%nat.
Proof.
  intros H. pose proof (ring_ok_head p H) as Hh.
  destruct H as (_ & Ht & Hn & Hhead).
  rewrite Succ_in_range by lia. lia.
Qed.

Lemma slots_insert_outside b s i n h :
  0 <= i < 128 -> (n <= 127)%nat ->
  h = (i + Z.of_nat n) mod 128 ->
  slots (<[Z.to_nat h := s]> b) i n = slots b i n.
Proof.
  revert i. induction n as [|n IH]; intros i Hi Hn Hh; [done|].
  simpl. f_equal.
  - apply list_lookup_total_insert_ne. lia.
  - apply IH; [rewrite Succ_in_range by lia; lia | lia |].
    rewrite Succ_in_range by lia. lia.
Qed.

Lemma slots_snoc b i n :
  0 <= i < 128 ->
  slots b i (S n) = slots b i n ++ [b !!! Z.to_nat ((i + Z.of_nat n) mod 128)].
Proof.
  revert i. induction n as [|n IH]; intros i Hi.
  - simpl. do 3 f_equal. lia.
  - change (slots b i (S (S n)))
      with (b !!! Z.to_nat i :: slots b (Succ i) (S n)).
    rewrite IH by (rewrite Succ_in_range by lia; lia).
    simpl. do 4 f_equal. rewrite Succ_in_range by lia. lia.
Qed.

Lemma slots_length b i n : length (slots b i n) = n.
Proof. revert i. induction n as [|n IH]; intros i; simpl; [done|by rewrite IH]. Qed.

Lemma unread_length p : length (unread p) = buffer_semaphore_ p.
Proof. apply slots_length. Qed.

Lemma ring_ok_new : ring_ok new.
Proof. unfold ring_ok, new; simpl. repeat split; try lia. Qed.

Lemma ring_ok_store_running p v : ring_ok p -> ring_ok (store_running p v).
Proof. by unfold ring_ok, store_running. Qed.

(** [Insert] on a ring holding 127 unread samples only raises the flag. *)
Lemma Insert_full p sample :
  ring_ok p -> buffer_semaphore_ p = 127%nat ->
  Insert p sample =
    mk (buffer_ p) (head_ p) (tail_ p) true (buffer_semaphore_ p) (running_ p).
Proof.
  intros Hok Hn. unfold Insert.
  apply (full_iff p Hok) in Hn. by rewrite (proj2 (Z.eqb_eq _ _) Hn).
Qed.

(** [Insert] on a ring with room stores the sample behind the unread ones. *)
Lemma Insert_room p sample :
  ring_ok p -> buffer_semaphore_ p <> 127%nat ->
  Insert p sample =
    mk (<[Z.to_nat (head_ p) := sample]> (buffer_ p)) (Succ (head_ p))
       (tail_ p) (overflow_ p) (S (buffer_semaphore_ p)) (running_ p).
Proof.
  intros Hok Hn. unfold Insert.
  destruct (Z.eqb_spec (Succ (head_ p)) (tail_ p)) as [E|E]; [|done].
  by apply (full_iff p Hok) in E.
Qed.

Lemma Insert_room_unread p sample :
  ring_ok p -> buffer_semaphore_ p <> 127%nat ->
  unread (Insert p sample) = unread p ++ [sample].
Proof.
  intros Hok Hn. rewrite Insert_room by done.
  destruct Hok as (Hlen & Ht & Hs & Hh).
  unfold unread; cbn [buffer_ tail_ buffer_semaphore_].
  rewrite slots_snoc by done. rewrite <- Hh.
  rewrite slots_insert_outside by (done || lia).
  f_equal. f_equal. apply list_lookup_total_insert_eq. lia.
Qed.

Lemma ring_ok_Insert p sample : ring_ok p -> ring_ok (Insert p sample).
Proof.
  intros Hok.
  destruct (decide (buffer_semaphore_ p = 127%nat)) as [E|E].
  - rewrite Insert_full by done. exact Hok.
  - rewrite Insert_room by done.
    pose proof (ring_ok_head p Hok) as Hhd.
    destruct Hok as (Hlen & Ht & Hs & Hh).
    unfold ring_ok; simpl. rewrite length_insert.
    repeat split; try lia.
    rewrite Succ_in_range by lia. lia.
Qed.

Lemma Remove_Some p overflow sample p' :
  ring_ok p -> Remove p = Some (overflow, sample, p') ->
  ring_ok p' /\ unread p = sample :: unread p' /\
  overflow = overflow_ p /\ overflow_ p' = false /\
  running_ p' = running_ p /\
  S (buffer_semaphore_ p') = buffer_semaphore_ p.
Proof.
  intros (Hlen & Ht & Hs & Hh). unfold Remove, unread.
  destruct (buffer_semaphore_ p) as [|n] eqn:En; simpl; [done|].
  intros [= <- <- <-]; cbn [buffer_ head_ tail_ overflow_ buffer_semaphore_ running_].
  unfold ring_ok; cbn [buffer_ head_ tail_ buffer_semaphore_].
  pose proof (Succ_in_range (tail_ p) Ht) as HS.
  repeat split; try done; lia.
Qed.

Lemma Remove_None p : Remove p = None <-> buffer_semaphore_ p = 0%nat.
Proof. unfold Remove. destruct (buffer_semaphore_ p); simpl; split; done. Qed.

Lemma reachable_ring_ok p : reachable p -> ring_ok p.
Proof.
  induction 1 as [|p s _ IH|p o s p' _ IH Hr|p v _ IH].
  - apply ring_ok_new.
  - by apply ring_ok_Insert.
  - by destruct (Remove_Some _ _ _ _ IH Hr).
  - by apply ring_ok_store_running.
Qed.

Lemma reachable_fill p n : reachable p -> reachable (fill p n).
Proof.
  unfold fill. generalize (map numbered (seq 1 n)) as l.
  intros l. revert p. induction l as [|s l IH]; intros p Hp; simpl; [done|].
  apply IH. by constructor.
Qed.

End ProfilerFacts.

Section ProfilerClaims.
Import Profiler.

(** The queue the ring represents. *)
Lemma Insert_refines p sample :
  ring_ok p ->
  mkFifo (unread (Insert p sample)) (overflow_ (Insert p sample)) =
  Fifo_push (mkFifo (unread p) (overflow_ p)) sample.
Proof.
  intros Hok. unfold Fifo_push, Fifo_capacity; cbn [queued push_dropped].
  rewrite unread_length.
  destruct (Nat.eqb_spec (buffer_semaphore_ p) 127) as [E|E].
  - by rewrite Insert_full.
  - rewrite Insert_room_unread by done. by rewrite Insert_room.
Qed.

Lemma run_refines ops : forall p q obs,
  ring_ok p -> run p ops = Some (q, obs) ->
  ring_ok q /\
  Fifo_run (mkFifo (unread p) (overflow_ p)) ops =
    Some (mkFifo (unread q) (overflow_ q), obs).
Proof.
  induction ops as [|[sample|] ops IH]; intros p q obs Hok; simpl.
  - by intros [= <- <-].
  - destruct (run (Insert p sample) ops) as [[q' obs']|] eqn:Hrun; [|done].
    intros [= <- <-].
    destruct (IH _ _ _ (ring_ok_Insert p sample Hok) Hrun) as [Hq Hf].
    split; [done|]. by rewrite <- Insert_refines, Hf.
  - destruct (Remove p) as [[[o s] p']|] eqn:Hrem; [|done].
    destruct (Remove_Some _ _ _ _ Hok Hrem) as (Hok' & Hu & -> & Ho & _).
    destruct (run p' ops) as [[q' obs']|] eqn:Hrun; [|done].
    intros [= <- <-].
    destruct (IH _ _ _ Hok' Hrun) as [Hq Hf].
    split; [done|]. unfold Fifo_pop; cbn [queued push_dropped].
    rewrite Hu. by rewrite <- Ho, Hf.
Qed.

Lemma run_app p ops1 ops2 q obs1 :
  run p ops1 = Some (q, obs1) ->
  run p (ops1 ++ ops2) =
    match run q ops2 with
    | Some (r, obs2) => Some (r, obs1 ++ obs2)
    | None => None
    end.
Proof.
  revert p q obs1.
  induction ops1 as [|[sample|] ops1 IH]; intros p q obs1; simpl.
  - intros [= <- <-]. by destruct (run p ops2) as [[??]|].
  - destruct (run (Insert p sample) ops1) as [[q' obs']|] eqn:Hrun; [|done].
    intros [= <- <-]. rewrite (IH _ _ _ Hrun).
    by destruct (run q' ops2) as [[??]|].
  - destruct (Remove p) as [[[o s] p']|]; [|done].
    destruct (run p' ops1) as [[q' obs']|] eqn:Hrun; [|done].
    intros [= <- <-]. rewrite (IH _ _ _ Hrun).
    by destruct (run q' ops2) as [[??]|].
Qed.

Lemma run_reachable ops : forall p q obs,
  reachable p -> run p ops = Some (q, obs) -> reachable q.
Proof.
  induction ops as [|[sample|] ops IH]; intros p q obs Hp; simpl.
  - by intros [= <- <-].
  - destruct (run (Insert p sample) ops) as [[q' obs']|] eqn:Hrun; [|done].
    intros [= <- <-]. eapply IH; [|done]. by constructor.
  - destruct (Remove p) as [[[o s] p']|] eqn:Hrem; [|done].
    destruct (run p' ops) as [[q' obs']|] eqn:Hrun; [|done].
    intros [= <- <-]. eapply IH; [|done]. by econstructor.
Qed.



(** C9.  In every state the profiler can reach at most 127 samples are
    unread, although the ring has 128 slots; [Insert] finds the
    successor of [head_] equal to [tail_] exactly when 127 are unread,
    and then it drops the sample and raises the overflow flag, leaving
    slots, indices and unread samples as they were. *)
Theorem at_most_127_unread (p : Profiler.t) (sample : TickSample) :
  reachable p ->
  (length (unread p) <= 127)%nat /\
  length (buffer_ p) = 128%nat /\
  (Succ (head_ p) = tail_ p <-> length (unread p) = 127%nat) /\
  (length (unread p) = 127%nat ->
     buffer_ (Insert p sample) = buffer_ p /\
     head_ (Insert p sample) = head_ p /\
     unread (Insert p sample) = unread p /\
     overflow_ (Insert p sample) = true).
Proof.
  intros Hp. pose proof (reachable_ring_ok p Hp) as Hok.
  rewrite unread_length. repeat split.
  - apply Hok.
  - apply Hok.
  - by apply full_iff.
  - by apply full_iff.
  - by rewrite Insert_full.
  - by rewrite Insert_full.
  - by rewrite Insert_full.
  - by rewrite Insert_full.
Qed.

Lemma at_most_127_unread_witness :
  reachable (fill new 127) /\
  length (unread (fill new 127)) = 127%nat /\
  unread (Insert (fill new 127) (numbered 128)) = unread (fill new 127) /\
  overflow_ (Insert (fill new 127) (numbered 128)) = true.
Proof.
  assert (H : reachable (fill new 127))
    by (apply reachable_fill, reachable_new).
  assert (L : length (unread (fill new 127)) = 127%nat)
    by (vm_compute; reflexivity).
  destruct (at_most_127_unread (fill new 127) (numbered 128) H)
    as (_ & _ & _ & Hdrop).
  destruct (Hdrop L) as (_ & _ & Hu & Ho).
  exact (conj H (conj L (conj Hu Ho))).
Defined.

End ProfilerClaims.

Section ConsumerFacts.
Import Profiler.

Lemma Run_step_ring w w' :
  ring_ok (profiler w) -> Run_step w = Some w' ->
  ring_ok (profiler w') /\ running_ (profiler w') = running_ (profiler w).
Proof.
  destruct w as [p c t]. unfold Run_step; cbn [profiler consumer ticks].
  intros Hok. destruct c as [|s o|s o|].
  - destruct (Remove p) as [[[o s] p']|] eqn:Hrem; [|done].
    intros [= <-]. cbn [profiler].
    by destruct (Remove_Some _ _ _ _ Hok Hrem) as (? & _ & _ & _ & ? & _).
  - destruct (running_ p =? 0); by intros [= <-].
  - by intros [= <-].
  - done.
Qed.

(** While [running_] is set, a statement of the consumer moves samples
    along the pipeline without reordering, losing or repeating any. *)
Lemma Run_step_fifo w w' :
  ring_ok (profiler w) -> running_ (profiler w) <> 0 ->
  Run_step w = Some w' ->
  map fst (ticks w') ++ in_hand (consumer w') ++ unread (profiler w') =
  map fst (ticks w) ++ in_hand (consumer w) ++ unread (profiler w).
Proof.
  destruct w as [p c t]. unfold Run_step; cbn [profiler consumer ticks].
  intros Hok Hrun. destruct c as [|s o|s o|].
  - destruct (Remove p) as [[[o s] p']|] eqn:Hrem; [|done].
    intros [= <-]. cbn [profiler consumer ticks in_hand].
    destruct (Remove_Some _ _ _ _ Hok Hrem) as (_ & -> & _). done.
  - destruct (Z.eqb_spec (running_ p) 0) as [E|E]; [done|].
    by intros [= <-].
  - intros [= <-]. cbn [profiler consumer ticks in_hand].
    rewrite map_app. cbn [map fst]. by rewrite <- !app_assoc.
  - done.
Qed.

Lemma exec_fifo sched : forall w acc,
  ring_ok (profiler w) -> running_ (profiler w) <> 0 ->
  map fst (ticks w) ++ in_hand (consumer w) ++ unread (profiler w) = acc ->
  map fst (ticks (exec w acc sched).1) ++
    in_hand (consumer (exec w acc sched).1) ++
    unread (profiler (exec w acc sched).1) = (exec w acc sched).2.
Proof.
  induction sched as [|[sample|] sched IH]; intros w acc Hok Hrun Hacc;
    cbn [exec].
  - exact Hacc.
  - apply IH; cbn [SampleStack profiler consumer ticks].
    + by apply ring_ok_Insert.
    + unfold Insert. by destruct (Succ (head_ (profiler w)) =? tail_ (profiler w)).
    + unfold Insert_stores.
      destruct (Z.eqb_spec (Succ (head_ (profiler w))) (tail_ (profiler w)))
        as [E|E]; cbn [negb].
      * apply (full_iff _ Hok) in E. by rewrite Insert_full.
      * assert (buffer_semaphore_ (profiler w) <> 127%nat) as E'
          by (intros E'; by apply (full_iff _ Hok) in E').
        rewrite Insert_room_unread by done.
        rewrite <- Hacc. by rewrite <- !app_assoc.
  - cbn [Run_steps]. destruct (Run_step w) as [w'|] eqn:Hstep.
    + destruct (Run_step_ring _ _ Hok Hstep) as [Hok' Hrun'].
      apply IH; [done|congruence|].
      by rewrite (Run_step_fifo _ _ Hok Hrun Hstep).
    + by apply IH.
Qed.

Lemma Run_steps_stopping k : forall w,
  ring_ok (profiler w) -> running_ (profiler w) = 0 ->
  ring_ok (profiler (Run_steps k w)) /\
  running_ (profiler (Run_steps k w)) = 0 /\
  ticks (Run_steps k w) ++ committed (consumer (Run_steps k w)) =
    ticks w ++ committed (consumer w).
Proof.
  induction k as [|k IH]; intros w Hok Hrun; cbn [Run_steps]; [done|].
  destruct (Run_step w) as [w'|] eqn:Hstep; [|done].
  destruct (Run_step_ring _ _ Hok Hstep) as [Hok' Hrun'].
  destruct (IH w' Hok' ltac:(congruence)) as (? & ? & ->).
  split; [done|]. split; [done|].
  destruct w as [p c t]. unfold Run_step in Hstep.
  cbn [profiler consumer ticks] in *. destruct c as [|s o|s o|].
  - destruct (Remove p) as [[[o s] p']|]; [|done].
    by injection Hstep as <-.
  - rewrite Hrun in Hstep. by injection Hstep as <-.
  - injection Hstep as <-. cbn [ticks consumer committed].
    by rewrite app_nil_r.
  - done.
Qed.

Lemma Join_Exited fuel w : consumer w = Exited -> Join fuel w = Some w.
Proof. intros E. destruct fuel; cbn [Join]; by rewrite E. Qed.

(** Once [running_] is clear and the semaphore cannot keep it waiting,
    the consumer leaves [Run] within three statements. *)
Lemma Join_stopping w fuel :
  running_ (profiler w) = 0 ->
  buffer_semaphore_ (profiler w) <> 0%nat ->
  (3 <= fuel)%nat ->
  exists w', Join fuel w = Some w' /\ consumer w' = Exited /\
             ticks w' = ticks w ++ committed (consumer w).
Proof.
  intros Hrun Hsem Hfuel.
  destruct fuel as [|[|[|fuel]]]; try lia.
  destruct w as [p c t]. cbn [profiler consumer ticks] in *.
  assert (HR : exists o s p', Remove p = Some (o, s, p') /\ running_ p' = 0).
  { unfold Remove. destruct (buffer_semaphore_ p) as [|n]; [done|].
    cbn [Wait]. by eexists _, _, _. }
  destruct HR as (o' & s' & p' & HR & Hrun').
  destruct c as [|s o|s o|].
  - cbn [Join Run_step profiler consumer ticks]. rewrite HR.
    cbn [Join Run_step profiler consumer ticks]. rewrite Hrun'.
    change (0 =? 0) with true. cbv iota. cbn [Join consumer].
    try rewrite Join_Exited by done. eexists. split; [done|].
    cbn [consumer ticks committed]. by rewrite app_nil_r.
  - cbn [Join Run_step profiler consumer ticks]. rewrite Hrun.
    change (0 =? 0) with true. cbv iota. cbn [Join consumer].
    try rewrite Join_Exited by done. eexists. split; [done|].
    cbn [consumer ticks committed]. by rewrite app_nil_r.
  - cbn [Join Run_step profiler consumer ticks]. rewrite HR.
    cbn [Join Run_step profiler consumer ticks]. rewrite Hrun'.
    change (0 =? 0) with true. cbv iota. cbn [Join consumer].
    try rewrite Join_Exited by done. eexists. split; [done|].
    by cbn [consumer ticks committed].
  - rewrite Join_Exited by done. eexists. split; [done|].
    cbn [consumer ticks committed]. by rewrite app_nil_r.
Qed.

End ConsumerFacts.

Section DisengageClaims.
Import Profiler.

Lemma Insert_signalled p sample :
  ring_ok p ->
  buffer_semaphore_ (Insert p sample) <> 0%nat /\
  running_ (Insert p sample) = running_ p.
Proof.
  intros Hok. destruct (decide (buffer_semaphore_ p = 127%nat)) as [E|E].
  - rewrite Insert_full by done. cbn [buffer_semaphore_ running_]. lia.
  - rewrite Insert_room by done. cbn [buffer_semaphore_ running_]. lia.
Qed.

Lemma reachable_full_world : reachable (profiler full_world).
Proof. apply reachable_fill. constructor. constructor. Qed.




End DisengageClaims.

(** ** The sampler and the consumer, access by access *)

Section StepFacts.
Import Profiler ProfilerSteps.

Lemma coherent_engaged : coherent engaged.
Proof.
  unfold coherent, engaged; cbn. repeat split; try lia; done.
Qed.

Lemma slots_cons b i n :
  slots b i (S n) = (b !!! Z.to_nat i) :: slots b (Succ i) n.
Proof. reflexivity. Qed.

Ltac unpack H :=
  unfold coherent, pending, occupied in H |- *;
  cbn [ProfilerSteps.profiler producer consumer ProfilerSteps.ticks stored
       buffer_ head_ tail_ overflow_ buffer_semaphore_ running_
       with_overflow with_buffer with_head with_tail with_semaphore
       waited unsignalled held] in H |- *.

Lemma begin_Insert_coherent st sample :
  coherent st -> coherent (begin_Insert st sample).
Proof.
  destruct st as [[b h t o n r] pr c tk sd]. unfold begin_Insert.
  cbn [producer ProfilerSteps.profiler head_ tail_].
  destruct pr; try done. intros H. unpack H.
  destruct H as (Hlen & Ht & Hocc & Hh & Hr & _ & Hfifo).
  destruct (Z.eqb_spec (Succ h) t) as [E|E]; unpack Hfifo.
  - exact (conj Hlen (conj Ht (conj Hocc (conj Hh (conj Hr (conj I Hfifo)))))).
  - rewrite Succ_in_range in E by lia.
    refine (conj Hlen (conj Ht (conj Hocc (conj Hh (conj Hr (conj _ Hfifo)))))).
    lia.
Qed.

Lemma producer_step_coherent st : coherent st -> coherent (producer_step st).
Proof.
  destruct st as [[b h t o n r] pr c tk sd]. unfold producer_step.
  cbn [producer ProfilerSteps.profiler head_ tail_ buffer_ buffer_semaphore_].
  intros H. destruct pr as [| |s|s|]; unpack H.
  - (* PIdle *) exact H.
  - (* PFull *) exact H.
  - (* PStore *)
    destruct H as (Hlen & Ht & Hocc & Hh & Hr & Hroom & Hfifo).
    rewrite length_insert.
    split; [done|]. split; [done|]. split; [done|]. split; [done|].
    split; [done|]. split.
    + split; [done|]. apply list_lookup_total_insert_eq. lia.
    + rewrite Hfifo. do 2 f_equal.
      destruct c; cbn [waited] in *; symmetry; apply slots_insert_outside;
        rewrite ?Succ_in_range by lia; lia.
  - (* PAdvance *)
    destruct H as (Hlen & Ht & Hocc & Hh & Hr & (Hroom & Hs) & Hfifo).
    assert (0 <= h < 128) as Hhr by lia.
    split; [done|]. split; [done|]. split; [lia|]. split.
    { rewrite Succ_in_range by lia. lia. }
    split; [done|]. split; [done|].
    rewrite Hfifo, <- !app_assoc. do 2 f_equal.
    destruct c; cbn [waited] in *.
    all: match goal with
         | |- slots ?b ?i ?k ++ [_] = slots ?b ?i ?k' =>
             replace k' with (S k) by lia;
             rewrite slots_snoc by (rewrite ?Succ_in_range by lia; lia)
         end.
    all: do 2 f_equal; rewrite <- Hs; do 2 f_equal;
      rewrite ?Succ_in_range by lia; lia.
  - (* PSignal *)
    destruct H as (Hlen & Ht & Hocc & Hh & Hr & _ & Hfifo).
    split; [done|]. split; [done|]. split; [lia|]. split; [rewrite Hh; f_equal; lia|].
    split; [done|]. split; [done|].
    rewrite Hfifo. do 2 f_equal.
    destruct c; cbn [waited]; f_equal; lia.
Qed.

Lemma consumer_step_coherent st : coherent st -> coherent (consumer_step st).
Proof.
  destruct st as [[b h t o n r] pr c tk sd]. unfold consumer_step.
  cbn [consumer ProfilerSteps.profiler head_ tail_ buffer_ buffer_semaphore_
       overflow_ running_].
  intros H. destruct c as [| |s|s res|s res|s ov|s ov|].
  - (* CWait *)
    destruct n as [|n]; cbn [Wait]; [done|]. unpack H.
    destruct H as (Hlen & Ht & Hocc & Hh & Hr & Hpr & Hfifo).
    split; [done|]. split; [done|]. split; [lia|].
    split; [rewrite Hh; f_equal; lia|]. split; [done|]. split.
    + destruct pr; cbn [unsignalled] in *; try done; try lia.
      destruct Hpr. split; [lia|done].
    + rewrite Hfifo. do 2 f_equal. f_equal. lia.
  - (* CCopy *)
    unpack H. destruct H as (Hlen & Ht & Hocc & Hh & Hr & Hpr & Hfifo).
    split; [done|]. split; [done|]. split; [done|]. split; [done|].
    split; [done|]. split; [done|].
    rewrite Hfifo. f_equal.
    replace (n + 1 + unsignalled pr)%nat with (S (n + 1 + unsignalled pr - 1))
      at 1 by lia.
    by rewrite slots_cons.
  - (* CFlag *) unpack H. exact H.
  - (* CTail *)
    unpack H. destruct H as (Hlen & Ht & Hocc & Hh & Hr & Hpr & Hfifo).
    pose proof (Succ_in_range t Ht) as HS.
    split; [done|]. split; [lia|]. split; [lia|]. split; [lia|].
    split; [done|]. split.
    + destruct pr; cbn [unsignalled] in *; try done; try lia.
      destruct Hpr. split; [lia|done].
    + rewrite Hfifo. do 2 f_equal. f_equal. lia.
  - (* CClear *) unpack H. exact H.
  - (* CTest *)
    unpack H. destruct H as (Hlen & Ht & Hocc & Hh & Hr & Hpr & Hfifo).
    destruct (Z.eqb_spec r 0) as [E|E]; [done|]. unpack Hfifo.
    exact (conj Hlen (conj Ht (conj Hocc (conj Hh (conj Hr (conj Hpr Hfifo)))))).
  - (* CTick *)
    unpack H. destruct H as (Hlen & Ht & Hocc & Hh & Hr & Hpr & Hfifo).
    split; [done|]. split; [done|]. split; [done|]. split; [done|].
    split; [done|]. split; [done|].
    rewrite Hfifo, map_app. cbn [map fst app]. by rewrite <- app_assoc.
  - (* CExited *) exact H.
Qed.

Lemma moves_coherent moves : forall st,
  coherent st -> coherent (fold_left move moves st).
Proof.
  induction moves as [|m moves IH]; intros st H; [done|].
  cbn [fold_left]. apply IH. destruct m; cbn [move].
  - by apply begin_Insert_coherent.
  - by apply producer_step_coherent.
  - by apply consumer_step_coherent.
Qed.

End StepFacts.

Section DeliveryFacts.
Import Profiler.

Lemma Run_steps_blocked k w : Run_step w = None -> Run_steps k w = w.
Proof. intros E. destruct k; cbn [Run_steps]; [done|by rewrite E]. Qed.

(** Left to itself at [Remove], the consumer logs every unread sample,
    oldest first, three statements a sample, and then waits. *)
Lemma Run_steps_drain_AtRemove n : forall p tk k,
  buffer_semaphore_ p = n -> running_ p <> 0 -> (3 * n <= k)%nat ->
  map fst (ticks (Run_steps k (mkWorld p AtRemove tk))) =
    map fst tk ++ unread p.
Proof.
  induction n as [|n IH]; intros p tk k Hn Hr Hk.
  - rewrite Run_steps_blocked.
    + unfold unread. rewrite Hn. cbn [slots ticks]. by rewrite app_nil_r.
    + unfold Run_step, Remove. cbn [consumer profiler]. by rewrite Hn.
  - destruct k as [|[|[|k]]]; try lia.
    cbn [Run_steps Run_step consumer profiler ticks].
    unfold Remove. rewrite Hn. cbn [Wait].
    cbn [Run_steps Run_step consumer profiler ticks running_].
    destruct (Z.eqb_spec (running_ p) 0) as [E|_]; [done|].
    cbn [Run_steps Run_step consumer profiler ticks].
    rewrite IH; [|done|done|lia].
    rewrite map_app. cbn [map fst]. rewrite <- app_assoc.
    unfold unread. rewrite Hn. by cbn [slots tail_ buffer_ buffer_semaphore_ app].
Qed.

(** The same wherever the consumer stands inside [Run]. *)
Lemma Run_steps_drain w k :
  running_ (profiler w) <> 0 -> consumer w <> Exited ->
  (3 * (length (in_hand (consumer w)) + length (unread (profiler w))) <= k)%nat ->
  map fst (ticks (Run_steps k w)) =
    map fst (ticks w) ++ in_hand (consumer w) ++ unread (profiler w).
Proof.
  destruct w as [p c tk]. cbn [profiler consumer ticks].
  rewrite unread_length. intros Hr Hc Hk.
  destruct c as [|s o|s o|]; cbn [in_hand length] in *.
  - by apply Run_steps_drain_AtRemove with (n := buffer_semaphore_ p); [| |lia].
  - destruct k as [|[|k]]; try lia.
    cbn [Run_steps Run_step consumer profiler ticks].
    destruct (Z.eqb_spec (running_ p) 0) as [E|_]; [done|].
    cbn [Run_steps Run_step consumer profiler ticks].
    rewrite Run_steps_drain_AtRemove with (n := buffer_semaphore_ p);
      [|done|done|lia].
    rewrite map_app. cbn [map fst]. by rewrite <- app_assoc.
  - destruct k as [|k]; try lia.
    cbn [Run_steps Run_step consumer profiler ticks].
    rewrite Run_steps_drain_AtRemove with (n := buffer_semaphore_ p);
      [|done|done|lia].
    rewrite map_app. cbn [map fst]. by rewrite <- app_assoc.
  - done.
Qed.

(** While [running_] is set the consumer stays inside [Run]. *)
Lemma exec_engaged sched : forall w acc,
  ring_ok (profiler w) -> running_ (profiler w) <> 0 -> consumer w <> Exited ->
  running_ (profiler (exec w acc sched).1) <> 0 /\
  consumer (exec w acc sched).1 <> Exited.
Proof.
  induction sched as [|[sample|] sched IH]; intros w acc Hok Hr Hc; cbn [exec].
  - done.
  - apply IH; cbn [SampleStack profiler consumer].
    + by apply ring_ok_Insert.
    + unfold Insert. by destruct (Succ (head_ (profiler w)) =? tail_ (profiler w)).
    + done.
  - cbn [Run_steps]. destruct (Run_step w) as [w'|] eqn:Hstep; [|by apply IH].
    destruct (Run_step_ring _ _ Hok Hstep) as [Hok' Hr'].
    apply IH; [done|congruence|].
    destruct w as [p c tk]. unfold Run_step in Hstep.
    cbn [profiler consumer ticks] in *. destruct c as [|s o|s o|].
    + destruct (Remove p) as [[[o s] p']|]; [|done]. by injection Hstep as <-.
    + destruct (Z.eqb_spec (running_ p) 0) as [E|_]; [done|].
      by injection Hstep as <-.
    + by injection Hstep as <-.
    + done.
Qed.

End DeliveryFacts.

Section StepDeliveryFacts.
Import Profiler ProfilerSteps.

Lemma consumer_moves_S k st :
  fold_left move (replicate (S k) MConsumer) st =
  fold_left move (replicate k MConsumer) (consumer_step st).
Proof. reflexivity. Qed.

Lemma consumer_moves_blocked k st :
  consumer_step st = st -> fold_left move (replicate k MConsumer) st = st.
Proof.
  intros E. induction k as [|k IH]; [done|].
  by rewrite consumer_moves_S, E.
Qed.

(** With the sampler outside [Insert] and the consumer at [Wait], the
    consumer left to itself logs every signalled sample, oldest first,
    seven accesses a sample, and then waits. *)
Lemma consumer_drain_CWait n : forall b h t o r tk sd k,
  r <> 0 -> (7 * n <= k)%nat ->
  let st' :=
    fold_left move (replicate k MConsumer)
      (mkState (Profiler.mk b h t o n r) PIdle CWait tk sd) in
  map fst (ProfilerSteps.ticks st') = map fst tk ++ slots b t n /\
  stored st' = sd.
Proof.
  induction n as [|n IH]; intros b h t o r tk sd k Hr Hk; cbv zeta.
  - rewrite consumer_moves_blocked by done.
    cbn [ProfilerSteps.ticks stored slots]. by rewrite app_nil_r.
  - do 7 (destruct k as [|k]; [lia|]).
    assert (Hr0 : (r =? 0) = false) by (by apply Z.eqb_neq).
    do 7 (rewrite consumer_moves_S;
          unfold consumer_step, with_semaphore, with_tail, with_overflow;
          cbn [ProfilerSteps.consumer ProfilerSteps.profiler producer
               ProfilerSteps.ticks stored buffer_ head_ tail_ overflow_
               buffer_semaphore_ running_ Wait with_semaphore with_tail
               with_overflow];
          rewrite ?Hr0).
    destruct (IH b h (Succ t) false r (tk ++ [(b !!! Z.to_nat t, o)]) sd k Hr
                ltac:(lia)) as [E1 E2].
    cbv zeta in E1, E2. rewrite E1, E2. split; [|done].
    rewrite map_app. cbn [map fst slots]. by rewrite <- app_assoc.
Qed.

Tactic Notation "consume" integer(j) "with" constr(Hr0) :=
  do j (rewrite consumer_moves_S;
        unfold consumer_step, with_semaphore, with_tail, with_overflow;
        cbn [ProfilerSteps.consumer ProfilerSteps.profiler producer
             ProfilerSteps.ticks stored buffer_ head_ tail_ overflow_
             buffer_semaphore_ running_ Wait];
        rewrite ?Hr0).

(** The same wherever the consumer stands: the sample it holds and the
    samples it has not copied yet are all logged, in that order. *)
Lemma consumer_drain st k :
  coherent st -> producer st = PIdle -> ProfilerSteps.consumer st <> CExited ->
  (7 * (length (held (ProfilerSteps.consumer st)) + length (pending st)) <= k)%nat ->
  map fst (ProfilerSteps.ticks (fold_left move (replicate k MConsumer) st)) =
    stored st /\
  stored (fold_left move (replicate k MConsumer) st) = stored st.
Proof.
  destruct st as [[b h t o n r] pr c tk sd].
  intros (_ & _ & _ & _ & Hr & _ & Hfifo) Hpr Hc.
  cbn [producer ProfilerSteps.consumer ProfilerSteps.profiler stored
       ProfilerSteps.ticks running_] in *.
  assert (Hr0 : (r =? 0) = false) by (by apply Z.eqb_neq).
  subst pr. intros Hk.
  set (st := mkState (Profiler.mk b h t o n r) PIdle c tk sd) in *.
  enough (map fst (ProfilerSteps.ticks
                     (fold_left move (replicate k MConsumer) st)) =
          map fst tk ++ held c ++ pending st /\
          stored (fold_left move (replicate k MConsumer) st) = sd)
    as [-> ->] by (by rewrite <- Hfifo).
  clear Hfifo. revert Hk. unfold st, pending, occupied. clear st.
  cbn [producer ProfilerSteps.consumer ProfilerSteps.profiler buffer_ tail_
       buffer_semaphore_ unsignalled].
  rewrite Nat.add_0_r.
  destruct c as [| |s|s res|s res|s ov|s ov|];
    cbn [held waited length app]; rewrite ?Nat.add_0_r, ?Nat.add_sub;
    rewrite slots_length; intros Hk.
  - by apply consumer_drain_CWait; [|lia].
  - do 6 (destruct k as [|k]; [lia|]). consume 6 with Hr0.
    destruct (consumer_drain_CWait n b h (Succ t) false r
                (tk ++ [(b !!! Z.to_nat t, o)]) sd k Hr ltac:(lia)) as [E1 E2].
    cbv zeta in E1, E2. rewrite E1, E2. split; [|done].
    rewrite map_app, Nat.add_1_r. cbn [map fst slots]. by rewrite <- app_assoc.
  - do 5 (destruct k as [|k]; [lia|]). consume 5 with Hr0.
    destruct (consumer_drain_CWait n b h (Succ t) false r
                (tk ++ [(s, o)]) sd k Hr ltac:(lia)) as [E1 E2].
    cbv zeta in E1, E2. rewrite E1, E2. split; [|done].
    rewrite map_app. cbn [map fst]. by rewrite <- app_assoc.
  - do 4 (destruct k as [|k]; [lia|]). consume 4 with Hr0.
    destruct (consumer_drain_CWait n b h (Succ t) false r
                (tk ++ [(s, res)]) sd k Hr ltac:(lia)) as [E1 E2].
    cbv zeta in E1, E2. rewrite E1, E2. split; [|done].
    rewrite map_app. cbn [map fst]. by rewrite <- app_assoc.
  - do 3 (destruct k as [|k]; [lia|]). consume 3 with Hr0.
    destruct (consumer_drain_CWait n b h t false r
                (tk ++ [(s, res)]) sd k Hr ltac:(lia)) as [E1 E2].
    cbv zeta in E1, E2. rewrite E1, E2. split; [|done].
    rewrite map_app. cbn [map fst]. by rewrite <- app_assoc.
  - do 2 (destruct k as [|k]; [lia|]). consume 2 with Hr0.
    destruct (consumer_drain_CWait n b h t o r
                (tk ++ [(s, ov)]) sd k Hr ltac:(lia)) as [E1 E2].
    cbv zeta in E1, E2. rewrite E1, E2. split; [|done].
    rewrite map_app. cbn [map fst]. by rewrite <- app_assoc.
  - do 1 (destruct k as [|k]; [lia|]). consume 1 with Hr0.
    destruct (consumer_drain_CWait n b h t o r
                (tk ++ [(s, ov)]) sd k Hr ltac:(lia)) as [E1 E2].
    cbv zeta in E1, E2. rewrite E1, E2. split; [|done].
    rewrite map_app. cbn [map fst]. by rewrite <- app_assoc.
  - done.
Qed.

(** Three accesses take the sampler out of any [Insert] it is in. *)
Lemma producer_finishes st :
  producer (fold_left move (replicate 3 MProducer) st) = PIdle /\
  ProfilerSteps.consumer (fold_left move (replicate 3 MProducer) st) =
    ProfilerSteps.consumer st.
Proof. destruct st as [p [| |s|s|] c tk sd]; by cbn. Qed.

(** While [running_] is set the consumer stays inside [Run]. *)
Lemma moves_engaged moves : forall st,
  coherent st -> ProfilerSteps.consumer st <> CExited ->
  ProfilerSteps.consumer (fold_left move moves st) <> CExited.
Proof.
  induction moves as [|m moves IH]; intros st H Hc; [done|].
  cbn [fold_left]. apply IH.
  - by apply (moves_coherent [m]).
  - destruct st as [[b h t o n r] pr c tk sd].
    destruct H as (_ & _ & _ & _ & Hr & _).
    cbn [ProfilerSteps.profiler running_ ProfilerSteps.consumer] in *.
    destruct m; cbn [move].
    + unfold begin_Insert. by destruct pr.
    + unfold producer_step. by destruct pr.
    + unfold consumer_step.
      cbn [ProfilerSteps.profiler ProfilerSteps.consumer running_
           buffer_semaphore_].
      destruct c; try done.
      * by destruct n.
      * by rewrite (proj2 (Z.eqb_neq _ 0)) by assumption.
Qed.

End StepDeliveryFacts.

Section CaptureOrder.
Import Profiler.

(** C5.  Run the sampler and the consumer thread of an engaged profiler
    under any schedule, first with [Insert] and [Remove] as single
    steps, then with the two threads interleaved at each access to the
    shared members.  In both, the samples that [Insert] stored, in the
    order of the calls, are exactly: the samples of the [TickEvent]s
    delivered so far, in delivery order; then the sample the consumer
    has taken out and not logged yet, if any; then the unread samples in
    ring order.  So what has been delivered is always a beginning of
    what was stored.  And the rest is delivered: once the sampler has
    left the [Insert] it is in (three accesses at most), the consumer
    left to run takes each remaining sample out of the ring and logs
    it, three statements of [Run], or seven accesses, a sample, until
    the [TickEvent]s made are those of all the stored samples in the
    order they were pushed; then it waits in [Remove]. *)
Theorem ticks_in_capture_order
    (sched : list Action) (moves : list ProfilerSteps.Move) :
  (let w := (exec (Engage new) [] sched).1 in
   let pushed := (exec (Engage new) [] sched).2 in
   map fst (ticks w) ++ in_hand (consumer w) ++ unread (profiler w) = pushed /\
   map fst (ticks w) `prefix_of` pushed /\
   forall k,
     (3 * (length (in_hand (consumer w)) + length (unread (profiler w))) <= k)%nat ->
     map fst (ticks (Run_steps k w)) = pushed) /\
  (let st := fold_left ProfilerSteps.move moves ProfilerSteps.engaged in
   ProfilerSteps.stored st =
     map fst (ProfilerSteps.ticks st) ++
     ProfilerSteps.held (ProfilerSteps.consumer st) ++
     ProfilerSteps.pending st /\
   map fst (ProfilerSteps.ticks st) `prefix_of` ProfilerSteps.stored st /\
   let st' :=
     fold_left ProfilerSteps.move
       (replicate 3 ProfilerSteps.MProducer) st in
   forall k,
     (7 * (length (ProfilerSteps.held (ProfilerSteps.consumer st')) +
           length (ProfilerSteps.pending st')) <= k)%nat ->
     map fst
       (ProfilerSteps.ticks
          (fold_left ProfilerSteps.move
             (replicate k ProfilerSteps.MConsumer) st')) =
     ProfilerSteps.stored st').
Proof.
  split.
  - intros w pushed.
    assert (Hok : ring_ok (profiler (Engage new)))
      by apply ring_ok_store_running, ring_ok_new.
    assert (E : map fst (ticks w) ++ in_hand (consumer w) ++
                unread (profiler w) = pushed)
      by (by apply exec_fifo).
    split; [exact E|]. split; [rewrite <- E; by apply prefix_app_r|].
    intros k Hk. rewrite <- E.
    destruct (exec_engaged sched (Engage new) [] Hok) as [Hr Hc]; [done..|].
    by apply Run_steps_drain.
  - intros st.
    pose proof (moves_coherent moves _ coherent_engaged) as Hst. fold st in Hst.
    pose proof Hst as (_ & _ & _ & _ & _ & _ & E).
    split; [exact E|]. split; [rewrite E; by apply prefix_app_r|].
    intros st' k Hk.
    pose proof (moves_coherent (replicate 3 ProfilerSteps.MProducer) _ Hst)
      as Hst'. fold st' in Hst'.
    destruct (producer_finishes st) as [Hpr Hc]. fold st' in Hpr, Hc.
    apply consumer_drain; [done|done| |done].
    rewrite Hc. by apply moves_engaged; [apply coherent_engaged|].
Qed.

(** Three samples pushed around one statement of the consumer, and two
    pushed access by access with the second [Insert] cut short before
    its store: the consumer delivers their ticks in the order pushed. *)
Lemma ticks_in_capture_order_witness :
  let sched :=
    [ASample (numbered 1); ASample (numbered 2); AConsume;
     ASample (numbered 3)] in
  let moves :=
    [ProfilerSteps.MBegin (numbered 1); ProfilerSteps.MProducer;
     ProfilerSteps.MProducer; ProfilerSteps.MProducer;
     ProfilerSteps.MConsumer; ProfilerSteps.MBegin (numbered 2);
     ProfilerSteps.MProducer] in
  map fst (ticks (Run_steps 9 (exec (Engage new) [] sched).1)) =
    [numbered 1; numbered 2; numbered 3] /\
  map fst
    (ProfilerSteps.ticks
       (fold_left ProfilerSteps.move
          (moves ++ replicate 3 ProfilerSteps.MProducer ++
           replicate 14 ProfilerSteps.MConsumer)
          ProfilerSteps.engaged)) = [numbered 1; numbered 2].
Proof.
  intros sched moves.
  destruct (ticks_in_capture_order sched moves) as [(_ & _ & H1) (_ & _ & H2)].
  split.
  - exact (H1 9%nat ltac:(vm_compute; lia)).
  - rewrite !fold_left_app. exact (H2 14%nat ltac:(vm_compute; lia)).
Defined.

End CaptureOrder.

(** ** The name buffer *)

Section NameBufferFacts.
Import NameBuffer.

Lemma write_Some buffer offset bytes :
  0 <= offset ->
  offset + Z.of_nat (length bytes) <= Z.of_nat (length buffer) ->
  exists buffer',
    write buffer offset bytes = Some buffer' /\
    length buffer' = length buffer /\
    take (Z.to_nat offset) buffer' = take (Z.to_nat offset) buffer /\
    take (Z.to_nat offset + length bytes) buffer' =
      take (Z.to_nat offset) buffer ++ bytes.
Proof.
  intros H0 H1. unfold write.
  rewrite (proj2 (Z.leb_le _ _) H0), (proj2 (Z.leb_le _ _) H1).
  eexists. split; [reflexivity|].
  assert (length (take (Z.to_nat offset) buffer) = Z.to_nat offset) as Hl
    by (rewrite length_take; lia).
  repeat split.
  - rewrite !length_app, Hl, length_drop. lia.
  - by rewrite take_app_length'.
  - rewrite app_assoc. rewrite take_app_length'; [done|].
    rewrite length_app. lia.
Qed.

Lemma AppendInt_unfold nb n : AppendInt nb n = AppendFormatted nb (format_d n).
Proof. reflexivity. Qed.

Lemma AppendHex_unfold nb n : AppendHex nb n = AppendFormatted nb (format_x n).
Proof. reflexivity. Qed.

(** [AppendBytes] appends the longest prefix that fits. *)
Lemma AppendBytes_spec nb bytes size :
  ok nb -> 0 <= size <= Z.of_nat (length bytes) ->
  exists nb',
    AppendBytes nb bytes size = Some nb' /\ ok nb' /\
    utf8_pos_ nb' = Z.min (utf8_pos_ nb + size) kUtf8BufferSize /\
    contents nb' =
      contents nb ++
      take (Z.to_nat (Z.min size (kUtf8BufferSize - utf8_pos_ nb))) bytes.
Proof.
  intros [Hpos Hlen] Hsize. unfold AppendBytes, MemCopy, kUtf8BufferSize in *.
  set (m := Z.min size (4096 - utf8_pos_ nb)).
  assert (0 <= m <= Z.of_nat (length bytes)) as Hm by lia.
  rewrite (proj2 (Z.leb_le 0 m)), (proj2 (Z.leb_le m _)) by lia.
  cbn [andb].
  assert (length (take (Z.to_nat m) bytes) = Z.to_nat m) as Hl
    by (rewrite length_take; lia).
  destruct (write_Some (utf8_buffer_ nb) (utf8_pos_ nb) (take (Z.to_nat m) bytes))
    as (b' & -> & Hlen' & _ & Htake); [lia|lia|].
  eexists. split; [reflexivity|].
  unfold ok, contents, kUtf8BufferSize; cbn [utf8_pos_ utf8_buffer_].
  rewrite Hlen'. repeat split; try lia.
  rewrite <- Htake, Hl. f_equal. lia.
Qed.

Lemma AppendByte_spec nb c :
  ok nb ->
  exists nb',
    AppendByte nb c = Some nb' /\ ok nb' /\
    utf8_pos_ nb' = Z.min (utf8_pos_ nb + 1) kUtf8BufferSize /\
    contents nb' =
      contents nb ++ (if utf8_pos_ nb <? kUtf8BufferSize then [c] else []).
Proof.
  intros [Hpos Hlen]. unfold AppendByte, kUtf8BufferSize in *.
  destruct (Z.geb_spec (utf8_pos_ nb) 4096) as [G|G].
  - exists nb. rewrite (proj2 (Z.ltb_ge _ _)) by lia.
    rewrite app_nil_r. unfold ok, kUtf8BufferSize. repeat split; lia.
  - rewrite (proj2 (Z.ltb_lt _ _)) by lia.
    destruct (write_Some (utf8_buffer_ nb) (utf8_pos_ nb) [c])
      as (b' & -> & Hlen' & _ & Htake); [lia|simpl; lia|].
    eexists. split; [reflexivity|].
    unfold ok, contents, kUtf8BufferSize; cbn [utf8_pos_ utf8_buffer_].
    rewrite Hlen'. repeat split; try lia.
    rewrite <- Htake. f_equal. simpl. lia.
Qed.

(** [AppendInt] and [AppendHex] append the whole text or nothing. *)
Lemma AppendFormatted_spec nb text :
  ok nb ->
  exists nb',
    AppendFormatted nb text = Some nb' /\ ok nb' /\
    (Z.of_nat (length text) < kUtf8BufferSize - utf8_pos_ nb ->
       utf8_pos_ nb' = utf8_pos_ nb + Z.of_nat (length text) /\
       contents nb' = contents nb ++ text) /\
    (kUtf8BufferSize - utf8_pos_ nb <= Z.of_nat (length text) ->
       utf8_pos_ nb' = utf8_pos_ nb /\ contents nb' = contents nb).
Proof.
  intros [Hpos Hlen]. unfold AppendFormatted, SNPrintF, kUtf8BufferSize in *.
  destruct (Z.leb_spec (4096 - utf8_pos_ nb) 0) as [G|G].
  { exists nb. split; [reflexivity|]. split; [done|].
    split; intros H; [lia|done]. }
  destruct (Z.ltb_spec (Z.of_nat (length text)) (4096 - utf8_pos_ nb)) as [F|F].
  - destruct (write_Some (utf8_buffer_ nb) (utf8_pos_ nb) (text ++ [x00]))
      as (b' & -> & Hlen' & Hpre & Htake);
      [lia|rewrite length_app; simpl; lia|].
    cbn [mbind option_bind].
    assert (take (Z.to_nat (utf8_pos_ nb) + length text) b' =
            take (Z.to_nat (utf8_pos_ nb)) (utf8_buffer_ nb) ++ text) as Htext.
    { apply (f_equal (take (Z.to_nat (utf8_pos_ nb) + length text))) in Htake.
      rewrite take_take in Htake.
      rewrite Nat.min_l in Htake by (rewrite length_app; lia).
      rewrite Htake. rewrite take_app_add' by (rewrite length_take; lia).
      by rewrite take_app_length. }
    destruct (Z.ltb_spec 0 (Z.of_nat (length text))) as [P|P].
    + rewrite (proj2 (Z.leb_le _ _)) by lia. cbn [andb].
      eexists. split; [reflexivity|].
      unfold ok, contents, kUtf8BufferSize; cbn [utf8_pos_ utf8_buffer_]. rewrite Hlen'.
      repeat split; try lia.
      rewrite <- Htext. f_equal. lia.
    + cbn [andb]. eexists. split; [reflexivity|].
      unfold ok, contents, kUtf8BufferSize; cbn [utf8_pos_ utf8_buffer_]. rewrite Hlen'.
      assert (text = []) as -> by (destruct text; simpl in *; [done|lia]).
      rewrite app_nil_r. repeat split; try lia; done.
  - set (stored := take (Z.to_nat (4096 - utf8_pos_ nb - 1)) text ++ [x00]).
    assert (Z.of_nat (length stored) = 4096 - utf8_pos_ nb) as Hst.
    { unfold stored. rewrite length_app, length_take. simpl. lia. }
    destruct (write_Some (utf8_buffer_ nb) (utf8_pos_ nb) stored)
      as (b' & -> & Hlen' & Hpre & _); [lia|lia|].
    cbn [mbind option_bind]. change (0 <? -1) with false. cbn [andb].
    eexists. split; [reflexivity|].
    unfold ok, contents, kUtf8BufferSize; cbn [utf8_pos_ utf8_buffer_]. rewrite Hlen'.
    repeat split; try lia; done.
Qed.

End NameBufferFacts.

Section NameBufferClaims.
Import NameBuffer.

Lemma ok_new storage : length storage = 4096%nat -> ok (new storage).
Proof.
  intros H. unfold ok, new, Reset, kUtf8BufferSize; cbn [utf8_pos_ utf8_buffer_].
  lia.
Qed.

Lemma ok_Reset nb : ok nb -> ok (Reset nb).
Proof. intros [H1 H2]. split; [done|exact H2]. Qed.

Lemma AppendBytes_ok nb bytes :
  ok nb ->
  exists nb', AppendBytes nb bytes (Z.of_nat (length bytes)) = Some nb' /\ ok nb'.
Proof.
  intros H. destruct (AppendBytes_spec nb bytes (Z.of_nat (length bytes)) H)
    as (nb' & E & Hok & _); [lia|]. by exists nb'.
Qed.

Lemma AppendBytes_cstr_ok nb bytes :
  ok nb -> exists nb', AppendBytes_cstr nb bytes = Some nb' /\ ok nb'.
Proof. apply AppendBytes_ok. Qed.

Lemma AppendByte_ok nb c :
  ok nb -> exists nb', AppendByte nb c = Some nb' /\ ok nb'.
Proof.
  intros H. destruct (AppendByte_spec nb c H) as (nb' & E & Hok & _).
  by exists nb'.
Qed.

Lemma AppendString_ok nb str :
  ok nb -> exists nb', AppendString nb str = Some nb' /\ ok nb'.
Proof.
  intros H. destruct str as [c_str|]; cbn [AppendString].
  - by apply AppendBytes_ok.
  - by exists nb.
Qed.

Lemma AppendInt_ok nb n :
  ok nb -> exists nb', AppendInt nb n = Some nb' /\ ok nb'.
Proof.
  intros H. rewrite AppendInt_unfold.
  destruct (AppendFormatted_spec nb (format_d n) H) as (nb' & E & Hok & _).
  by exists nb'.
Qed.

Lemma AppendHex_ok nb n :
  ok nb -> exists nb', AppendHex nb n = Some nb' /\ ok nb'.
Proof.
  intros H. rewrite AppendHex_unfold.
  destruct (AppendFormatted_spec nb (format_x n) H) as (nb' & E & Hok & _).
  by exists nb'.
Qed.

(** Runs the first call of a chain and keeps the invariant at hand. *)
Ltac run_call :=
  match goal with
  | H : ok ?nb |- context [AppendBytes_cstr ?nb ?b] =>
      destruct (AppendBytes_cstr_ok nb b H) as (? & -> & ?); clear H
  | H : ok ?nb |- context [AppendString ?nb ?s] =>
      destruct (AppendString_ok nb s H) as (? & -> & ?); clear H
  | H : ok ?nb |- context [AppendHex ?nb ?n] =>
      destruct (AppendHex_ok nb n H) as (? & -> & ?); clear H
  | H : ok ?nb |- context [AppendByte ?nb ?c] =>
      destruct (AppendByte_ok nb c H) as (? & -> & ?); clear H
  end; cbn [mbind option_bind].

Lemma AppendName_ok nb name :
  ok nb -> exists nb', AppendName nb name = Some nb' /\ ok nb'.
Proof.
  intros H. destruct name as [str|[text|] hash]; cbn [AppendName].
  - by apply AppendString_ok.
  - do 6 run_call. by apply AppendByte_ok.
  - do 3 run_call. by apply AppendByte_ok.
Qed.

Lemma Init_ok names nb tag :
  ok nb -> exists nb', Init names nb tag = Some nb' /\ ok nb'.
Proof.
  intros H%ok_Reset. unfold Init. run_call. by apply AppendByte_ok.
Qed.

Lemma step_ok names nb op :
  ok nb -> exists nb', step names nb op = Some nb' /\ ok nb'.
Proof.
  intros H. destruct op; cbn [step].
  - by apply Init_ok.
  - by apply AppendName_ok.
  - by apply AppendString_ok.
  - by apply AppendBytes_ok.
  - by apply AppendByte_ok.
  - by apply AppendInt_ok.
  - by apply AppendHex_ok.
Qed.

Lemma run_ok names ops : forall nb,
  ok nb -> exists nb', run names nb ops = Some nb' /\ ok nb'.
Proof.
  induction ops as [|op ops IH]; intros nb H; cbn [run].
  - by exists nb.
  - destruct (step_ok names nb op H) as (nb1 & -> & H1).
    cbn [mbind option_bind]. by apply IH.
Qed.

Lemma contents_length nb :
  ok nb -> Z.of_nat (length (contents nb)) = size nb.
Proof.
  intros [H1 H2]. unfold contents, size, kUtf8BufferSize in *.
  rewrite length_take. lia.
Qed.

(** C4.  Start from a fresh buffer, whatever its storage holds, and
    make any calls of [Init], [AppendName], [AppendString],
    [AppendBytes], [AppendByte], [AppendInt] and [AppendHex] with any
    arguments.  After any number [n] of the calls, no store has fallen
    outside the 4096 bytes of the array (the run has not faulted and
    the array still has its 4096 bytes) and [size()] is between 0 and
    4096.  Bytes that do not fit are cut off without a fault: a further
    [AppendBytes] leaves the first 4096 bytes of what the contents
    followed by the new bytes would be. *)
Theorem NameBuffer_never_overflows
    (kCodeTagNames : CodeTag -> list byte) (storage : list byte)
    (ops : list Op) (n : nat) (bytes : list byte) :
  length storage = 4096%nat ->
  exists nb,
    run kCodeTagNames (new storage) (take n ops) = Some nb /\
    0 <= size nb <= kUtf8BufferSize /\
    length (utf8_buffer_ nb) = 4096%nat /\
    Z.of_nat (length (contents nb)) = size nb /\
    exists nb',
      step kCodeTagNames nb (OpAppendBytes bytes) = Some nb' /\
      size nb' <= kUtf8BufferSize /\
      contents nb' = take 4096 (contents nb ++ bytes).
Proof.
  intros Hst.
  destruct (run_ok kCodeTagNames (take n ops) (new storage) (ok_new _ Hst))
    as (nb & Hrun & Hok).
  exists nb. split; [exact Hrun|].
  pose proof (contents_length nb Hok) as Hcl.
  pose proof Hok as [Hpos Hlen]. unfold kUtf8BufferSize in *.
  split; [exact Hpos|]. split; [lia|]. split; [exact Hcl|].
  cbn [step].
  destruct (AppendBytes_spec nb bytes (Z.of_nat (length bytes)) Hok)
    as (nb' & E & [Hpos' _] & _ & Hc); [lia|].
  exists nb'. split; [exact E|]. split; [apply Hpos'|].
  rewrite Hc. unfold size, kUtf8BufferSize in *.
  rewrite take_app_ge by lia. f_equal.
  destruct (Z.le_gt_cases (Z.of_nat (length bytes)) (4096 - utf8_pos_ nb)).
  - rewrite !take_ge by lia. done.
  - f_equal. lia.
Qed.

Lemma NameBuffer_never_overflows_witness :
  length zeroes = 4096%nat /\
  exists nb,
    run sample_names (new zeroes)
        (take 3 [OpInit kFunction;
                 OpAppendBytes (replicate 5000 "a"%byte);
                 OpAppendInt 42;
                 OpAppendByte ":"%byte]) = Some nb /\
    0 <= size nb <= kUtf8BufferSize.
Proof.
  split; [reflexivity|].
  destruct (NameBuffer_never_overflows sample_names zeroes
              [OpInit kFunction;
               OpAppendBytes (replicate 5000 "a"%byte);
               OpAppendInt 42;
               OpAppendByte ":"%byte] 3 [] eq_refl)
    as (nb & Hrun & Hsize & _).
  exists nb. split; [exact Hrun|exact Hsize].
Defined.

(** C10.  [AppendInt] and [AppendHex] append all of the text of their
    argument or none of it: when the text and its terminating NUL do
    not fit in the room left, in particular when the text alone is
    longer than the room, [size()] and the contents stay as they were,
    and otherwise the whole text is appended.  [AppendBytes] differs:
    given more bytes than there is room for, it appends the prefix that
    fits and fills the buffer. *)
Theorem AppendInt_AppendHex_all_or_nothing
    (nb : NameBuffer.t) (n : Z) (bytes : list byte) :
  ok nb ->
  (exists nb',
     AppendInt nb n = Some nb' /\
     (kUtf8BufferSize - size nb <= Z.of_nat (length (format_d n)) ->
        size nb' = size nb /\ contents nb' = contents nb) /\
     (Z.of_nat (length (format_d n)) < kUtf8BufferSize - size nb ->
        contents nb' = contents nb ++ format_d n)) /\
  (exists nb',
     AppendHex nb n = Some nb' /\
     (kUtf8BufferSize - size nb <= Z.of_nat (length (format_x n)) ->
        size nb' = size nb /\ contents nb' = contents nb) /\
     (Z.of_nat (length (format_x n)) < kUtf8BufferSize - size nb ->
        contents nb' = contents nb ++ format_x n)) /\
  (exists nb',
     AppendBytes nb bytes (Z.of_nat (length bytes)) = Some nb' /\
     (kUtf8BufferSize - size nb < Z.of_nat (length bytes) ->
        size nb' = kUtf8BufferSize /\
        contents nb' =
          contents nb ++ take (Z.to_nat (kUtf8BufferSize - size nb)) bytes)).
Proof.
  intros Hok. unfold size. split; [|split].
  - rewrite AppendInt_unfold.
    destruct (AppendFormatted_spec nb (format_d n) Hok)
      as (nb' & E & _ & Hfit & Hnofit).
    exists nb'. split; [exact E|]. split; [exact Hnofit|].
    intros H. by destruct (Hfit H).
  - rewrite AppendHex_unfold.
    destruct (AppendFormatted_spec nb (format_x n) Hok)
      as (nb' & E & _ & Hfit & Hnofit).
    exists nb'. split; [exact E|]. split; [exact Hnofit|].
    intros H. by destruct (Hfit H).
  - destruct (AppendBytes_spec nb bytes (Z.of_nat (length bytes)) Hok)
      as (nb' & E & _ & Hp & Hc); [lia|].
    exists nb'. split; [exact E|]. intros H.
    rewrite Hp, Hc. split; [lia|]. do 2 f_equal. lia.
Qed.

Lemma AppendInt_AppendHex_all_or_nothing_witness :
  ok nearly_full /\
  exists nb',
    AppendInt nearly_full 12345 = Some nb' /\
    size nb' = size nearly_full /\ contents nb' = contents nearly_full.
Proof.
  assert (H : ok nearly_full) by (split; [done | reflexivity]).
  split; [exact H|].
  destruct (AppendInt_AppendHex_all_or_nothing nearly_full 12345 [] H)
    as ((nb' & E & Hnofit & _) & _).
  exists nb'. split; [exact E|].
  apply Hnofit. vm_compute. discriminate.
Defined.

End NameBufferClaims.

(** ** The length of a decimal number *)

Section DecimalLength.

Lemma length_list_byte_of_string (s : string) :
  length (list_byte_of_string s) = String.length s.
Proof.
  unfold list_byte_of_string. rewrite length_map.
  induction s as [|c s IH]; cbn [list_ascii_of_string length String.length];
    [done|by rewrite IH].
Qed.

Lemma length_string_of_uint (d : Decimal.uint) :
  String.length (DecimalString.NilEmpty.string_of_uint d) = Decimal.nb_digits d.
Proof.
  induction d; cbn [DecimalString.NilEmpty.string_of_uint String.length
                    Decimal.nb_digits]; by rewrite ?IHd.
Qed.

(** Digits after a positive accumulator only make the number larger. *)
Lemma of_uint_acc_lower (d : Decimal.uint) : forall acc,
  Z.pos acc * 10 ^ Z.of_nat (Decimal.nb_digits d) <=
  Z.pos (Pos.of_uint_acc d acc).
Proof.
  induction d as [|d IH|d IH|d IH|d IH|d IH|d IH|d IH|d IH|d IH|d IH];
    intros acc; cbn [Pos.of_uint_acc Decimal.nb_digits].
  1: { cbn. lia. }
  all: rewrite Nat2Z.inj_succ, Z.pow_succ_r by lia.
  all: match goal with
       | |- context [Pos.of_uint_acc ?d' ?a] =>
           specialize (IH a);
           pose proof (Z.pow_pos_nonneg 10 (Z.of_nat (Decimal.nb_digits d'))
                         ltac:(lia) ltac:(lia))
       end.
  all: nia.
Qed.

(** A number written without a leading zero is at least the power of
    ten its digits call for. *)
Lemma of_uint_lower (d : Decimal.uint) :
  Decimal.unorm d = d -> d <> Decimal.zero ->
  10 ^ (Z.of_nat (Decimal.nb_digits d) - 1) <= Z.of_N (Pos.of_uint d).
Proof.
  intros Hn Hz.
  destruct d as [|d|d|d|d|d|d|d|d|d|d];
    cbn [Pos.of_uint Decimal.nb_digits]; try done.
  2-10: rewrite Nat2Z.inj_succ;
    match goal with
    | |- context [Pos.of_uint_acc ?d' ?a] =>
        replace (Z.succ (Z.of_nat (Decimal.nb_digits d')) - 1)
          with (Z.of_nat (Decimal.nb_digits d')) by lia;
        pose proof (of_uint_acc_lower d' a);
        pose proof (Z.pow_pos_nonneg 10 (Z.of_nat (Decimal.nb_digits d'))
                      ltac:(lia) ltac:(lia))
    end; nia.
  exfalso. unfold Decimal.unorm in Hn. cbn [Decimal.nzhead] in Hn.
  assert (Hh : forall u v, Decimal.nzhead u <> Decimal.D0 v).
  { intros u. induction u; intros v; cbn [Decimal.nzhead];
      first [discriminate | apply IHu]. }
  destruct (Decimal.nzhead d) eqn:E; try done.
  injection Hn as <-. exact (Hh _ _ E).
Qed.

Lemma pos_to_uint_digits (p : positive) (k : nat) :
  Z.pos p < 10 ^ Z.of_nat k -> (Decimal.nb_digits (Pos.to_uint p) <= k)%nat.
Proof.
  intros Hp.
  pose proof (DecimalPos.Unsigned.of_to p) as Hof.
  pose proof (DecimalPos.Unsigned.to_of (Pos.to_uint p)) as Hto.
  rewrite Hof in Hto. cbn [N.to_uint] in Hto.
  pose proof (of_uint_lower (Pos.to_uint p) (eq_sym Hto)
                (DecimalPos.Unsigned.to_uint_nonzero p)) as Hl.
  rewrite Hof in Hl. cbn [Z.of_N] in Hl.
  destruct (decide (Decimal.nb_digits (Pos.to_uint p) <= k)%nat) as [|Hgt];
    [done|exfalso].
  assert (10 ^ Z.of_nat k <= 10 ^ (Z.of_nat (Decimal.nb_digits (Pos.to_uint p)) - 1))
    by (apply Z.pow_le_mono_r; lia).
  lia.
Qed.

(** The text of ["%d"] for an [int] takes at most 11 characters. *)
Lemma format_d_length (n : Z) :
  - 2 ^ 31 <= n < 2 ^ 31 -> (length (NameBuffer.format_d n) <= 11)%nat.
Proof.
  intros Hn. unfold NameBuffer.format_d.
  rewrite length_list_byte_of_string.
  destruct n as [|p|p]; cbn [Z.to_int DecimalString.NilEmpty.string_of_int].
  - cbn. lia.
  - rewrite length_string_of_uint.
    pose proof (pos_to_uint_digits p 10 ltac:(lia)). lia.
  - cbn [String.length]. rewrite length_string_of_uint.
    pose proof (pos_to_uint_digits p 10 ltac:(lia)). lia.
Qed.

End DecimalLength.

(** ** The perf map logger *)

Section PerfBasicFacts.
Import LinuxPerfBasicLogger.

Lemma file_open_snoc calls call :
  file_open (calls ++ [call]) =
  match call with
  | FOpen _ _ => true
  | Fclose _ => false
  | _ => file_open calls
  end.
Proof. unfold file_open. by rewrite fold_left_app. Qed.

Lemma consistent_initial : consistent initial.
Proof.
  unfold consistent, initial; cbn. repeat split; try lia; try done.
Qed.

Lemma construct_spec s process_id fopen_result s' :
  consistent s -> reference_count_ s + 1 < 2 ^ 64 ->
  construct process_id fopen_result s = Some s' ->
  consistent s' /\
  reference_count_ s' = reference_count_ s + 1 /\
  (reference_count_ s = 0 ->
     exists path stream,
       os_calls s' = os_calls s ++ [FOpen path stream; Setvbuf stream] /\
       perf_output_handle_ s' = Some stream) /\
  (reference_count_ s <> 0 ->
     os_calls s' = os_calls s /\
     perf_output_handle_ s' = perf_output_handle_ s).
Proof.
  intros (Hr & Hh & Hf) Hmax. unfold construct.
  rewrite Z.mod_small by lia.
  destruct (Z.eqb_spec (reference_count_ s + 1) 1) as [E|E].
  - destruct (perf_output_handle_ s) as [f|] eqn:Eh; [done|].
    destruct (NameBuffer.SNPrintF bufferSize (perf_dump_text process_id))
      as [size name].
    destruct (size =? -1); [done|].
    destruct fopen_result as [stream|]; [|done].
    intros [= <-]. unfold consistent; cbn [reference_count_ perf_output_handle_ os_calls].
    split; [|split; [done|split]].
    + split; [lia|]. split.
      * split; [lia|by eexists].
      * change (os_calls s ++ [FOpen (take (Z.to_nat size) name) stream; Setvbuf stream])
          with (os_calls s ++ [FOpen (take (Z.to_nat size) name) stream] ++ [Setvbuf stream]).
        rewrite app_assoc, !file_open_snoc. split; [by eexists|done].
    + intros _. by eexists _, _.
    + intros; lia.
  - intros [= <-]. unfold consistent; cbn [reference_count_ perf_output_handle_ os_calls].
    split; [|split; [done|split]].
    + split; [lia|]. split; [|done].
      split; [lia|]. intros _. apply Hh. lia.
    + intros; lia.
    + done.
Qed.

Lemma destroy_spec s :
  consistent s -> 0 < reference_count_ s ->
  exists s',
    destroy s = Some s' /\
    consistent s' /\
    reference_count_ s' = reference_count_ s - 1 /\
    (reference_count_ s = 1 ->
       exists stream,
         perf_output_handle_ s = Some stream /\
         os_calls s' = os_calls s ++ [Fclose stream] /\
         perf_output_handle_ s' = None) /\
    (reference_count_ s <> 1 ->
       os_calls s' = os_calls s /\
       perf_output_handle_ s' = perf_output_handle_ s).
Proof.
  intros (Hr & Hh & Hf) Hpos. unfold destroy.
  rewrite Z.mod_small by lia.
  destruct (Z.eqb_spec (reference_count_ s - 1) 0) as [E|E].
  - destruct (proj2 Hh Hpos) as [stream Es]. rewrite Es.
    eexists. split; [reflexivity|].
    unfold consistent; cbn [reference_count_ perf_output_handle_ os_calls].
    rewrite file_open_snoc.
    split; [|split; [done|split]].
    + split; [lia|]. split.
      * split; [by intros [? [=]]|lia].
      * split; [done|by intros [? [=]]].
    + intros _. by exists stream.
    + intros; lia.
  - eexists. split; [reflexivity|].
    unfold consistent; cbn [reference_count_ perf_output_handle_ os_calls].
    split; [|split; [done|split]].
    + split; [lia|]. split; [|done].
      split; [lia|]. intros _. apply Hh. lia.
    + intros; lia.
    + done.
Qed.

Lemma WriteLogRecordedBuffer_open s address size name name_length :
  is_Some (perf_output_handle_ s) ->
  exists s' line,
    WriteLogRecordedBuffer s address size name name_length = Some s' /\
    map_lines s' = map_lines s ++ [line] /\
    reference_count_ s' = reference_count_ s /\
    perf_output_handle_ s' = perf_output_handle_ s.
Proof.
  intros [stream E]. unfold WriteLogRecordedBuffer. rewrite E.
  eexists _, _. split; [reflexivity|].
  unfold map_lines; cbn [os_calls reference_count_ perf_output_handle_].
  by rewrite omap_app.
Qed.

(** The name of the map of any process fits the buffer it is printed
    into. *)
Lemma perf_dump_name_fits process_id :
  - 2 ^ 31 <= process_id < 2 ^ 31 ->
  NameBuffer.SNPrintF bufferSize (perf_dump_text process_id) =
    (Z.of_nat (length (perf_dump_text process_id)),
     perf_dump_text process_id ++ [x00]).
Proof.
  intros Hp. pose proof (format_d_length process_id Hp) as Hd.
  assert (Z.of_nat (length (perf_dump_text process_id)) < bufferSize) as Hl.
  { unfold perf_dump_text, bufferSize, kFilenameBufferPadding.
    rewrite !length_app, !length_list_byte_of_string.
    cbn [String.length]. lia. }
  unfold NameBuffer.SNPrintF.
  change (bufferSize <=? 0) with false. cbv iota.
  by rewrite (proj2 (Z.ltb_lt _ _) Hl).
Qed.

(** The constructor completes unless [fopen] fails for the first
    logger. *)
Lemma construct_completes s process_id fopen_result :
  consistent s -> reference_count_ s + 1 < 2 ^ 64 ->
  - 2 ^ 31 <= process_id < 2 ^ 31 ->
  (reference_count_ s = 0 -> is_Some fopen_result) ->
  exists s',
    construct process_id fopen_result s = Some s' /\
    (reference_count_ s = 0 ->
       exists stream,
         fopen_result = Some stream /\
         os_calls s' =
           os_calls s ++
           [FOpen (perf_dump_text process_id) stream; Setvbuf stream]).
Proof.
  intros (Hr & Hh & Hf) Hmax Hp Hopen. unfold construct.
  rewrite Z.mod_small by lia.
  destruct (Z.eqb_spec (reference_count_ s + 1) 1) as [E|E].
  - destruct (perf_output_handle_ s) as [f|] eqn:Eh.
    { assert (0 < reference_count_ s) by (apply Hh; by eexists). lia. }
    rewrite perf_dump_name_fits by done.
    destruct (Z.eqb_spec (Z.of_nat (length (perf_dump_text process_id))) (-1))
      as [?|_]; [lia|].
    destruct (Hopen ltac:(lia)) as [stream ->].
    eexists. split; [reflexivity|]. intros _. exists stream.
    split; [done|]. cbn [os_calls].
    by rewrite Nat2Z.id, take_app_length.
  - eexists. split; [reflexivity|]. intros; lia.
Qed.

Lemma construct_aborts s process_id :
  consistent s -> reference_count_ s = 0 ->
  construct process_id None s = None.
Proof.
  intros (Hr & Hh & Hf) E. unfold construct. rewrite E.
  change ((0 + 1) mod 2 ^ 64 =? 1) with true. cbv iota.
  destruct (perf_output_handle_ s); [done|].
  destruct (NameBuffer.SNPrintF _ _) as [size name].
  by destruct (size =? -1).
Qed.

(** C7.  Take the statics in any state in which the count is a
    [uint64_t], the handle is set exactly when the count is positive and
    the file is open exactly when the handle is set; the initial state is
    one.  The construction of a logger completes whenever fewer than
    2^64 loggers are alive and, for the first of them, [fopen] succeeds:
    it adds one to the count, restores that state of affairs, and opens
    the file, under the name of the process, exactly when the count was
    0; when [fopen] fails for the first logger the process aborts.  The
    destruction of a live logger completes, takes one from the count,
    restores that state of affairs, and closes the file, resetting the
    handle, exactly when the count was 1.  In particular, from the
    initial state two loggers can be constructed, the first opening the
    file and the second leaving it alone; destroying one leaves the
    handle set and a line can still be written through it, and
    destroying the other closes the file. *)
Theorem perf_map_reference_counted (s : Statics) :
  consistent s ->
  consistent initial /\
  (forall process_id fopen_result,
     reference_count_ s + 1 < 2 ^ 64 ->
     - 2 ^ 31 <= process_id < 2 ^ 31 ->
     (reference_count_ s = 0 -> is_Some fopen_result) ->
     exists s',
       construct process_id fopen_result s = Some s' /\
       consistent s' /\
       reference_count_ s' = reference_count_ s + 1 /\
       (reference_count_ s = 0 ->
          exists stream,
            fopen_result = Some stream /\
            os_calls s' =
              os_calls s ++
              [FOpen (perf_dump_text process_id) stream; Setvbuf stream] /\
            perf_output_handle_ s' = Some stream) /\
       (reference_count_ s <> 0 ->
          os_calls s' = os_calls s /\
          perf_output_handle_ s' = perf_output_handle_ s)) /\
  (forall process_id,
     reference_count_ s = 0 -> construct process_id None s = None) /\
  (0 < reference_count_ s ->
     exists s',
       destroy s = Some s' /\
       consistent s' /\
       reference_count_ s' = reference_count_ s - 1 /\
       (reference_count_ s = 1 ->
          exists stream,
            perf_output_handle_ s = Some stream /\
            os_calls s' = os_calls s ++ [Fclose stream] /\
            perf_output_handle_ s' = None) /\
       (reference_count_ s <> 1 ->
          os_calls s' = os_calls s /\
          perf_output_handle_ s' = perf_output_handle_ s)) /\
  (forall pid1 pid2 stream fopen2,
     - 2 ^ 31 <= pid1 < 2 ^ 31 -> - 2 ^ 31 <= pid2 < 2 ^ 31 ->
     exists s1 s2 s3 s4,
       construct pid1 (Some stream) initial = Some s1 /\
       os_calls s1 = [FOpen (perf_dump_text pid1) stream; Setvbuf stream] /\
       construct pid2 fopen2 s1 = Some s2 /\
       os_calls s2 = os_calls s1 /\
       destroy s2 = Some s3 /\
       perf_output_handle_ s3 = Some stream /\
       os_calls s3 = os_calls s1 /\
       file_open (os_calls s3) = true /\
       (forall address size name name_length,
          exists s3' line,
            WriteLogRecordedBuffer s3 address size name name_length = Some s3' /\
            map_lines s3' = map_lines s3 ++ [line]) /\
       destroy s3 = Some s4 /\
       perf_output_handle_ s4 = None /\
       os_calls s4 = os_calls s1 ++ [Fclose stream] /\
       file_open (os_calls s4) = false).
Proof.
  intros Hs. split; [exact consistent_initial|]. split; [|split; [|split]].
  - intros pid fr Hmax Hp Hopen.
    destruct (construct_completes s pid fr Hs Hmax Hp Hopen) as (s' & E & Hfirst).
    destruct (construct_spec s pid fr s' Hs Hmax E) as (Hc & Hn & Hopened & Hkept).
    exists s'. split; [exact E|]. split; [exact Hc|]. split; [exact Hn|].
    split; [|exact Hkept].
    intros H0. destruct (Hfirst H0) as (stream & -> & Hcalls).
    exists stream. split; [done|]. split; [exact Hcalls|].
    destruct (Hopened H0) as (path & stream' & Hcalls' & Hh).
    rewrite Hcalls in Hcalls'. apply app_inv_head in Hcalls'.
    by injection Hcalls' as _ <-.
  - intros pid H0. by apply construct_aborts.
  - intros Hpos. by apply destroy_spec.
  - intros pid1 pid2 stream fr2 Hp1 Hp2.
    destruct (construct_completes initial pid1 (Some stream) consistent_initial
                ltac:(done) Hp1 ltac:(by eexists)) as (s1 & H1 & Hfirst).
    destruct (Hfirst eq_refl) as (stream' & [= <-] & Hcalls1).
    destruct (construct_spec _ _ _ _ consistent_initial ltac:(done) H1)
      as (Hc1 & Hn1 & Hopened & _).
    destruct (Hopened eq_refl) as (path & stream' & Hcalls1' & Hh1).
    rewrite Hcalls1 in Hcalls1'. apply app_inv_head in Hcalls1'.
    injection Hcalls1' as _ <-.
    cbn [reference_count_ initial] in Hn1.
    destruct (construct_completes s1 pid2 fr2 Hc1 ltac:(rewrite Hn1; done) Hp2
                ltac:(intros; lia)) as (s2 & H2 & _).
    destruct (construct_spec _ _ _ _ Hc1 ltac:(rewrite Hn1; done) H2)
      as (Hc2 & Hn2 & _ & Hkept2).
    destruct (Hkept2 ltac:(lia)) as [Hcalls2 Hh2].
    destruct (destroy_spec s2 Hc2 ltac:(lia))
      as (s3 & Hd3 & Hc3 & Hn3 & _ & Hkept3).
    destruct (Hkept3 ltac:(lia)) as [Hcalls3 Hh3].
    destruct (destroy_spec s3 Hc3 ltac:(lia))
      as (s4 & Hd4 & Hc4 & Hn4 & Hclose & _).
    destruct (Hclose ltac:(lia)) as (stream4 & Hh3' & Hcalls4 & Hnull).
    pose proof Hc3 as (_ & Hh3'' & Hf3).
    pose proof Hc4 as (_ & _ & Hf4).
    assert (perf_output_handle_ s3 = Some stream) as Hopen3 by congruence.
    rewrite Hopen3 in Hh3'. injection Hh3' as <-.
    exists s1, s2, s3, s4.
    split; [exact H1|]. split; [exact Hcalls1|]. split; [exact H2|].
    split; [exact Hcalls2|]. split; [exact Hd3|]. split; [exact Hopen3|].
    split; [congruence|]. split; [apply Hf3; by eexists|].
    split.
    { intros address size name len.
      destruct (WriteLogRecordedBuffer_open s3 address size name len
                  ltac:(by eexists)) as (s3' & line & E & Hl & _).
      by exists s3', line. }
    split; [exact Hd4|]. split; [exact Hnull|].
    split; [congruence|].
    destruct (file_open (os_calls s4)); [|done].
    destruct (proj1 Hf4 eq_refl) as [? E]. by rewrite Hnull in E.
Qed.

(** Process 7 builds two loggers and destroys them: the map is opened
    once, as stream 3, stays open after the first destruction and is
    closed by the second. *)
Lemma perf_map_reference_counted_witness :
  consistent initial /\
  exists s1 s2 s3 s4,
    construct 7 (Some 3%nat) initial = Some s1 /\
    os_calls s1 =
      [FOpen (list_byte_of_string "/tmp/perf-7.map") 3%nat; Setvbuf 3%nat] /\
    construct 7 None s1 = Some s2 /\
    destroy s2 = Some s3 /\
    perf_output_handle_ s3 = Some 3%nat /\
    destroy s3 = Some s4 /\
    perf_output_handle_ s4 = None /\
    os_calls s4 = os_calls s1 ++ [Fclose 3%nat].
Proof.
  split; [exact consistent_initial|].
  destruct (perf_map_reference_counted initial consistent_initial)
    as (_ & _ & _ & _ & H).
  destruct (H 7 7 3%nat None ltac:(lia) ltac:(lia))
    as (s1 & s2 & s3 & s4 & H1 & C1 & H2 & _ & H3 & O3 & _ & _ & _ & H4 & O4 &
        C4 & _).
  exists s1, s2, s3, s4.
  split; [exact H1|]. split; [exact C1|]. split; [exact H2|].
  split; [exact H3|]. split; [exact O3|]. split; [exact H4|].
  split; [exact O4|exact C4].
Defined.

(** C1, on the code.  With [FLAG_perf_basic_prof_only_functions] set and
    the map open, [LogRecordedBuffer] writes nothing for the code of a
    user function and writes a line for the code of a regular
    expression: the test lets through exactly the kinds for which
    [CodeKindIsBuiltinOrJSFunction] fails. *)
Theorem LogRecordedBuffer_only_functions_inverted :
  LogRecordedBuffer true one_logger function_code
    (list_byte_of_string "Function:foo") 12 = Some one_logger /\
  (exists s', LogRecordedBuffer true one_logger regexp_code
                (list_byte_of_string "RegExp:a+") 9 = Some s' /\
              map_lines s' =
                map_lines one_logger ++
                [list_byte_of_string "2000 20 RegExp:a+" ++ [x0a]]) /\
  (forall s code name length,
     is_Some (perf_output_handle_ s) ->
     exists s', LogRecordedBuffer true s code name length = Some s' /\
       (map_lines s' = map_lines s <->
        CodeKindIsBuiltinOrJSFunction (kind code) = true)).
Proof.
  split; [reflexivity|]. split.
  - eexists. split; reflexivity.
  - intros s code name len Hopen. unfold LogRecordedBuffer. cbn [andb].
    destruct (CodeKindIsBuiltinOrJSFunction (kind code)).
    + by exists s.
    + destruct (WriteLogRecordedBuffer_open s (InstructionStart code)
                  (InstructionSize code) name len Hopen)
        as (s' & line & E & Hl & _).
      exists s'. split; [exact E|]. rewrite Hl. split; [|done].
      intros H. apply (f_equal length) in H.
      rewrite length_app in H. simpl in H. lia.
Qed.

End PerfBasicFacts.

(** ** The text log *)

Section FileLoggerFacts.
Import V8FileLogger.

Variable tag_name : CodeTag -> string.
Variable event_name : Event -> string.
Variable CodeKindToMarker : CodeKind -> string.

Lemma NewMessageBuilder_disabled s :
  is_logging s = false -> NewMessageBuilder s = None.
Proof. intros H. unfold NewMessageBuilder. by rewrite H. Qed.

Lemma MSG_BUILDER_disabled s rest :
  is_logging s = false -> MSG_BUILDER s rest = s.
Proof. intros H. unfold MSG_BUILDER. by rewrite NewMessageBuilder_disabled. Qed.

Lemma MSG_BUILDER_enabled s rest :
  is_logging s = true -> MSG_BUILDER s rest = rest [].
Proof. intros H. unfold MSG_BUILDER, NewMessageBuilder. by rewrite H. Qed.

Lemma same_log_refl s : same_log s s.
Proof. by repeat split. Qed.

Lemma same_log_trans s1 s2 s3 :
  same_log s1 s2 -> same_log s2 s3 -> same_log s1 s3.
Proof.
  unfold same_log. intros (?&?&?&?&?&?&?) (?&?&?&?&?&?&?).
  repeat split; congruence.
Qed.

Lemma same_log_is_logging s s' :
  same_log s s' -> is_logging s' = is_logging s.
Proof. intros (E1 & E2 & _). unfold is_logging. by rewrite E1, E2. Qed.

Lemma EnsureLogScriptSource_disabled s script_ :
  is_logging s = false -> same_log s (EnsureLogScriptSource s script_).2.
Proof.
  intros H. unfold EnsureLogScriptSource.
  destruct (decide (id script_ ∈ logged_source_code_ s));
    [apply same_log_refl|].
  destruct (source script_); [|by repeat split].
  unfold NewMessageBuilder, is_logging in *.
  cbn [is_profiling is_logging_]. rewrite H. by repeat split.
Qed.

Lemma LogSourceCodeInformation_disabled s c shared :
  is_logging s = false -> same_log s (LogSourceCodeInformation s c shared).
Proof.
  intros H. unfold LogSourceCodeInformation.
  destruct (script shared) as [script_|]; [|apply same_log_refl].
  pose proof (EnsureLogScriptSource_disabled s script_ H) as Hs.
  rewrite MSG_BUILDER_disabled; [done|].
  by rewrite (same_log_is_logging _ _ Hs).
Qed.

Lemma MapCreate_disabled flags s map_ :
  is_logging s = false -> MapCreate flags s map_ = s.
Proof.
  intros H. unfold MapCreate. destruct (negb (FLAG_log_maps flags)); [done|].
  by apply MSG_BUILDER_disabled.
Qed.

Lemma MapDetails_disabled flags s map_ details :
  is_logging s = false -> MapDetails flags s map_ details = s.
Proof.
  intros H. unfold MapDetails. destruct (negb (FLAG_log_maps flags)); [done|].
  by apply MSG_BUILDER_disabled.
Qed.

Lemma LogAllMaps_disabled flags maps : forall s,
  is_logging s = false -> LogAllMaps flags s maps = s.
Proof.
  unfold LogAllMaps. induction maps as [|m maps IH]; intros s H; [done|].
  cbn [fold_left]. rewrite MapCreate_disabled, MapDetails_disabled by done.
  by apply IH.
Qed.

Lemma RuntimeCallTimerEvent_disabled s :
  is_logging s = false -> RuntimeCallTimerEvent s = s.
Proof.
  intros H. unfold RuntimeCallTimerEvent. destruct (current_counter s); [|done].
  by apply MSG_BUILDER_disabled.
Qed.

(** Closes the goals of operations that test flags and then ask for a
    builder. *)
Ltac guarded H :=
  cbn [negb orb andb];
  repeat match goal with
         | |- context [if ?b then _ else _] =>
             lazymatch b with
             | true => fail
             | false => fail
             | _ => destruct b; cbn [negb orb andb]
             end
         end;
  rewrite ?MSG_BUILDER_disabled by exact H;
  try apply same_log_refl.

(** With logging disabled every operation leaves the logger as it was,
    but for the scripts that [EnsureLogScriptSource] has noted. *)
Lemma perform_disabled flags s call :
  is_logging s = false ->
  same_log s (perform tag_name event_name CodeKindToMarker flags s call).
Proof.
  intros H. destruct call; cbn [perform].
  all: try (by apply LogSourceCodeInformation_disabled).
  all: try (by apply EnsureLogScriptSource_disabled).
  all: try (rewrite LogAllMaps_disabled by exact H; apply same_log_refl).
  all: try (rewrite RuntimeCallTimerEvent_disabled by exact H;
            apply same_log_refl).
  all: try (rewrite MapCreate_disabled by exact H; apply same_log_refl).
  all: try (rewrite MapDetails_disabled by exact H; apply same_log_refl).
  all: unfold ProfilerBeginEvent, StringEvent, UncheckedStringEvent,
         IntPtrTEvent, SharedLibraryEvent, SharedLibraryEnd, CurrentTimeEvent,
         TimerEvent, NewEvent, DeleteEvent, LogCodeDisassemble,
         CodeCreateEvent_name, CodeCreateEvent_script,
         CodeCreateEvent_function, CodeCreateEvent_wasm, FeedbackVectorEvent,
         CallbackEvent, GetterCallbackEvent, SetterCallbackEvent,
         CallbackEventInternal, RegExpCodeCreateEvent, CodeMoveEvent,
         SharedFunctionInfoMoveEvent, MoveEventInternal, CodeDisableOptEvent,
         CodeDeoptEvent, CodeDependencyChangeEvent, ProcessDeoptEvent,
         CodeNameEvent, FunctionEvent, FunctionEvent_chars,
         CompilationCacheEvent, ScriptEvent, ScriptDetails, TickEvent,
         ICEvent, MapEvent.
  all: rewrite ?H.
  all: try (guarded H; fail).
  - (* CodeNameEvent *)
    match goal with |- context [match ?n with Some _ => _ | None => _ end] =>
      destruct n end; guarded H.
  - (* TickEvent *)
    destruct (negb (FLAG_prof_cpp flags)); [apply same_log_refl|].
    destruct (runtime_stats_enabled_by_native s).
    + rewrite RuntimeCallTimerEvent_disabled by exact H.
      rewrite MSG_BUILDER_disabled by exact H. apply same_log_refl.
    + rewrite MSG_BUILDER_disabled by exact H. apply same_log_refl.
  - (* MapEvent *)
    destruct (negb (FLAG_log_maps flags)); [apply same_log_refl|].
    match goal with |- context [match ?to with Some _ => _ | None => _ end] =>
      destruct to as [[map_ details]|] end.
    + rewrite MapDetails_disabled by exact H.
      rewrite MSG_BUILDER_disabled by exact H. apply same_log_refl.
    + rewrite MSG_BUILDER_disabled by exact H. apply same_log_refl.
Qed.

Lemma perform_all_disabled flags calls : forall s,
  is_logging s = false ->
  same_log s (perform_all tag_name event_name CodeKindToMarker flags s calls).
Proof.
  unfold perform_all. induction calls as [|call calls IH]; intros s H;
    [apply same_log_refl|].
  cbn [fold_left].
  pose proof (perform_disabled flags s call H) as Hs.
  eapply same_log_trans; [exact Hs|]. apply IH.
  by rewrite (same_log_is_logging _ _ Hs).
Qed.

End FileLoggerFacts.

(** C8.  Every operation of [V8FileLogger] that writes to the text log
    asks for a message builder each time it is called.  When
    [is_logging()] is false at the call, because [is_logging_] is clear
    or because the CPU profiler is running, the request yields the null
    builder and the operation returns without writing: the log is what
    it was before the call, and before any sequence of such calls, and
    so is the rest of the logger except that [EnsureLogScriptSource] may
    have noted a script in [logged_source_code_].  The operations are
    total functions, so nothing is raised or handed to the caller.  When
    [is_logging()] is true the same call writes: the decision is taken
    at each call. *)
Theorem disabled_logging_is_a_no_op
    (tag_name : CodeTag -> string)
    (event_name : V8FileLogger.Event -> string)
    (CodeKindToMarker : CodeKind -> string)
    (flags : V8FileLogger.Flags) (s : V8FileLogger.t)
    (call : V8FileLogger.Call) (calls : list V8FileLogger.Call) :
  V8FileLogger.is_logging s = false ->
  V8FileLogger.NewMessageBuilder s = None /\
  V8FileLogger.log_
    (V8FileLogger.perform tag_name event_name CodeKindToMarker flags s call)
    = V8FileLogger.log_ s /\
  V8FileLogger.same_log s
    (V8FileLogger.perform_all tag_name event_name CodeKindToMarker flags s
       (call :: calls)) /\
  (forall s' name value,
     V8FileLogger.is_logging s' = true ->
     V8FileLogger.log_ (V8FileLogger.UncheckedStringEvent s' name value) =
       V8FileLogger.log_ s' ++
       [[V8FileLogger.Str name; V8FileLogger.kNext; V8FileLogger.Str value]]).
Proof.
  intros H. split; [by apply NewMessageBuilder_disabled|].
  split; [by apply perform_disabled|].
  split; [by apply perform_all_disabled|].
  intros s' name value H'. unfold V8FileLogger.UncheckedStringEvent.
  by rewrite MSG_BUILDER_enabled.
Qed.

Lemma disabled_logging_is_a_no_op_witness :
  V8FileLogger.is_logging V8FileLogger.profiling_logger = false /\
  V8FileLogger.log_
    (V8FileLogger.perform V8FileLogger.sample_tag_name
       V8FileLogger.sample_event_name V8FileLogger.sample_marker
       V8FileLogger.all_flags V8FileLogger.profiling_logger
       (V8FileLogger.CallUncheckedStringEvent "profiler" "end"))
    = V8FileLogger.log_ V8FileLogger.profiling_logger.
Proof.
  split; [reflexivity|].
  exact (proj1 (proj2 (disabled_logging_is_a_no_op
                         V8FileLogger.sample_tag_name
                         V8FileLogger.sample_event_name
                         V8FileLogger.sample_marker
                         V8FileLogger.all_flags V8FileLogger.profiling_logger
                         (V8FileLogger.CallUncheckedStringEvent "profiler" "end")
                         [] eq_refl))).
Defined.

(** ** The low-level log *)

Section LowLevelFacts.
Import LowLevelLogger.

Lemma to_N_byte_of_Z n : Z.of_N (Byte.to_N (byte_of_Z n)) = n mod 256.
Proof.
  unfold byte_of_Z.
  pose proof (Byte.to_of_N_option_map (Z.to_N (n mod 256))) as H.
  assert ((Z.to_N (n mod 256) <=? 255)%N = true) as E
    by (apply N.leb_le; lia).
  rewrite E in H.
  destruct (Byte.of_N (Z.to_N (n mod 256))) as [b|]; [|done].
  cbn in H. injection H as H. simpl. rewrite H. lia.
Qed.

Lemma little_endian_length width : forall n, length (little_endian width n) = width.
Proof. induction width as [|w IH]; intros n; simpl; [done|by rewrite IH]. Qed.

Lemma from_little_endian_inv width : forall n,
  from_little_endian (little_endian width n) = n mod 2 ^ (8 * Z.of_nat width).
Proof.
  induction width as [|w IH]; intros n.
  - simpl. by rewrite Z.mod_1_r.
  - cbn [little_endian from_little_endian].
    rewrite to_N_byte_of_Z, IH.
    replace (8 * Z.of_nat (S w)) with (8 + 8 * Z.of_nat w) by lia.
    rewrite Z.pow_add_r by lia.
    change (2 ^ 8) with 256.
    rewrite Z.rem_mul_r by lia. done.
Qed.

Lemma repr_length tg width n : length (repr tg width n) = width.
Proof.
  unfold repr. destruct (big_endian tg);
    by rewrite ?length_rev, little_endian_length.
Qed.

Lemma value_repr tg width n :
  0 <= n < 2 ^ (8 * Z.of_nat width) -> value tg (repr tg width n) = n.
Proof.
  intros H. unfold value, repr.
  destruct (big_endian tg); rewrite ?rev_involutive, from_little_endian_inv;
    by apply Z.mod_small.
Qed.

Lemma int32_repr tg n :
  0 <= n < 2 ^ 31 -> as_int32 (value tg (repr tg 4 n)) = n.
Proof.
  intros H. rewrite value_repr by (change (2 ^ (8 * Z.of_nat 4)) with (2 ^ 32); lia).
  unfold as_int32. by rewrite (proj2 (Z.ltb_lt _ _)) by lia.
Qed.

Lemma read_app n a b : length a = n -> read n (a ++ b) = Some (a, b).
Proof.
  intros <-. unfold read.
  rewrite (proj2 (Nat.leb_le _ _)) by (rewrite length_app; lia).
  by rewrite take_app_length, drop_app_length.
Qed.

Lemma read_c_string_arch a rest :
  read_c_string (arch a ++ [x00] ++ rest) = Some (arch a, rest).
Proof. by destruct a. Qed.

(** Every call appends to the file. *)
Lemma perform_appends tg file call :
  perform tg file call = file ++ perform tg [] call.
Proof.
  destruct call; cbn [perform];
    unfold LogRecordedBuffer, CodeMoveEvent, CodeMovingGCEvent, LogWriteStruct,
      LogWriteBytes; by rewrite ?app_nil_l, <- ?app_assoc.
Qed.

Lemma fold_perform tg calls : forall file,
  fold_left (perform tg) calls file =
  file ++ concat (map (perform tg []) calls).
Proof.
  induction calls as [|call calls IH]; intros file; cbn [fold_left map concat].
  - by rewrite app_nil_r.
  - by rewrite IH, (perform_appends tg file), app_assoc.
Qed.

Lemma perform_nonempty tg call : (1 <= length (perform tg [] call))%nat.
Proof.
  assert (exists tag rest, perform tg [] call = tag :: rest)
    as (tag & rest & ->).
  { destruct call; cbn [perform];
      unfold LogRecordedBuffer, CodeMoveEvent, CodeMovingGCEvent,
        LogWriteStruct, LogWriteBytes; rewrite app_nil_l;
      change (take (Z.to_nat 1) [?b]) with [b];
      rewrite <- ?app_assoc; cbn [app]; by eexists _, _. }
  cbn [length]. lia.
Qed.

(** A record that was written is read back, and reading goes on with
    what follows it. *)
Lemma parse_record tg call fuel rest records :
  pointer_ok tg -> call_ok tg call ->
  parse_records tg fuel rest = Some records ->
  parse_records tg (S fuel) (perform tg [] call ++ rest) =
    Some (record_of call :: records).
Proof.
  intros Hptr Hok Hrest.
  destruct call as [storage code name len|from to|]; cbn [perform record_of].
  - destruct Hok as (Hst & Hlen & Hlen' & Haddr & Hsize & Hins).
    unfold LogRecordedBuffer, LogWriteStruct, LogWriteBytes, CodeCreateStruct.
    rewrite app_nil_l, Nat2Z.id, firstn_all.
    change (take (Z.to_nat 1) ["C"%byte]) with ["C"%byte].
    rewrite <- !app_assoc. cbn [app parse_records Byte.eqb].
    change (Byte.eqb "C" "C") with true. cbv iota.
    rewrite read_app by apply repr_length. cbn [mbind option_bind].
    rewrite read_app by (rewrite length_take, length_drop; destruct Hptr; lia).
    cbn [mbind option_bind].
    rewrite read_app by apply repr_length. cbn [mbind option_bind].
    rewrite read_app by apply repr_length. cbn [mbind option_bind].
    rewrite read_app by (rewrite length_take, length_drop; destruct Hptr; lia).
    cbn [mbind option_bind].
    rewrite !int32_repr by lia.
    rewrite (proj2 (Z.ltb_ge len 0)), (proj2 (Z.ltb_ge (InstructionSize code) 0))
      by lia.
    cbn [orb].
    rewrite read_app by (rewrite length_take; lia). cbn [mbind option_bind].
    rewrite read_app by (rewrite length_take; lia). cbn [mbind option_bind].
    rewrite Hrest. cbn [mbind option_bind].
    by rewrite value_repr by apply Haddr.
  - destruct Hok as (Hfrom & Hto).
    unfold CodeMoveEvent, LogWriteStruct, LogWriteBytes, CodeMoveStruct.
    rewrite app_nil_l, Nat2Z.id, firstn_all.
    change (take (Z.to_nat 1) ["M"%byte]) with ["M"%byte].
    rewrite <- !app_assoc. cbn [app parse_records].
    change (Byte.eqb "M" "C") with false. change (Byte.eqb "M" "M") with true.
    cbv iota.
    rewrite read_app by apply repr_length. cbn [mbind option_bind].
    rewrite read_app by apply repr_length. cbn [mbind option_bind].
    rewrite Hrest. cbn [mbind option_bind].
    by rewrite !value_repr by assumption.
  - unfold CodeMovingGCEvent, LogWriteBytes.
    rewrite app_nil_l.
    change (take (Z.to_nat 1) ["G"%byte]) with ["G"%byte].
    cbn [app parse_records].
    change (Byte.eqb "G" "C") with false. change (Byte.eqb "G" "M") with false.
    change (Byte.eqb "G" "G") with true. cbv iota.
    by rewrite Hrest.
Qed.

Lemma parse_records_written tg calls : forall fuel,
  pointer_ok tg -> Forall (call_ok tg) calls ->
  (length calls <= fuel)%nat ->
  parse_records tg fuel (concat (map (perform tg []) calls)) =
    Some (map record_of calls).
Proof.
  induction calls as [|call calls IH]; intros fuel Hptr Hok Hfuel.
  - by destruct fuel.
  - cbn [map concat]. inversion Hok as [|? ? Hc Hcs]; subst.
    destruct fuel as [|fuel]; [cbn in Hfuel; lia|].
    apply parse_record; [done..|].
    apply IH; [done..|]. cbn in Hfuel. lia.
Qed.

Lemma concat_perform_length tg calls :
  (length calls <= length (concat (map (perform tg []) calls)))%nat.
Proof.
  induction calls as [|call calls IH]; [done|].
  cbn [map concat length]. rewrite length_app.
  pose proof (perform_nonempty tg call). lia.
Qed.

(** Writing any admissible calls and reading the file back gives the
    architecture name and the records of the calls. *)
Lemma written_then_parse tg calls :
  pointer_ok tg -> Forall (call_ok tg) calls ->
  parse tg (written tg calls) =
    Some (arch (target_arch tg), map record_of calls).
Proof.
  intros Hptr Hok. unfold written, new, LogCodeInfo, LogWriteBytes, parse.
  rewrite fold_perform, app_nil_l, Nat2Z.id, firstn_all, <- app_assoc.
  rewrite read_c_string_arch. cbn [mbind option_bind].
  rewrite parse_records_written by (done || apply concat_perform_length).
  done.
Qed.

(** C6.  On a target with pointers of 4 or 8 bytes and either byte
    order, whatever the memory of the local struct held and whatever the
    64 instruction bytes are, the file written for {code-create at
    0x1000, size 64, name "foo"; code-move 0x1000 to 0x2000} is the
    architecture name with its NUL, the tag 'C', the bytes of the
    struct {name length 3, code address 0x1000, code size 64}, the name,
    the instruction bytes, the tag 'M' and the bytes of the struct
    {0x1000, 0x2000}; and reading that file back yields the architecture
    name and the two records with the same name, addresses and size. *)
Theorem low_level_log_round_trip
    (tg : Target) (storage bytes : list byte) :
  pointer_ok tg ->
  length storage = (3 * kSystemPointerSize tg)%nat ->
  length bytes = 64%nat ->
  written tg (scenario storage bytes) =
    arch (target_arch tg) ++ [x00] ++
    ["C"%byte] ++ CodeCreateStruct tg storage 3 4096 64 ++
    list_byte_of_string "foo" ++ bytes ++
    ["M"%byte] ++ CodeMoveStruct tg 4096 8192 /\
  parse tg (written tg (scenario storage bytes)) =
    Some (arch (target_arch tg),
          [CodeCreate (list_byte_of_string "foo") 4096 64;
           CodeMove 4096 8192]).
Proof.
  intros Hptr Hst Hbytes. split.
  - unfold written, new, LogCodeInfo, scenario. cbn [fold_left perform].
    unfold LogRecordedBuffer, CodeMoveEvent, LogWriteStruct, LogWriteBytes.
    rewrite !Nat2Z.id, !firstn_all. cbn [code_at InstructionStart InstructionSize instructions].
    change (take (Z.to_nat 1) ["C"%byte]) with ["C"%byte].
    change (take (Z.to_nat 1) ["M"%byte]) with ["M"%byte].
    change (take (Z.to_nat 3) (list_byte_of_string "foo"))
      with (list_byte_of_string "foo").
    rewrite (take_ge bytes) by (rewrite Hbytes; done).
    by rewrite app_nil_l, <- !app_assoc.
  - rewrite written_then_parse; [done|done|].
    assert (address_ok tg 4096 /\ address_ok tg 8192) as [H1 H2].
    { unfold address_ok. destruct Hptr as [-> | ->]; split; done. }
    unfold scenario. constructor; [|constructor; [|constructor]].
    + cbn [call_ok code_at InstructionStart InstructionSize instructions].
      refine (conj _ (conj _ (conj _ (conj H1 (conj _ _))))); cbn; lia.
    + cbn [call_ok code_at InstructionStart]. exact (conj H1 H2).
Qed.

Lemma low_level_log_round_trip_witness :
  pointer_ok x64_target /\
  parse x64_target
    (written x64_target (scenario (replicate 24 xff) (replicate 64 x90))) =
    Some (list_byte_of_string "x64",
          [CodeCreate (list_byte_of_string "foo") 4096 64;
           CodeMove 4096 8192]).
Proof.
  assert (H : pointer_ok x64_target) by (right; reflexivity).
  split; [exact H|].
  exact (proj2 (low_level_log_round_trip x64_target (replicate 24 xff)
                  (replicate 64 x90) H eq_refl eq_refl)).
Defined.

End LowLevelFacts.

(** ** The embedding at work on concrete inputs *)

Section Examples.

Example Succ_wraps : Profiler.Succ 127 = 0 /\ Profiler.Succ 5 = 6.
Proof. split; reflexivity. Qed.

Example ring_of_three :
  Profiler.run Profiler.new
    [Profiler.OpInsert (Profiler.numbered 1);
     Profiler.OpInsert (Profiler.numbered 2);
     Profiler.OpRemove;
     Profiler.OpInsert (Profiler.numbered 3);
     Profiler.OpRemove; Profiler.OpRemove]
  = Some (Profiler.mk
            (<[2%nat := Profiler.numbered 3]>
               (<[1%nat := Profiler.numbered 2]>
                  (<[0%nat := Profiler.numbered 1]>
                     (Profiler.buffer_ Profiler.new))))
            3 3 false 0 0,
          [Profiler.Inserted; Profiler.Inserted;
           Profiler.Removed false (Profiler.numbered 1);
           Profiler.Inserted;
           Profiler.Removed false (Profiler.numbered 2);
           Profiler.Removed false (Profiler.numbered 3)]).
Proof. vm_compute. reflexivity. Qed.

Example overflow_is_reported_once :
  option_map snd
    (Profiler.run (Profiler.fill Profiler.new 127)
       [Profiler.OpInsert (Profiler.numbered 128);
        Profiler.OpRemove; Profiler.OpRemove])
  = Some [Profiler.Inserted;
          Profiler.Removed true (Profiler.numbered 1);
          Profiler.Removed false (Profiler.numbered 2)].
Proof. vm_compute. reflexivity. Qed.

Example blocked_consumer_is_woken_by_Disengage :
  Profiler.Run_step (Profiler.Engage Profiler.new) = None /\
  option_map Profiler.consumer
    (Profiler.Disengage 0 3 (Profiler.Engage Profiler.new))
  = Some Profiler.Exited.
Proof. split; vm_compute; reflexivity. Qed.

Example overlapping_Insert_and_Remove :
  let st :=
    fold_left ProfilerSteps.move
      [ProfilerSteps.MBegin (Profiler.numbered 1);
       ProfilerSteps.MProducer; ProfilerSteps.MProducer;
       ProfilerSteps.MProducer;
       ProfilerSteps.MConsumer; ProfilerSteps.MConsumer;
       ProfilerSteps.MBegin (Profiler.numbered 2);
       ProfilerSteps.MProducer;
       ProfilerSteps.MConsumer; ProfilerSteps.MConsumer;
       ProfilerSteps.MProducer;
       ProfilerSteps.MConsumer; ProfilerSteps.MConsumer;
       ProfilerSteps.MConsumer; ProfilerSteps.MProducer]
      ProfilerSteps.engaged in
  ProfilerSteps.ticks st = [(Profiler.numbered 1, false)] /\
  ProfilerSteps.stored st = [Profiler.numbered 1; Profiler.numbered 2] /\
  ProfilerSteps.pending st = [Profiler.numbered 2].
Proof. vm_compute. repeat split. Qed.

Example name_of_a_function :
  option_map NameBuffer.contents
    (NameBuffer.run NameBuffer.sample_names (NameBuffer.new NameBuffer.zeroes)
       [NameBuffer.OpInit kFunction;
        NameBuffer.OpAppendBytes (list_byte_of_string "foo");
        NameBuffer.OpAppendByte ":"%byte;
        NameBuffer.OpAppendInt 12;
        NameBuffer.OpAppendByte ":"%byte;
        NameBuffer.OpAppendInt (-3)])
  = Some (list_byte_of_string "Function:foo:12:-3").
Proof. vm_compute. reflexivity. Qed.

Example name_of_a_symbol :
  option_map NameBuffer.contents
    (NameBuffer.AppendName (NameBuffer.new NameBuffer.zeroes)
       (NameBuffer.IsSymbol (Some (list_byte_of_string "tag")) 48879))
  = Some (list_byte_of_string "symbol(" ++ [x22] ++
          list_byte_of_string "tag" ++ [x22] ++
          list_byte_of_string " hash beef)").
Proof. vm_compute. reflexivity. Qed.

Example AppendInt_needs_room_for_the_NUL :
  option_map NameBuffer.size
    (NameBuffer.AppendInt NameBuffer.nearly_full 42) = Some 4094 /\
  option_map NameBuffer.size
    (NameBuffer.AppendInt NameBuffer.nearly_full 7) = Some 4095 /\
  option_map NameBuffer.size
    (NameBuffer.AppendBytes NameBuffer.nearly_full
       (list_byte_of_string "12345") 5) = Some 4096.
Proof. repeat split; vm_compute; reflexivity. Qed.

Example x64_create_record :
  LowLevelLogger.CodeCreateStruct LowLevelLogger.x64_target
    (replicate 24 xff) 3 4096 64
  = [x03; x00; x00; x00; xff; xff; xff; xff;
     x00; x10; x00; x00; x00; x00; x00; x00;
     x40; x00; x00; x00; xff; xff; xff; xff].
Proof. vm_compute. reflexivity. Qed.

Example tick_line :
  V8FileLogger.log_
    (V8FileLogger.TickEvent (fun _ => "tick"%string) V8FileLogger.all_flags
       (V8FileLogger.mk true false true 17 ∅ false None [])
       (mkTickSample 4096 false 0 8192 5 2%nat [1; 2; 3]) true)
  = [[V8FileLogger.Str "tick"; V8FileLogger.kNext; V8FileLogger.Ptr 4096;
      V8FileLogger.kNext; V8FileLogger.Num 17;
      V8FileLogger.kNext; V8FileLogger.Num 0; V8FileLogger.kNext;
      V8FileLogger.Ptr 8192;
      V8FileLogger.kNext; V8FileLogger.Num 5;
      V8FileLogger.kNext; V8FileLogger.Str "overflow";
      V8FileLogger.kNext; V8FileLogger.Ptr 1;
      V8FileLogger.kNext; V8FileLogger.Ptr 2]].
Proof. vm_compute. reflexivity. Qed.

End Examples.

(** ** The names that the loggers build *)

Section NameTextFacts.
Import NameBuffer.

Lemma contents_length_nat nb :
  ok nb -> length (contents nb) = Z.to_nat (utf8_pos_ nb).
Proof.
  intros [H1 H2]. unfold contents, kUtf8BufferSize in *.
  rewrite length_take. lia.
Qed.

Lemma AppendBytes_text nb bytes :
  ok nb ->
  exists nb',
    AppendBytes nb bytes (Z.of_nat (length bytes)) = Some nb' /\ ok nb' /\
    contents nb' = NameText.append_bytes (contents nb) bytes.
Proof.
  intros Hok.
  destruct (AppendBytes_spec nb bytes (Z.of_nat (length bytes)) Hok)
    as (nb' & E & Hok' & _ & Hc); [lia|].
  exists nb'. split; [exact E|]. split; [exact Hok'|].
  rewrite Hc. unfold NameText.append_bytes.
  pose proof (contents_length_nat nb Hok) as Hl.
  destruct Hok as [Hpos _]. unfold kUtf8BufferSize in *.
  rewrite take_app_ge by lia. f_equal.
  destruct (Z.le_gt_cases (Z.of_nat (length bytes)) (4096 - utf8_pos_ nb)).
  - rewrite !take_ge by lia. done.
  - f_equal. lia.
Qed.

Lemma AppendBytes_cstr_text nb bytes :
  ok nb ->
  exists nb',
    AppendBytes_cstr nb bytes = Some nb' /\ ok nb' /\
    contents nb' = NameText.append_bytes (contents nb) bytes.
Proof. apply AppendBytes_text. Qed.

Lemma AppendByte_text nb c :
  ok nb ->
  exists nb',
    AppendByte nb c = Some nb' /\ ok nb' /\
    contents nb' = NameText.append_byte (contents nb) c.
Proof.
  intros Hok.
  destruct (AppendByte_spec nb c Hok) as (nb' & E & Hok' & _ & Hc).
  exists nb'. split; [exact E|]. split; [exact Hok'|].
  rewrite Hc. unfold NameText.append_byte, NameText.append_bytes.
  pose proof (contents_length_nat nb Hok) as Hl.
  destruct Hok as [Hpos _]. unfold kUtf8BufferSize in *.
  rewrite take_app_ge by lia.
  destruct (Z.ltb_spec (utf8_pos_ nb) 4096).
  - f_equal. rewrite take_ge; [done|]. simpl. lia.
  - f_equal. replace (Z.to_nat 4096 - length (contents nb))%nat with 0%nat by lia.
    done.
Qed.

Lemma AppendFormatted_text nb digits :
  ok nb ->
  exists nb',
    AppendFormatted nb digits = Some nb' /\ ok nb' /\
    contents nb' = NameText.append_formatted (contents nb) digits.
Proof.
  intros Hok.
  destruct (AppendFormatted_spec nb digits Hok)
    as (nb' & E & Hok' & Hfit & Hnofit).
  exists nb'. split; [exact E|]. split; [exact Hok'|].
  unfold NameText.append_formatted.
  pose proof (contents_length_nat nb Hok) as Hl.
  destruct Hok as [Hpos _]. unfold kUtf8BufferSize in *.
  destruct (Z.ltb_spec (Z.of_nat (length (contents nb) + length digits)) 4096).
  - apply Hfit. lia.
  - apply Hnofit. lia.
Qed.

Lemma AppendString_text nb str :
  ok nb ->
  exists nb',
    AppendString nb str = Some nb' /\ ok nb' /\
    contents nb' = NameText.append_string (contents nb) str.
Proof.
  intros Hok. destruct str as [c_str|]; cbn [AppendString NameText.append_string].
  - by apply AppendBytes_text.
  - by exists nb.
Qed.

(** Runs the first call of a chain, replacing the contents of its result
    by their text. *)
Ltac text_call :=
  match goal with
  | H : ok ?nb |- context [AppendBytes_cstr ?nb ?b] =>
      let E := fresh "E" in
      destruct (AppendBytes_cstr_text nb b H) as (? & -> & ? & E);
      clear H; cbn [NameText.append_string] in E; rewrite <- E; clear E
  | H : ok ?nb |- context [AppendBytes ?nb ?b (Z.of_nat (length ?b))] =>
      let E := fresh "E" in
      destruct (AppendBytes_text nb b H) as (? & -> & ? & E);
      clear H; cbn [NameText.append_string] in E; rewrite <- E; clear E
  | H : ok ?nb |- context [AppendString ?nb ?s] =>
      let E := fresh "E" in
      destruct (AppendString_text nb s H) as (? & -> & ? & E);
      clear H; cbn [NameText.append_string] in E; rewrite <- E; clear E
  | H : ok ?nb |- context [AppendHex ?nb ?n] =>
      let E := fresh "E" in
      rewrite (AppendHex_unfold nb n);
      destruct (AppendFormatted_text nb (format_x n) H) as (? & -> & ? & E);
      clear H; cbn [NameText.append_string] in E; rewrite <- E; clear E
  | H : ok ?nb |- context [AppendInt ?nb ?n] =>
      let E := fresh "E" in
      rewrite (AppendInt_unfold nb n);
      destruct (AppendFormatted_text nb (format_d n) H) as (? & -> & ? & E);
      clear H; cbn [NameText.append_string] in E; rewrite <- E; clear E
  | H : ok ?nb |- context [AppendByte ?nb ?c] =>
      let E := fresh "E" in
      destruct (AppendByte_text nb c H) as (? & -> & ? & E);
      clear H; cbn [NameText.append_string] in E; rewrite <- E; clear E
  end; cbn [mbind option_bind].

Lemma AppendName_text nb name :
  ok nb ->
  exists nb',
    AppendName nb name = Some nb' /\ ok nb' /\
    contents nb' = NameText.append_name (contents nb) name.
Proof.
  intros Hok. destruct name as [str|[d|] hash];
    cbn [AppendName NameText.append_name].
  - by apply AppendString_text.
  - do 6 text_call. by apply AppendByte_text.
  - do 3 text_call. by apply AppendByte_text.
Qed.

Lemma Init_text names nb tag :
  ok nb ->
  exists nb',
    Init names nb tag = Some nb' /\ ok nb' /\
    contents nb' = NameText.init names tag.
Proof.
  intros Hok%ok_Reset. unfold Init, NameText.init.
  change [] with (contents (Reset nb)).
  text_call. by apply AppendByte_text.
Qed.

Lemma step_text names nb op :
  ok nb ->
  exists nb',
    step names nb op = Some nb' /\ ok nb' /\
    contents nb' = NameText.step names (contents nb) op.
Proof.
  intros Hok. destruct op; cbn [step NameText.step].
  - by apply Init_text.
  - by apply AppendName_text.
  - by apply AppendString_text.
  - by apply AppendBytes_text.
  - by apply AppendByte_text.
  - rewrite AppendInt_unfold. by apply AppendFormatted_text.
  - rewrite AppendHex_unfold. by apply AppendFormatted_text.
Qed.

Lemma run_text names ops : forall nb,
  ok nb ->
  exists nb',
    run names nb ops = Some nb' /\ ok nb' /\
    contents nb' = NameText.run names (contents nb) ops.
Proof.
  induction ops as [|op ops IH]; intros nb Hok; cbn [run].
  - by exists nb.
  - destruct (step_text names nb op Hok) as (nb1 & -> & Hok1 & E1).
    cbn [mbind option_bind].
    destruct (IH nb1 Hok1) as (nb' & E & Hok' & Hc).
    exists nb'. split; [exact E|]. split; [exact Hok'|].
    rewrite Hc, E1. reflexivity.
Qed.


End NameTextFacts.

Section NameBufferExtras.
Import NameBuffer.

Lemma step_extends names nb op :
  ok nb -> NameText.appends op = true ->
  exists nb',
    step names nb op = Some nb' /\ ok nb' /\ contents nb `prefix_of` contents nb'.
Proof.
  intros Hok Happ.
  assert (forall nb bytes, ok nb -> exists nb',
            AppendBytes nb bytes (Z.of_nat (length bytes)) = Some nb' /\ ok nb' /\
            contents nb `prefix_of` contents nb') as Hbytes.
  { intros b bytes Hb.
    destruct (AppendBytes_spec b bytes (Z.of_nat (length bytes)) Hb)
      as (nb' & E & Hok' & _ & Hc); [lia|].
    exists nb'. rewrite Hc. split; [exact E|]. split; [exact Hok'|].
    by apply prefix_app_r. }
  assert (forall nb c, ok nb -> exists nb',
            AppendByte nb c = Some nb' /\ ok nb' /\
            contents nb `prefix_of` contents nb') as Hbyte.
  { intros b c Hb. destruct (AppendByte_spec b c Hb) as (nb' & E & Hok' & _ & Hc).
    exists nb'. rewrite Hc. split; [exact E|]. split; [exact Hok'|].
    by apply prefix_app_r. }
  assert (forall nb text, ok nb -> exists nb',
            AppendFormatted nb text = Some nb' /\ ok nb' /\
            contents nb `prefix_of` contents nb') as Hfmt.
  { intros b text Hb.
    destruct (AppendFormatted_spec b text Hb) as (nb' & E & Hok' & Hfit & Hno).
    exists nb'. split; [exact E|]. split; [exact Hok'|].
    destruct (Z.lt_ge_cases (Z.of_nat (length text))
                (kUtf8BufferSize - utf8_pos_ b)) as [L|L].
    - destruct (Hfit L) as [_ ->]. by apply prefix_app_r.
    - destruct (Hno L) as [_ ->]. done. }
  assert (forall nb str, ok nb -> exists nb',
            AppendString nb str = Some nb' /\ ok nb' /\
            contents nb `prefix_of` contents nb') as Hstr.
  { intros b [c_str|] Hb; cbn [AppendString]; [by apply Hbytes|by exists b]. }
  destruct op as [tag|name|str|bytes|c|n|n]; cbn [step]; try done.
  - destruct name as [str|[d|] hash]; cbn [AppendName]; [by apply Hstr| |].
    + unfold AppendBytes_cstr.
      destruct (Hbytes nb (list_byte_of_string "symbol(") Hok) as (n1 & -> & H1 & P1).
      cbn [mbind option_bind].
      destruct (Hbytes n1 [x22] H1) as (n2 & -> & H2 & P2).
      cbn [mbind option_bind].
      destruct (Hstr n2 (Some d) H2) as (n3 & -> & H3 & P3).
      cbn [mbind option_bind].
      destruct (Hbytes n3 [x22; x20] H3) as (n4 & -> & H4 & P4).
      cbn [mbind option_bind].
      destruct (Hbytes n4 (list_byte_of_string "hash ") H4) as (n5 & -> & H5 & P5).
      cbn [mbind option_bind]. rewrite AppendHex_unfold.
      destruct (Hfmt n5 (format_x hash) H5) as (n6 & -> & H6 & P6).
      cbn [mbind option_bind].
      destruct (Hbyte n6 ")"%byte H6) as (n7 & -> & H7 & P7).
      exists n7. split; [reflexivity|]. split; [exact H7|].
      by repeat (etrans; [eassumption|]).
    + unfold AppendBytes_cstr.
      destruct (Hbytes nb (list_byte_of_string "symbol(") Hok) as (n1 & -> & H1 & P1).
      cbn [mbind option_bind].
      destruct (Hbytes n1 (list_byte_of_string "hash ") H1) as (n5 & -> & H5 & P5).
      cbn [mbind option_bind]. rewrite AppendHex_unfold.
      destruct (Hfmt n5 (format_x hash) H5) as (n6 & -> & H6 & P6).
      cbn [mbind option_bind].
      destruct (Hbyte n6 ")"%byte H6) as (n7 & -> & H7 & P7).
      exists n7. split; [reflexivity|]. split; [exact H7|].
      by repeat (etrans; [eassumption|]).
  - by apply Hstr.
  - by apply Hbytes.
  - by apply Hbyte.
  - rewrite AppendInt_unfold. by apply Hfmt.
  - rewrite AppendHex_unfold. by apply Hfmt.
Qed.

Lemma run_extends names ops : forall nb,
  ok nb -> forallb NameText.appends ops = true ->
  exists nb',
    run names nb ops = Some nb' /\ ok nb' /\ contents nb `prefix_of` contents nb'.
Proof.
  induction ops as [|op ops IH]; intros nb Hok Happ; cbn [run].
  - by exists nb.
  - cbn [forallb] in Happ. apply andb_prop in Happ as [Hop Hops].
    destruct (step_extends names nb op Hok Hop) as (nb1 & -> & Hok1 & P1).
    cbn [mbind option_bind].
    destruct (IH nb1 Hok1 Hops) as (nb' & E & Hok' & P).
    exists nb'. split; [exact E|]. split; [exact Hok'|]. by etrans.
Qed.

End NameBufferExtras.

(** X1.  Whatever the buffer held before, after [Init] and any further
    calls its contents are the text those calls spell: the tag name, a
    colon and the appended pieces, each cut or left out as its operation
    prescribes.  Two buffers with different histories that receive the
    same calls from [Init] on therefore hold the same name of the same
    size: nothing of an earlier record shows in the next. *)
Theorem NameBuffer_holds_the_text_of_the_calls
    (kCodeTagNames : CodeTag -> list byte) (nb1 nb2 : NameBuffer.t)
    (tag : CodeTag) (ops : list NameBuffer.Op) :
  NameBuffer.ok nb1 -> NameBuffer.ok nb2 ->
  exists nb1' nb2',
    NameBuffer.run kCodeTagNames nb1 (NameBuffer.OpInit tag :: ops) = Some nb1' /\
    NameBuffer.run kCodeTagNames nb2 (NameBuffer.OpInit tag :: ops) = Some nb2' /\
    NameBuffer.contents nb1' =
      NameText.run kCodeTagNames (NameText.init kCodeTagNames tag) ops /\
    NameBuffer.contents nb2' = NameBuffer.contents nb1' /\
    NameBuffer.size nb2' = NameBuffer.size nb1'.
Proof.
  intros H1 H2.
  destruct (run_text kCodeTagNames (NameBuffer.OpInit tag :: ops) nb1 H1)
    as (nb1' & E1 & Hok1 & C1).
  destruct (run_text kCodeTagNames (NameBuffer.OpInit tag :: ops) nb2 H2)
    as (nb2' & E2 & Hok2 & C2).
  exists nb1', nb2'. split; [exact E1|]. split; [exact E2|].
  split; [exact C1|]. split; [by rewrite C1, C2|].
  rewrite <- (contents_length nb1' Hok1), <- (contents_length nb2' Hok2).
  by rewrite C1, C2.
Qed.

Lemma NameBuffer_holds_the_text_of_the_calls_witness :
  NameBuffer.ok (NameBuffer.new NameBuffer.zeroes) /\
  NameBuffer.ok NameBuffer.nearly_full /\
  exists nb1' nb2',
    NameBuffer.run NameBuffer.sample_names (NameBuffer.new NameBuffer.zeroes)
      [NameBuffer.OpInit kFunction; NameBuffer.OpAppendInt 42] = Some nb1' /\
    NameBuffer.run NameBuffer.sample_names NameBuffer.nearly_full
      [NameBuffer.OpInit kFunction; NameBuffer.OpAppendInt 42] = Some nb2' /\
    NameBuffer.contents nb2' = NameBuffer.contents nb1'.
Proof.
  assert (H1 : NameBuffer.ok (NameBuffer.new NameBuffer.zeroes))
    by (split; [done | reflexivity]).
  assert (H2 : NameBuffer.ok NameBuffer.nearly_full)
    by (split; [done | reflexivity]).
  split; [exact H1|]. split; [exact H2|].
  destruct (NameBuffer_holds_the_text_of_the_calls NameBuffer.sample_names
              _ _ kFunction [NameBuffer.OpAppendInt 42] H1 H2)
    as (nb1' & nb2' & E1 & E2 & _ & C & _).
  exists nb1', nb2'. split; [exact E1|]. split; [exact E2|exact C].
Defined.

(** X2.  The appending operations only extend the name: after any
    calls other than [Init] the earlier contents are a prefix of the new
    ones, so no byte already in the name is changed and [size()] does
    not decrease; and a full buffer takes nothing more. *)
Theorem NameBuffer_appends_only_extend
    (kCodeTagNames : CodeTag -> list byte) (nb : NameBuffer.t)
    (ops : list NameBuffer.Op) :
  NameBuffer.ok nb -> forallb NameText.appends ops = true ->
  exists nb',
    NameBuffer.run kCodeTagNames nb ops = Some nb' /\
    NameBuffer.contents nb `prefix_of` NameBuffer.contents nb' /\
    NameBuffer.size nb <= NameBuffer.size nb' /\
    (NameBuffer.size nb = NameBuffer.kUtf8BufferSize ->
       NameBuffer.size nb' = NameBuffer.size nb /\
       NameBuffer.contents nb' = NameBuffer.contents nb).
Proof.
  intros Hok Happ.
  destruct (run_extends kCodeTagNames ops nb Hok Happ) as (nb' & E & Hok' & P).
  exists nb'. split; [exact E|]. split; [exact P|].
  pose proof (prefix_length _ _ P) as L.
  pose proof (contents_length nb Hok) as L1.
  pose proof (contents_length nb' Hok') as L2.
  split; [lia|]. intros Hfull.
  destruct Hok' as [[_ Hle] _]. unfold NameBuffer.size in *.
  split; [lia|]. symmetry. apply prefix_length_eq; [exact P|lia].
Qed.

Lemma NameBuffer_appends_only_extend_witness :
  NameBuffer.ok NameBuffer.nearly_full /\
  exists nb',
    NameBuffer.run NameBuffer.sample_names NameBuffer.nearly_full
      [NameBuffer.OpAppendInt 12345; NameBuffer.OpAppendByte ":"%byte] = Some nb' /\
    NameBuffer.contents NameBuffer.nearly_full `prefix_of` NameBuffer.contents nb'.
Proof.
  assert (H : NameBuffer.ok NameBuffer.nearly_full)
    by (split; [done | reflexivity]).
  split; [exact H|].
  destruct (NameBuffer_appends_only_extend NameBuffer.sample_names
              NameBuffer.nearly_full
              [NameBuffer.OpAppendInt 12345; NameBuffer.OpAppendByte ":"%byte]
              H eq_refl) as (nb' & E & P & _).
  exists nb'. split; [exact E|exact P].
Defined.

(** Runs the first call of a chain of buffer operations and replaces the
    contents of its result by their text. *)
Ltac name_call :=
  match goal with
  | H : NameBuffer.ok ?nb |- context [NameBuffer.Init ?names ?nb ?tag] =>
      let E := fresh "E" in
      destruct (Init_text names nb tag H) as (? & -> & ? & E);
      clear H; rewrite <- E; clear E
  | H : NameBuffer.ok ?nb |- context [NameBuffer.AppendBytes_cstr ?nb ?b] =>
      let E := fresh "E" in
      destruct (AppendBytes_cstr_text nb b H) as (? & -> & ? & E);
      clear H; rewrite <- E; clear E
  | H : NameBuffer.ok ?nb
    |- context [NameBuffer.AppendBytes ?nb ?b (Z.of_nat (length ?b))] =>
      let E := fresh "E" in
      destruct (AppendBytes_text nb b H) as (? & -> & ? & E);
      clear H; rewrite <- E; clear E
  | H : NameBuffer.ok ?nb |- context [NameBuffer.AppendString ?nb ?s] =>
      let E := fresh "E" in
      destruct (AppendString_text nb s H) as (? & -> & ? & E);
      clear H; cbn [NameText.append_string] in E; rewrite <- E; clear E
  | H : NameBuffer.ok ?nb |- context [NameBuffer.AppendName ?nb ?s] =>
      let E := fresh "E" in
      destruct (AppendName_text nb s H) as (? & -> & ? & E);
      clear H; rewrite <- E; clear E
  | H : NameBuffer.ok ?nb |- context [NameBuffer.AppendHex ?nb ?n] =>
      let E := fresh "E" in
      rewrite (AppendHex_unfold nb n);
      destruct (AppendFormatted_text nb (NameBuffer.format_x n) H)
        as (? & -> & ? & E);
      clear H; rewrite <- E; clear E
  | H : NameBuffer.ok ?nb |- context [NameBuffer.AppendInt ?nb ?n] =>
      let E := fresh "E" in
      rewrite (AppendInt_unfold nb n);
      destruct (AppendFormatted_text nb (NameBuffer.format_d n) H)
        as (? & -> & ? & E);
      clear H; rewrite <- E; clear E
  | H : NameBuffer.ok ?nb |- context [NameBuffer.AppendByte ?nb ?c] =>
      let E := fresh "E" in
      destruct (AppendByte_text nb c H) as (? & -> & ? & E);
      clear H; rewrite <- E; clear E
  end; cbn [mbind option_bind].

Section CodeEventLoggerFacts.
Import NameBuffer CodeEventLogger.

Variable kCodeTagNames : CodeTag -> list byte.
Variable CodeKindToMarker : CodeKind -> string.
Variable flags : V8FileLogger.Flags.
Variable Logger : Type.
Variable LogRecordedBuffer :
  Logger -> AbstractCode -> option V8FileLogger.SharedFunctionInfo ->
  list byte -> Z -> option Logger.
Variable LogRecordedBuffer_wasm :
  Logger -> WasmCode -> list byte -> Z -> option Logger.

Local Abbreviation perform' :=
  (perform kCodeTagNames CodeKindToMarker flags Logger LogRecordedBuffer
     LogRecordedBuffer_wasm).
Local Abbreviation deliver' :=
  (deliver Logger LogRecordedBuffer LogRecordedBuffer_wasm).
Local Abbreviation name_text' :=
  (name_text kCodeTagNames CodeKindToMarker flags).

Lemma CodeEventLogger_perform_spec (l : CodeEventLogger.t Logger) call :
  ok (name_buffer_ l) ->
  exists nb,
    ok nb /\ contents nb = name_text' call /\
    perform' l call =
      (lg ← deliver' (logger l) call (utf8_buffer_ nb) (size nb);
       Some (mk nb lg)).
Proof.
  intros Hok. destruct call; cbn [perform name_text deliver];
    unfold CodeCreateEvent_comment, CodeCreateEvent_name,
      CodeCreateEvent_script, CodeCreateEvent_function, CodeCreateEvent_wasm,
      RegExpCodeCreateEvent.
  - do 2 name_call. by eexists.
  - do 2 name_call. by eexists.
  - do 4 name_call. by eexists.
  - do 4 name_call. destruct script_name as [str|d hash].
    + do 5 name_call. by eexists.
    + do 7 name_call. by eexists.
  - do 3 name_call. destruct (IsAnonymous code).
    + do 3 name_call. by eexists.
    + do 3 name_call. by eexists.
  - do 2 name_call. by eexists.
Qed.

End CodeEventLoggerFacts.

Section NameTextLemmas.

Lemma take_take_app {A} n (a b : list A) :
  take n (take n a ++ b) = take n (a ++ b).
Proof.
  destruct (Nat.le_gt_cases n (length a)) as [L|L].
  - rewrite (take_app_le _ _ n) by (rewrite length_take; lia).
    rewrite take_take, Nat.min_id. by rewrite take_app_le.
  - by rewrite (take_ge a) by lia.
Qed.

Lemma append_bytes_fits text bytes :
  Z.of_nat (length text + length bytes) <= NameBuffer.kUtf8BufferSize ->
  NameText.append_bytes text bytes = text ++ bytes.
Proof.
  intros H. unfold NameText.append_bytes.
  apply take_ge. rewrite length_app. lia.
Qed.

Lemma append_byte_fits text c :
  Z.of_nat (length text) < NameBuffer.kUtf8BufferSize ->
  NameText.append_byte text c = text ++ [c].
Proof.
  intros H. unfold NameText.append_byte. apply append_bytes_fits.
  simpl. lia.
Qed.

Lemma append_formatted_fits text digits :
  Z.of_nat (length text + length digits) < NameBuffer.kUtf8BufferSize ->
  NameText.append_formatted text digits = text ++ digits.
Proof.
  intros H. unfold NameText.append_formatted.
  by rewrite (proj2 (Z.ltb_lt _ _) H).
Qed.

Lemma init_take names tag :
  NameText.init names tag = take 4096 (names tag ++ [":"%byte]).
Proof.
  unfold NameText.init, NameText.append_byte, NameText.append_bytes.
  cbn [app]. apply take_take_app.
Qed.

End NameTextLemmas.

(** X3.  Each [CodeCreateEvent] overload and [RegExpCodeCreateEvent],
    on any subclass and whatever name the buffer held from the event
    before, hands [LogRecordedBuffer] a name that is the text of the
    event alone, of [size()] bytes and at most 4096.  For the overload
    with a comment the name is the first 4096 bytes of the tag name, a
    colon and the comment. *)
Theorem CodeCreateEvent_hands_over_the_text_of_the_event
    (kCodeTagNames : CodeTag -> list byte)
    (CodeKindToMarker : CodeKind -> string) (flags : V8FileLogger.Flags)
    (Logger : Type)
    (LogRecordedBuffer :
       Logger -> AbstractCode -> option V8FileLogger.SharedFunctionInfo ->
       list byte -> Z -> option Logger)
    (LogRecordedBuffer_wasm :
       Logger -> CodeEventLogger.WasmCode -> list byte -> Z -> option Logger)
    (l : CodeEventLogger.t Logger) (call : CodeEventLogger.Call) :
  NameBuffer.ok (CodeEventLogger.name_buffer_ l) ->
  exists nb,
    CodeEventLogger.perform kCodeTagNames CodeKindToMarker flags Logger
      LogRecordedBuffer LogRecordedBuffer_wasm l call =
      (lg ← CodeEventLogger.deliver Logger LogRecordedBuffer
              LogRecordedBuffer_wasm (CodeEventLogger.logger l) call
              (NameBuffer.utf8_buffer_ nb) (NameBuffer.size nb);
       Some (CodeEventLogger.mk nb lg)) /\
    take (Z.to_nat (NameBuffer.size nb)) (NameBuffer.utf8_buffer_ nb) =
      CodeEventLogger.name_text kCodeTagNames CodeKindToMarker flags call /\
    0 <= NameBuffer.size nb <= 4096 /\
    forall tag code comment,
      call = CodeEventLogger.CallCodeCreateEvent_comment tag code comment ->
      take (Z.to_nat (NameBuffer.size nb)) (NameBuffer.utf8_buffer_ nb) =
        take 4096 (kCodeTagNames tag ++ [":"%byte] ++ comment).
Proof.
  intros Hok.
  destruct (CodeEventLogger_perform_spec kCodeTagNames CodeKindToMarker flags Logger
              LogRecordedBuffer LogRecordedBuffer_wasm l call Hok)
    as (nb & Hnb & Hc & E).
  exists nb. split; [exact E|]. split; [exact Hc|].
  split; [apply Hnb|].
  intros tag code comment ->.
  change (take (Z.to_nat (NameBuffer.size nb)) (NameBuffer.utf8_buffer_ nb))
    with (NameBuffer.contents nb).
  rewrite Hc.
  cbn [CodeEventLogger.name_text]. rewrite init_take.
  unfold NameText.append_bytes. change (Z.to_nat NameBuffer.kUtf8BufferSize)
    with 4096%nat.
  by rewrite take_take_app, <- app_assoc.
Qed.

Lemma CodeCreateEvent_hands_over_the_text_of_the_event_witness :
  NameBuffer.ok (NameBuffer.new NameBuffer.zeroes) /\
  exists nb,
    CodeEventLogger.perform NameBuffer.sample_names V8FileLogger.sample_marker
      V8FileLogger.all_flags unit (fun _ _ _ _ _ => Some tt)
      (fun _ _ _ _ => Some tt)
      (CodeEventLogger.mk (NameBuffer.new NameBuffer.zeroes) tt)
      (CodeEventLogger.CallCodeCreateEvent_comment kFunction
         LinuxPerfBasicLogger.function_code (list_byte_of_string "f")) =
      Some (CodeEventLogger.mk nb tt) /\
    0 <= NameBuffer.size nb <= 4096.
Proof.
  assert (H : NameBuffer.ok (NameBuffer.new NameBuffer.zeroes))
    by (split; [done | reflexivity]).
  split; [exact H|].
  destruct (CodeCreateEvent_hands_over_the_text_of_the_event
              NameBuffer.sample_names V8FileLogger.sample_marker
              V8FileLogger.all_flags unit (fun _ _ _ _ _ => Some tt)
              (fun _ _ _ _ => Some tt)
              (CodeEventLogger.mk (NameBuffer.new NameBuffer.zeroes) tt)
              (CodeEventLogger.CallCodeCreateEvent_comment kFunction
                 LinuxPerfBasicLogger.function_code (list_byte_of_string "f"))
              H) as (nb & E & _ & Hs & _).
  exists nb. split; [exact E|exact Hs].
Defined.

(** X4.  The name of a function's code, when it fits: the overload
    with a line and a column hands over the tag name, a colon, the
    marker, the debug name of the function, a space, the script name, a
    colon, the line, a colon and the column, provided all of it and the
    terminating NUL of the last number fit the 4096 bytes. *)
Theorem CodeCreateEvent_function_name_when_it_fits
    (kCodeTagNames : CodeTag -> list byte)
    (CodeKindToMarker : CodeKind -> string) (flags : V8FileLogger.Flags)
    (Logger : Type)
    (LogRecordedBuffer :
       Logger -> AbstractCode -> option V8FileLogger.SharedFunctionInfo ->
       list byte -> Z -> option Logger)
    (LogRecordedBuffer_wasm :
       Logger -> CodeEventLogger.WasmCode -> list byte -> Z -> option Logger)
    (l : CodeEventLogger.t Logger) (tag : CodeTag) (c : V8FileLogger.Code)
    (shared : V8FileLogger.SharedFunctionInfo) (script_name : list byte)
    (line column : Z) :
  let full :=
    kCodeTagNames tag ++ [":"%byte] ++
    CodeEventLogger.marker CodeKindToMarker flags shared c ++
    list_byte_of_string (V8FileLogger.DebugNameCStr shared) ++ [" "%byte] ++
    script_name ++ [":"%byte] ++ NameBuffer.format_d line ++ [":"%byte] ++
    NameBuffer.format_d column in
  NameBuffer.ok (CodeEventLogger.name_buffer_ l) ->
  Z.of_nat (length full) < NameBuffer.kUtf8BufferSize ->
  exists nb,
    CodeEventLogger.CodeCreateEvent_function kCodeTagNames CodeKindToMarker
      flags Logger LogRecordedBuffer l tag c shared
      (NameBuffer.IsString (Some script_name)) line column =
      (lg ← LogRecordedBuffer (CodeEventLogger.logger l) (V8FileLogger.code c)
              (Some shared) (NameBuffer.utf8_buffer_ nb) (NameBuffer.size nb);
       Some (CodeEventLogger.mk nb lg)) /\
    NameBuffer.size nb = Z.of_nat (length full) /\
    take (length full) (NameBuffer.utf8_buffer_ nb) = full.
Proof.
  intros full Hok Hfit.
  destruct (CodeEventLogger_perform_spec kCodeTagNames CodeKindToMarker flags Logger
              LogRecordedBuffer LogRecordedBuffer_wasm l
              (CodeEventLogger.CallCodeCreateEvent_function tag c shared
                 (NameBuffer.IsString (Some script_name)) line column) Hok)
    as (nb & Hnb & Hc & E).
  exists nb. split; [exact E|].
  assert (NameBuffer.contents nb = full) as Hfull.
  { rewrite Hc. cbn [CodeEventLogger.name_text NameText.append_string].
    unfold full, NameBuffer.kUtf8BufferSize in *.
    rewrite init_take.
    rewrite !length_app in Hfit. cbn [length] in Hfit.
    rewrite take_ge by (rewrite length_app; simpl; lia).
    repeat match goal with
      | |- context [NameText.append_bytes (?a ++ ?b) ?d] =>
          rewrite (append_bytes_fits (a ++ b) d)
            by (unfold NameBuffer.kUtf8BufferSize; rewrite ?length_app;
                simpl; lia)
      | |- context [NameText.append_byte (?a ++ ?b) ?d] =>
          rewrite (append_byte_fits (a ++ b) d)
            by (unfold NameBuffer.kUtf8BufferSize; rewrite ?length_app;
                simpl; lia)
      | |- context [NameText.append_formatted (?a ++ ?b) ?d] =>
          rewrite (append_formatted_fits (a ++ b) d)
            by (unfold NameBuffer.kUtf8BufferSize; rewrite ?length_app;
                simpl; lia)
      end.
    by rewrite <- !app_assoc. }
  pose proof (contents_length nb Hnb) as Hl. rewrite Hfull in Hl.
  split; [by rewrite <- Hl|].
  rewrite <- Hfull at 2. unfold NameBuffer.contents. f_equal.
  unfold NameBuffer.size in Hl. lia.
Qed.

Lemma CodeCreateEvent_function_name_when_it_fits_witness :
  NameBuffer.ok (NameBuffer.new NameBuffer.zeroes) /\
  exists nb,
    CodeEventLogger.CodeCreateEvent_function NameBuffer.sample_names
      V8FileLogger.sample_marker V8FileLogger.all_flags unit
      (fun _ _ _ _ _ => Some tt)
      (CodeEventLogger.mk (NameBuffer.new NameBuffer.zeroes) tt)
      kFunction CodeEventLogger.sample_code CodeEventLogger.sample_shared
      (NameBuffer.IsString (Some (list_byte_of_string "a.js"))) 3 7 =
      Some (CodeEventLogger.mk nb tt) /\
    take 20 (NameBuffer.utf8_buffer_ nb) =
      list_byte_of_string "Function:~f a.js:3:7".
Proof.
  assert (H : NameBuffer.ok (NameBuffer.new NameBuffer.zeroes))
    by (split; [done | reflexivity]).
  split; [exact H|].
  destruct (CodeCreateEvent_function_name_when_it_fits
              NameBuffer.sample_names V8FileLogger.sample_marker
              V8FileLogger.all_flags unit (fun _ _ _ _ _ => Some tt)
              (fun _ _ _ _ => Some tt)
              (CodeEventLogger.mk (NameBuffer.new NameBuffer.zeroes) tt)
              kFunction CodeEventLogger.sample_code CodeEventLogger.sample_shared (list_byte_of_string "a.js")
              3 7 H) as (nb & E & _ & Hc).
  { vm_compute. reflexivity. }
  exists nb. split; [exact E|exact Hc].
Defined.

Section PerfMapEventFacts.
Import LinuxPerfBasicLogger.

Variable kCodeTagNames : CodeTag -> list byte.
Variable CodeKindToMarker : CodeKind -> string.
Variable flags : V8FileLogger.Flags.
Variable only_functions : bool.

Lemma format_s_take n : forall str, format_s n str = format_s n (take n str).
Proof.
  induction n as [|n IH]; intros [|c str]; cbn [format_s take]; try done.
  destruct (Byte.eqb c x00); [done|]. by rewrite <- IH.
Qed.

Lemma format_s_contents nb :
  NameBuffer.ok nb ->
  format_s (Z.to_nat (NameBuffer.size nb)) (NameBuffer.utf8_buffer_ nb) =
  format_s (length (NameBuffer.contents nb)) (NameBuffer.contents nb).
Proof.
  intros Hok. rewrite (contents_length_nat nb Hok).
  by rewrite format_s_take.
Qed.

Lemma perf_perform_spec l call stream :
  NameBuffer.ok (CodeEventLogger.name_buffer_ l) ->
  perf_output_handle_ (CodeEventLogger.logger l) = Some stream ->
  exists l',
    LinuxPerfBasicLoggerEvents.perform kCodeTagNames CodeKindToMarker flags
      only_functions l call = Some l' /\
    NameBuffer.ok (CodeEventLogger.name_buffer_ l') /\
    perf_output_handle_ (CodeEventLogger.logger l') = Some stream /\
    reference_count_ (CodeEventLogger.logger l') =
      reference_count_ (CodeEventLogger.logger l) /\
    os_calls (CodeEventLogger.logger l') =
      os_calls (CodeEventLogger.logger l) ++
      (if LinuxPerfBasicLoggerEvents.reaches_the_map only_functions call
       then [FPrint stream
               (LinuxPerfBasicLoggerEvents.map_line kCodeTagNames
                  CodeKindToMarker flags call)]
       else []).
Proof.
  intros Hok Hopen. unfold LinuxPerfBasicLoggerEvents.perform.
  destruct (CodeEventLogger_perform_spec kCodeTagNames CodeKindToMarker flags Statics
              (fun s code _ name length =>
                 LogRecordedBuffer only_functions s code name length)
              LinuxPerfBasicLoggerEvents.LogRecordedBuffer_wasm l call Hok)
    as (nb & Hnb & Hc & ->).
  unfold LinuxPerfBasicLoggerEvents.map_line. rewrite <- Hc.
  rewrite <- (format_s_contents nb Hnb).
  destruct call; cbn [CodeEventLogger.deliver
    LinuxPerfBasicLoggerEvents.reaches_the_map CodeEventLogger.code_start
    CodeEventLogger.code_size];
    unfold LogRecordedBuffer, LinuxPerfBasicLoggerEvents.LogRecordedBuffer_wasm,
      WriteLogRecordedBuffer; rewrite Hopen;
    try match goal with
        | |- context [only_functions && ?k] => destruct (only_functions && k)
        end;
    cbn [negb mbind option_bind]; eexists;
    (split; [reflexivity|]);
    cbn [CodeEventLogger.name_buffer_ CodeEventLogger.logger
         perf_output_handle_ reference_count_ os_calls];
    rewrite ?app_nil_r; done.
Qed.

Lemma perf_perform_all_spec calls : forall l stream,
  NameBuffer.ok (CodeEventLogger.name_buffer_ l) ->
  perf_output_handle_ (CodeEventLogger.logger l) = Some stream ->
  exists l',
    LinuxPerfBasicLoggerEvents.perform_all kCodeTagNames CodeKindToMarker
      flags only_functions l calls = Some l' /\
    NameBuffer.ok (CodeEventLogger.name_buffer_ l') /\
    perf_output_handle_ (CodeEventLogger.logger l') = Some stream /\
    reference_count_ (CodeEventLogger.logger l') =
      reference_count_ (CodeEventLogger.logger l) /\
    os_calls (CodeEventLogger.logger l') =
      os_calls (CodeEventLogger.logger l) ++
      map (fun call =>
             FPrint stream
               (LinuxPerfBasicLoggerEvents.map_line kCodeTagNames
                  CodeKindToMarker flags call))
          (filter (fun call =>
                     LinuxPerfBasicLoggerEvents.reaches_the_map only_functions
                       call = true) calls).
Proof.
  induction calls as [|call calls IH]; intros l stream Hok Hopen;
    cbn [LinuxPerfBasicLoggerEvents.perform_all].
  - exists l. rewrite filter_nil. cbn [map]. by rewrite app_nil_r.
  - destruct (perf_perform_spec l call stream Hok Hopen)
      as (l1 & -> & Hok1 & Hopen1 & Hcount1 & Hcalls1).
    cbn [mbind option_bind].
    destruct (IH l1 stream Hok1 Hopen1) as (l' & E & Hok' & Hopen' & Hcount' & Hcalls').
    exists l'. split; [exact E|]. split; [exact Hok'|]. split; [exact Hopen'|].
    split; [congruence|]. rewrite Hcalls', Hcalls1, <- app_assoc. f_equal.
    rewrite filter_cons.
    destruct (LinuxPerfBasicLoggerEvents.reaches_the_map only_functions call);
      [rewrite decide_True by done|rewrite decide_False by done]; done.
Qed.

End PerfMapEventFacts.

(** X5.  On the perf map logger every code-creation event that gets to
    [WriteLogRecordedBuffer] adds exactly one line to the map, and the
    others add nothing: after any events the map holds its earlier lines
    followed by one line per such event, in order, each made of the
    start and the size of the code in hexadecimal, the name of the event
    (at most 4096 bytes, up to its first NUL) and a newline.  Without
    [FLAG_perf_basic_prof_only_functions] that is one line per event,
    however long the names are; with it, the events for WebAssembly code
    are still all written, since their override does not read the flag.
    The file stays open. *)
Theorem perf_map_gets_one_line_per_event
    (kCodeTagNames : CodeTag -> list byte)
    (CodeKindToMarker : CodeKind -> string) (flags : V8FileLogger.Flags)
    (only_functions : bool)
    (l : CodeEventLogger.t LinuxPerfBasicLogger.Statics)
    (calls : list CodeEventLogger.Call) (stream : LinuxPerfBasicLogger.FILE) :
  NameBuffer.ok (CodeEventLogger.name_buffer_ l) ->
  LinuxPerfBasicLogger.perf_output_handle_ (CodeEventLogger.logger l) =
    Some stream ->
  exists l',
    LinuxPerfBasicLoggerEvents.perform_all kCodeTagNames CodeKindToMarker
      flags only_functions l calls = Some l' /\
    LinuxPerfBasicLogger.map_lines (CodeEventLogger.logger l') =
      LinuxPerfBasicLogger.map_lines (CodeEventLogger.logger l) ++
      map (LinuxPerfBasicLoggerEvents.map_line kCodeTagNames CodeKindToMarker
             flags)
          (filter (fun call =>
                     LinuxPerfBasicLoggerEvents.reaches_the_map only_functions
                       call = true) calls) /\
    LinuxPerfBasicLogger.perf_output_handle_ (CodeEventLogger.logger l') =
      Some stream /\
    (only_functions = false ->
     length (LinuxPerfBasicLogger.map_lines (CodeEventLogger.logger l')) =
       (length (LinuxPerfBasicLogger.map_lines (CodeEventLogger.logger l)) +
        length calls)%nat).
Proof.
  intros Hok Hopen.
  destruct (perf_perform_all_spec kCodeTagNames CodeKindToMarker flags
              only_functions calls l stream Hok Hopen)
    as (l' & E & _ & Hopen' & _ & Hcalls).
  exists l'. split; [exact E|].
  assert (forall cs : list CodeEventLogger.Call,
            omap (fun call => match call with
                              | LinuxPerfBasicLogger.FPrint _ text => Some text
                              | _ => None
                              end)
                 (map (fun call =>
                         LinuxPerfBasicLogger.FPrint stream
                           (LinuxPerfBasicLoggerEvents.map_line kCodeTagNames
                              CodeKindToMarker flags call)) cs) =
            map (LinuxPerfBasicLoggerEvents.map_line kCodeTagNames
                   CodeKindToMarker flags) cs) as Homap.
  { induction cs as [|c cs IH]; [done|]. cbn. by rewrite <- IH. }
  assert (LinuxPerfBasicLogger.map_lines (CodeEventLogger.logger l') =
          LinuxPerfBasicLogger.map_lines (CodeEventLogger.logger l) ++
          map (LinuxPerfBasicLoggerEvents.map_line kCodeTagNames
                 CodeKindToMarker flags)
              (filter (fun call =>
                         LinuxPerfBasicLoggerEvents.reaches_the_map
                           only_functions call = true) calls)) as Hlines.
  { unfold LinuxPerfBasicLogger.map_lines. rewrite Hcalls, omap_app.
    by rewrite Homap. }
  split; [exact Hlines|]. split; [exact Hopen'|].
  intros ->. rewrite Hlines, length_app, length_map. f_equal.
  clear. induction calls as [|c calls IH]; [done|].
  rewrite filter_cons.
  assert (LinuxPerfBasicLoggerEvents.reaches_the_map false c = true) as R
    by (by destruct c).
  rewrite decide_True by exact R. cbn [length]. by rewrite IH.
Qed.

Lemma perf_map_gets_one_line_per_event_witness :
  NameBuffer.ok (NameBuffer.new NameBuffer.zeroes) /\
  exists l',
    LinuxPerfBasicLoggerEvents.perform_all NameBuffer.sample_names
      V8FileLogger.sample_marker V8FileLogger.all_flags false
      (CodeEventLogger.mk (NameBuffer.new NameBuffer.zeroes)
         LinuxPerfBasicLogger.one_logger)
      [CodeEventLogger.CallCodeCreateEvent_comment kFunction
         LinuxPerfBasicLogger.function_code (replicate 5000 "a"%byte);
       CodeEventLogger.CallRegExpCodeCreateEvent
         LinuxPerfBasicLogger.regexp_code (Some (list_byte_of_string "a+"))] =
      Some l' /\
    length (LinuxPerfBasicLogger.map_lines (CodeEventLogger.logger l')) =
      2%nat.
Proof.
  assert (H : NameBuffer.ok (NameBuffer.new NameBuffer.zeroes))
    by (split; [done | reflexivity]).
  split; [exact H|].
  destruct (perf_map_gets_one_line_per_event NameBuffer.sample_names
              V8FileLogger.sample_marker V8FileLogger.all_flags false
              (CodeEventLogger.mk (NameBuffer.new NameBuffer.zeroes)
                 LinuxPerfBasicLogger.one_logger)
              [CodeEventLogger.CallCodeCreateEvent_comment kFunction
                 LinuxPerfBasicLogger.function_code (replicate 5000 "a"%byte);
               CodeEventLogger.CallRegExpCodeCreateEvent
                 LinuxPerfBasicLogger.regexp_code
                 (Some (list_byte_of_string "a+"))]
              3%nat H eq_refl) as (l' & E & _ & _ & Hn).
  exists l'. split; [exact E|]. exact (Hn eq_refl).
Defined.

Section LowLevelEventFacts.
Import LowLevelLogger.

Variable kCodeTagNames : CodeTag -> list byte.
Variable CodeKindToMarker : CodeKind -> string.
Variable flags : V8FileLogger.Flags.
Variable tg : Target.

Lemma ll_perform_spec l call :
  NameBuffer.ok (CodeEventLogger.name_buffer_ l) ->
  LowLevelLoggerEvents.call_ok tg call ->
  exists l' call',
    LowLevelLoggerEvents.perform kCodeTagNames CodeKindToMarker flags tg l
      call = Some l' /\
    NameBuffer.ok (CodeEventLogger.name_buffer_ l') /\
    CodeEventLogger.logger l' = perform tg (CodeEventLogger.logger l) call' /\
    call_ok tg call' /\
    record_of call' =
      LowLevelLoggerEvents.record_of kCodeTagNames CodeKindToMarker flags call.
Proof.
  intros Hok Hcall.
  destruct call as [storage call|from to|];
    cbn [LowLevelLoggerEvents.perform LowLevelLoggerEvents.record_of].
  - destruct Hcall as (Hst & Haddr & Hsize & Hbytes).
    destruct (CodeEventLogger_perform_spec kCodeTagNames CodeKindToMarker flags (list byte)
                (fun file code _ name length =>
                   Some (LogRecordedBuffer tg file storage code name length))
                (fun file code name length =>
                   Some (LowLevelLoggerEvents.LogRecordedBuffer_wasm tg file
                           storage code name length))
                l call Hok) as (nb & Hnb & Hc & ->).
    exists (CodeEventLogger.mk nb
              (LogRecordedBuffer tg (CodeEventLogger.logger l) storage
                 (CodeKinds.mkCode WASM_FUNCTION
                    (CodeEventLogger.code_start call)
                    (CodeEventLogger.code_size call)
                    (CodeEventLogger.code_bytes call))
                 (NameBuffer.utf8_buffer_ nb) (NameBuffer.size nb))),
           (CallLogRecordedBuffer storage
              (CodeKinds.mkCode WASM_FUNCTION
                 (CodeEventLogger.code_start call)
                 (CodeEventLogger.code_size call)
                 (CodeEventLogger.code_bytes call))
              (NameBuffer.utf8_buffer_ nb) (NameBuffer.size nb)).
    split; [destruct call; reflexivity|]. split; [exact Hnb|].
    split; [reflexivity|].
    split.
    + destruct Hnb as [Hpos Hlen].
      unfold NameBuffer.kUtf8BufferSize, NameBuffer.size in *.
      cbn [call_ok InstructionStart InstructionSize instructions].
      refine (conj Hst (conj _ (conj _ (conj Haddr (conj Hsize Hbytes)))));
        lia.
    + cbn [record_of InstructionStart InstructionSize]. by rewrite <- Hc.
  - eexists _, (CallCodeMoveEvent from to).
    split; [reflexivity|]. split; [exact Hok|]. split; [reflexivity|].
    split; [exact Hcall|reflexivity].
  - eexists _, CallCodeMovingGCEvent.
    split; [reflexivity|]. split; [exact Hok|]. split; [reflexivity|].
    split; [exact I|reflexivity].
Qed.

Lemma ll_perform_all_spec calls : forall l,
  NameBuffer.ok (CodeEventLogger.name_buffer_ l) ->
  Forall (LowLevelLoggerEvents.call_ok tg) calls ->
  exists l' calls',
    LowLevelLoggerEvents.perform_all kCodeTagNames CodeKindToMarker flags tg l
      calls = Some l' /\
    CodeEventLogger.logger l' =
      fold_left (perform tg) calls' (CodeEventLogger.logger l) /\
    Forall (call_ok tg) calls' /\
    map record_of calls' =
      map (LowLevelLoggerEvents.record_of kCodeTagNames CodeKindToMarker flags)
          calls.
Proof.
  induction calls as [|call calls IH]; intros l Hok Hcalls;
    cbn [LowLevelLoggerEvents.perform_all].
  - by exists l, [].
  - inversion Hcalls as [|? ? Hc Hcs]; subst.
    destruct (ll_perform_spec l call Hok Hc)
      as (l1 & call' & -> & Hok1 & Hlog1 & Hc' & Hr).
    cbn [mbind option_bind].
    destruct (IH l1 Hok1 Hcs) as (l' & calls' & E & Hlog & Hcs' & Hrs).
    exists l', (call' :: calls'). split; [exact E|].
    split; [by rewrite Hlog, Hlog1|]. split; [by constructor|].
    cbn [map]. by rewrite Hr, Hrs.
Qed.

End LowLevelEventFacts.

(** X6.  The low-level log reads back as what was logged, for any
    events.  A logger constructed on a target with pointers of 4 or 8
    bytes, given any code-creation events of any of the six kinds, code
    moves and moving collections, whatever the storage of its name
    buffer and of its event structs held, leaves a file that parses into
    the architecture name and one record per event in order: for a
    creation the name that the event spells (at most 4096 bytes), the
    start and the size of the code; for a move the two addresses. *)
Theorem low_level_log_reads_back_any_events
    (kCodeTagNames : CodeTag -> list byte)
    (CodeKindToMarker : CodeKind -> string) (flags : V8FileLogger.Flags)
    (tg : LowLevelLogger.Target) (storage : list byte)
    (calls : list LowLevelLoggerEvents.Call) :
  LowLevelLogger.pointer_ok tg ->
  length storage = 4096%nat ->
  Forall (LowLevelLoggerEvents.call_ok tg) calls ->
  exists l',
    LowLevelLoggerEvents.perform_all kCodeTagNames CodeKindToMarker flags tg
      (LowLevelLoggerEvents.new tg storage) calls = Some l' /\
    LowLevelLogger.parse tg (CodeEventLogger.logger l') =
      Some (LowLevelLogger.arch (LowLevelLogger.target_arch tg),
            map (LowLevelLoggerEvents.record_of kCodeTagNames CodeKindToMarker
                   flags) calls).
Proof.
  intros Hptr Hst Hcalls.
  destruct (ll_perform_all_spec kCodeTagNames CodeKindToMarker flags tg calls
              (LowLevelLoggerEvents.new tg storage) (ok_new storage Hst) Hcalls)
    as (l' & calls' & E & Hlog & Hok' & Hr).
  exists l'. split; [exact E|].
  rewrite Hlog, <- Hr. cbn [LowLevelLoggerEvents.new CodeEventLogger.logger].
  by apply written_then_parse.
Qed.

Lemma low_level_log_reads_back_any_events_witness :
  LowLevelLogger.pointer_ok LowLevelLogger.x64_target /\
  exists l',
    LowLevelLoggerEvents.perform_all NameBuffer.sample_names
      V8FileLogger.sample_marker V8FileLogger.all_flags
      LowLevelLogger.x64_target
      (LowLevelLoggerEvents.new LowLevelLogger.x64_target NameBuffer.zeroes)
      LowLevelLoggerEvents.sample_events = Some l' /\
    LowLevelLogger.parse LowLevelLogger.x64_target (CodeEventLogger.logger l') =
      Some (list_byte_of_string "x64",
            [LowLevelLogger.CodeCreate (list_byte_of_string "Function:foo")
               4096 64;
             LowLevelLogger.CodeMovingGC;
             LowLevelLogger.CodeMove 4096 8192]).
Proof.
  assert (H : LowLevelLogger.pointer_ok LowLevelLogger.x64_target)
    by (right; reflexivity).
  split; [exact H|].
  assert (Forall (LowLevelLoggerEvents.call_ok LowLevelLogger.x64_target)
            LowLevelLoggerEvents.sample_events) as Hok.
  { unfold LowLevelLoggerEvents.sample_events.
    constructor; [|constructor; [exact I|constructor; [|constructor]]].
    - refine (conj eq_refl (conj _ (conj _ eq_refl))).
      + unfold LowLevelLogger.address_ok; cbn; lia.
      + cbn; lia.
    - split; unfold LowLevelLogger.address_ok; cbn; lia. }
  destruct (low_level_log_reads_back_any_events NameBuffer.sample_names
           V8FileLogger.sample_marker V8FileLogger.all_flags
           LowLevelLogger.x64_target NameBuffer.zeroes
           LowLevelLoggerEvents.sample_events H eq_refl Hok) as (l' & E & P).
  exists l'. split; [exact E|]. rewrite P. vm_compute. reflexivity.
Defined.

(** ** The name of the log file *)

Section LogFileNameFacts.
Import LogFileName.

Variable isDirectorySeparator : byte -> bool.
Variable isolate : list byte.
Variable process_id : Z.
Variable time : Z.

Local Abbreviation expand' :=
  (expand isDirectorySeparator isolate process_id time).
Local Abbreviation count' := (count_separators isDirectorySeparator).

(** Without [FLAG_logfile_per_isolate] the count of separators does not
    matter. *)
Lemma expand_count_irrelevant p : forall n m os,
  expand' false p n os = expand' false p m os.
Proof.
  induction p as [p IH] using (induction_ltof1 _ length).
  unfold ltof in IH. intros n m os.
  destruct p as [|c p]; [done|]. cbn [expand AddIsolateIdIfNeeded negb].
  destruct (n =? 0), (m =? 0); destruct (Byte.eqb c "%"%byte);
    try (apply IH; simpl; lia);
    destruct p as [|d p]; try done;
    repeat match goal with
           | |- context [if ?b then _ else _] =>
               lazymatch b with
               | true => fail
               | false => fail
               | _ => destruct b
               end
           end; apply IH; simpl; lia.
Qed.

Lemma expand_escape name : forall rest n os,
  expand' false (escape name ++ rest) n os = expand' false rest n (os ++ name).
Proof.
  induction name as [|c name IH]; intros rest n os.
  - by rewrite app_nil_r.
  - unfold escape. cbn [flat_map]. fold (escape name).
    destruct (Byte.eqb c "%"%byte) eqn:E.
    + apply Byte.byte_dec_bl in E as ->.
      cbn [app expand AddIsolateIdIfNeeded negb].
      change (Byte.eqb "%" "%") with true.
      change (Byte.eqb "%" "p") with false.
      change (Byte.eqb "%" "t") with false. cbv iota.
      destruct (n =? 0); rewrite IH, <- app_assoc; [|done].
      apply expand_count_irrelevant.
    + cbn [app expand AddIsolateIdIfNeeded negb]. rewrite E.
      destruct (n =? 0); rewrite (expand_count_irrelevant _ _ n), IH,
        <- app_assoc; done.
Qed.

Lemma expand_escape_all name n os :
  expand' false (escape name) n os = os ++ name.
Proof.
  pose proof (expand_escape name [] n os) as H.
  by rewrite app_nil_r in H.
Qed.

Lemma count_separators_cons c p :
  count' (c :: p) = (if isDirectorySeparator c then 1 else 0) + count' p.
Proof.
  unfold count_separators. cbn [fold_left].
  assert (forall n m,
            fold_left (fun k x => if isDirectorySeparator x then k + 1 else k)
                      p (n + m) =
            n + fold_left (fun k x => if isDirectorySeparator x then k + 1 else k)
                          p m) as H.
  { induction p as [|x p IH]; intros n m; cbn [fold_left]; [done|].
    destruct (isDirectorySeparator x); [|apply IH].
    rewrite <- Z.add_assoc. apply IH. }
  destruct (isDirectorySeparator c).
  - apply (H 1 0).
  - done.
Qed.

Lemma count_separators_nonneg p : 0 <= count' p.
Proof.
  induction p as [|c p IH]; [done|]. rewrite count_separators_cons.
  destruct (isDirectorySeparator c); lia.
Qed.

Lemma count_separators_app p q :
  count' (p ++ q) = count' p + count' q.
Proof.
  induction p as [|c p IH]; [done|].
  cbn [app]. rewrite !count_separators_cons, IH. lia.
Qed.

Lemma count_separators_none p :
  (forall c, c ∈ p -> isDirectorySeparator c = false) -> count' p = 0.
Proof.
  induction p as [|c p IH]; intros H; [done|].
  rewrite count_separators_cons, (H c) by apply list_elem_of_here.
  rewrite IH; [done|]. intros x Hx. apply H. by apply list_elem_of_further.
Qed.

(** Once the count is negative nothing more is inserted. *)
Lemma expand_plain p : forall n os,
  "%"%byte ∉ p -> n < 0 -> expand' true p n os = os ++ p.
Proof.
  induction p as [|c p IH]; intros n os Hp Hn; cbn [expand].
  - by rewrite app_nil_r.
  - rewrite (proj2 (Z.eqb_neq n 0)) by lia.
    apply not_elem_of_cons in Hp as [Hc Hp].
    destruct (Byte.eqb c "%"%byte) eqn:E.
    { by apply Byte.byte_dec_bl in E as ->. }
    rewrite IH; [by rewrite <- app_assoc|done|].
    destruct (isDirectorySeparator c); lia.
Qed.

(** Up to the last separator the characters are copied. *)
Lemma expand_directory dir : forall base os,
  "%"%byte ∉ dir ->
  (dir = [] \/ exists d s, dir = d ++ [s] /\ isDirectorySeparator s = true) ->
  expand' true (dir ++ base) (count' dir) os = expand' true base 0 (os ++ dir).
Proof.
  induction dir as [|c dir IH]; intros base os Hp Hlast.
  - by rewrite app_nil_r.
  - assert (1 <= count' (c :: dir)) as Hpos.
    { destruct Hlast as [?|(d & s & E & Hs)]; [done|].
      rewrite E, count_separators_app, count_separators_cons, Hs.
      pose proof (count_separators_nonneg d).
      change (count' []) with 0. lia. }
    cbn [app expand]. rewrite (proj2 (Z.eqb_neq _ 0)) by lia.
    apply not_elem_of_cons in Hp as [Hc Hp].
    destruct (Byte.eqb c "%"%byte) eqn:E.
    { by apply Byte.byte_dec_bl in E as ->. }
    rewrite count_separators_cons.
    replace ((if isDirectorySeparator c then
                (if isDirectorySeparator c then 1 else 0) + count' dir - 1
              else (if isDirectorySeparator c then 1 else 0) + count' dir))
      with (count' dir) by (destruct (isDirectorySeparator c); lia).
    rewrite IH; [by rewrite <- app_assoc|done|].
    destruct dir as [|x dir]; [by left|]. right.
    destruct Hlast as [?|(d & s & E' & Hs)]; [done|].
    destruct d as [|y d]; [by destruct dir|].
    exists d, s. split; [|done]. by injection E'.
Qed.

End LogFileNameFacts.

(** X7.  Without [FLAG_logfile_per_isolate], [PrepareLogFileName]
    undoes the doubling of ['%']: a name whose every ['%'] is doubled
    comes out as the name itself.  Between such pieces ["%p"] gives the
    process id, ["%t"] the time, ["%%"] a single ['%'] and any other
    ["%x"] itself; a single ['%'] at the very end of the name is
    dropped. *)
Theorem PrepareLogFileName_expands_percent
    (isDirectorySeparator : byte -> bool) (isolate : list byte)
    (process_id time : Z) (a b : list byte) (d : byte) :
  LogFileName.PrepareLogFileName isDirectorySeparator isolate process_id time
    false (LogFileName.escape a) = a /\
  LogFileName.PrepareLogFileName isDirectorySeparator isolate process_id time
    false (LogFileName.escape a ++ ["%"%byte]) = a /\
  LogFileName.PrepareLogFileName isDirectorySeparator isolate process_id time
    false (LogFileName.escape a ++ ["%"%byte; d] ++ LogFileName.escape b) =
    a ++
    (if Byte.eqb d "p"%byte then NameBuffer.format_d process_id
     else if Byte.eqb d "t"%byte then NameBuffer.format_d time
     else if Byte.eqb d "%"%byte then ["%"%byte]
     else ["%"%byte; d]) ++ b.
Proof.
  unfold LogFileName.PrepareLogFileName. split; [|split].
  - by rewrite expand_escape_all.
  - rewrite expand_escape. cbn [LogFileName.expand].
    by destruct (_ =? 0).
  - rewrite expand_escape. cbn [app LogFileName.expand].
    change (Byte.eqb "%" "%") with true. cbv iota.
    destruct (_ =? 0); cbn [LogFileName.AddIsolateIdIfNeeded negb];
      destruct (Byte.eqb d "p"%byte), (Byte.eqb d "t"%byte),
        (Byte.eqb d "%"%byte);
      rewrite expand_escape_all; by rewrite <- ?app_assoc.
Qed.

(** X8.  With [FLAG_logfile_per_isolate] and a name without ['%'], the
    isolate id, ["isolate-<isolate>-<process id>-"], is written once,
    right after the last directory separator: a name made of a
    directory part (empty, or ending in a separator) and a base name
    without separators comes out as the directory part, the id and the
    base name.  When the base name is empty, that is when the name is
    empty or ends in a separator, no id is written at all. *)
Theorem PrepareLogFileName_puts_the_isolate_id_before_the_base_name
    (isDirectorySeparator : byte -> bool) (isolate : list byte)
    (process_id time : Z) (dir base : list byte) :
  "%"%byte ∉ dir ++ base ->
  (forall c, c ∈ base -> isDirectorySeparator c = false) ->
  (dir = [] \/ exists d s, dir = d ++ [s] /\ isDirectorySeparator s = true) ->
  LogFileName.PrepareLogFileName isDirectorySeparator isolate process_id time
    true (dir ++ base) =
    dir ++
    match base with
    | [] => []
    | _ :: _ =>
        LogFileName.AddIsolateIdIfNeeded isolate process_id true []
    end ++ base.
Proof.
  intros Hp Hbase Hdir. unfold LogFileName.PrepareLogFileName.
  rewrite count_separators_app,
    (count_separators_none isDirectorySeparator base Hbase), Z.add_0_r.
  apply not_elem_of_app in Hp as [Hd Hb].
  rewrite expand_directory; [|done|done].
  destruct base as [|c base]; [cbn; by rewrite app_nil_r|].
  cbn [LogFileName.expand]. change (0 =? 0) with true. cbv iota.
  apply not_elem_of_cons in Hb as [Hc Hb].
  destruct (Byte.eqb c "%"%byte) eqn:E.
  { by apply Byte.byte_dec_bl in E as ->. }
  rewrite (Hbase c) by apply list_elem_of_here.
  rewrite expand_plain; [|done|lia].
  cbn [LogFileName.AddIsolateIdIfNeeded negb app].
  by rewrite <- !app_assoc.
Qed.

Lemma PrepareLogFileName_puts_the_isolate_id_before_the_base_name_witness :
  LogFileName.PrepareLogFileName LogFileName.slash (list_byte_of_string "0x1")
    7 0 true (list_byte_of_string "/tmp/" ++ list_byte_of_string "v8.log") =
  list_byte_of_string "/tmp/isolate-0x1-7-v8.log".
Proof.
  apply (PrepareLogFileName_puts_the_isolate_id_before_the_base_name
           LogFileName.slash (list_byte_of_string "0x1") 7 0
           (list_byte_of_string "/tmp/") (list_byte_of_string "v8.log")).
  - vm_compute. intros H. by repeat (apply elem_of_cons in H as [H|H]; [done|]);
      apply elem_of_nil in H.
  - intros c H. vm_compute in H.
    by repeat (apply elem_of_cons in H as [->|H]; [done|]);
      apply elem_of_nil in H.
  - right. by exists (list_byte_of_string "/tmp"), "/"%byte.
Defined.

(** ** The text log over time *)

Section HistoryFacts.
Import V8FileLogger V8FileLoggerHistory.

Variable tag_name : CodeTag -> string.
Variable event_name : Event -> string.
Variable CodeKindToMarker : CodeKind -> string.

Lemma grows_refl s : grows s s.
Proof. by repeat split. Qed.

Lemma grows_trans s1 s2 s3 : grows s1 s2 -> grows s2 s3 -> grows s1 s3.
Proof.
  intros (?&?&?&?&?&?&?&?) (?&?&?&?&?&?&?&?).
  repeat split; try congruence; by etrans.
Qed.

Lemma grows_WriteToLogFile s msg : grows s (WriteToLogFile s msg).
Proof.
  unfold grows, WriteToLogFile; cbn.
  repeat split; try done. by apply prefix_app_r.
Qed.

Lemma grows_MSG_BUILDER s rest :
  (forall msg, grows s (rest msg)) -> grows s (MSG_BUILDER s rest).
Proof.
  intros H. unfold MSG_BUILDER. destruct (NewMessageBuilder s); [apply H|].
  apply grows_refl.
Qed.

Lemma grows_EnsureLogScriptSource s script_ :
  grows s (EnsureLogScriptSource s script_).2.
Proof.
  unfold EnsureLogScriptSource.
  destruct (decide (id script_ ∈ logged_source_code_ s)); [apply grows_refl|].
  destruct (source script_); [|unfold grows; cbn; repeat split; try done;
                               set_solver].
  destruct (NewMessageBuilder _).
  - unfold grows, WriteToLogFile; cbn. repeat split; try done; [set_solver|].
    by apply prefix_app_r.
  - unfold grows; cbn; repeat split; try done; set_solver.
Qed.

(** Closes the goals of operations that test flags, ask for a builder
    and write one message. *)
Ltac grow :=
  cbv zeta;
  repeat first
    [ apply grows_refl
    | apply grows_WriteToLogFile
    | apply grows_MSG_BUILDER; intros ?; cbv zeta
    | match goal with
      | |- grows _ (if ?b then _ else _) => destruct b
      | |- grows _ (match ?x with Some _ => _ | None => _ end) => destruct x
      end ].

Lemma grows_LogSourceCodeInformation s c shared :
  grows s (LogSourceCodeInformation s c shared).
Proof.
  unfold LogSourceCodeInformation.
  destruct (script shared) as [script_|]; [|apply grows_refl]. cbv zeta.
  eapply grows_trans; [apply (grows_EnsureLogScriptSource s script_)|].
  apply grows_MSG_BUILDER. intros msg. apply grows_WriteToLogFile.
Qed.

Lemma grows_LogCodeDisassemble flags s c :
  grows s (LogCodeDisassemble flags s c).
Proof. unfold LogCodeDisassemble. grow. Qed.

Lemma grows_RuntimeCallTimerEvent s : grows s (RuntimeCallTimerEvent s).
Proof. unfold RuntimeCallTimerEvent. grow. Qed.

Lemma grows_MapCreate flags s map_ : grows s (MapCreate flags s map_).
Proof. unfold MapCreate. grow. Qed.

Lemma grows_MapDetails flags s map_ details :
  grows s (MapDetails flags s map_ details).
Proof. unfold MapDetails. grow. Qed.

Lemma grows_LogAllMaps flags maps : forall s,
  grows s (LogAllMaps flags s maps).
Proof.
  unfold LogAllMaps. induction maps as [|m maps IH]; intros s;
    [apply grows_refl|].
  cbn [fold_left].
  eapply grows_trans; [|apply IH].
  eapply grows_trans; [apply grows_MapCreate|apply grows_MapDetails].
Qed.

Lemma grows_ProcessDeoptEvent s z a p k r :
  grows s (ProcessDeoptEvent event_name s z a p k r).
Proof.
  unfold ProcessDeoptEvent. apply grows_MSG_BUILDER. intros msg.
  destruct p as [[[text i] o]|]; apply grows_WriteToLogFile.
Qed.

(** Every operation leaves a later state. *)
Lemma grows_perform flags s call :
  grows s (perform tag_name event_name CodeKindToMarker flags s call).
Proof.
  destruct call; cbn [perform].
  all: try apply grows_LogSourceCodeInformation.
  all: try apply grows_LogCodeDisassemble.
  all: try apply grows_EnsureLogScriptSource.
  all: try apply grows_RuntimeCallTimerEvent.
  all: try apply grows_MapCreate.
  all: try apply grows_MapDetails.
  all: try apply grows_LogAllMaps.
  all: try apply grows_ProcessDeoptEvent.
  all: unfold ProfilerBeginEvent, StringEvent, UncheckedStringEvent,
         IntPtrTEvent, SharedLibraryEvent, SharedLibraryEnd, CurrentTimeEvent,
         TimerEvent, NewEvent, DeleteEvent,
         CodeCreateEvent_name, CodeCreateEvent_script,
         CodeCreateEvent_function, CodeCreateEvent_wasm, FeedbackVectorEvent,
         CallbackEvent, GetterCallbackEvent, SetterCallbackEvent,
         CallbackEventInternal, RegExpCodeCreateEvent, CodeMoveEvent,
         SharedFunctionInfoMoveEvent, MoveEventInternal, CodeDisableOptEvent,
         CodeDeoptEvent, CodeDependencyChangeEvent,
         CodeNameEvent, FunctionEvent, FunctionEvent_chars,
         CompilationCacheEvent, ScriptEvent, ScriptDetails, TickEvent,
         ICEvent, MapEvent.
  all: try (grow; fail).
  - (* CodeCreateEvent_name *)
    grow. eapply grows_trans; [apply grows_WriteToLogFile|].
    apply grows_LogCodeDisassemble.
  - (* CodeCreateEvent_script *)
    grow. eapply grows_trans; [apply grows_WriteToLogFile|].
    eapply grows_trans; [apply grows_LogSourceCodeInformation|].
    apply grows_LogCodeDisassemble.
  - (* CodeCreateEvent_function *)
    grow. eapply grows_trans; [apply grows_WriteToLogFile|].
    eapply grows_trans; [apply grows_LogSourceCodeInformation|].
    apply grows_LogCodeDisassemble.
  - (* CodeDeoptEvent *)
    destruct (_ || _); [apply grows_refl|apply grows_ProcessDeoptEvent].
  - (* ScriptDetails *)
    grow. eapply grows_trans; [apply grows_WriteToLogFile|].
    apply grows_EnsureLogScriptSource.
  - (* TickEvent *)
    destruct (negb (FLAG_prof_cpp flags)); [apply grows_refl|]. cbv zeta.
    destruct (runtime_stats_enabled_by_native s).
    + eapply grows_trans; [apply grows_RuntimeCallTimerEvent|]. grow.
    + grow.
  - (* MapEvent *)
    destruct (negb (FLAG_log_maps flags)); [apply grows_refl|]. cbv zeta.
    match goal with |- context [match ?to with Some _ => _ | None => _ end] =>
      destruct to as [[map_ details]|] end.
    + eapply grows_trans; [apply grows_MapDetails|]. grow.
    + grow.
Qed.

Lemma grows_perform_all flags calls : forall s,
  grows s (perform_all tag_name event_name CodeKindToMarker flags s calls).
Proof.
  unfold perform_all. induction calls as [|call calls IH]; intros s;
    [apply grows_refl|].
  cbn [fold_left]. eapply grows_trans; [apply grows_perform|apply IH].
Qed.

End HistoryFacts.

Section StepsFacts.
Import V8FileLogger V8FileLoggerHistory.

Variable tag_name : CodeTag -> string.
Variable event_name : Event -> string.
Variable CodeKindToMarker : CodeKind -> string.

(** No step forgets a script. *)
Lemma steps_keep_scripts flags sts : forall s,
  logged_source_code_ s ⊆
  logged_source_code_ (steps tag_name event_name CodeKindToMarker flags s sts).
Proof.
  unfold steps. induction sts as [|st sts IH]; intros s; [done|].
  cbn [fold_left]. etrans; [|apply IH].
  destruct st as [call|value|value]; cbn [step]; [|done|done].
  by destruct (grows_perform tag_name event_name CodeKindToMarker flags s call)
    as (_&_&_&_&_&_&H&_).
Qed.

Lemma EnsureLogScriptSource_notes s script_ :
  id script_ ∈ logged_source_code_ (EnsureLogScriptSource s script_).2.
Proof.
  unfold EnsureLogScriptSource.
  destruct (decide (id script_ ∈ logged_source_code_ s)); [done|].
  destruct (source script_); [destruct (NewMessageBuilder _)|]; cbn;
    set_solver.
Qed.

End StepsFacts.

(** X9.  The text log is only appended to.  Whatever operations of
    [V8FileLogger] are called, with whatever arguments and flags, the
    messages that were in the log are still there, first and in the same
    order; the operations do not switch logging, and no script noted in
    [logged_source_code_] is forgotten. *)
Theorem text_log_is_append_only
    (tag_name : CodeTag -> string)
    (event_name : V8FileLogger.Event -> string)
    (CodeKindToMarker : CodeKind -> string)
    (flags : V8FileLogger.Flags) (s : V8FileLogger.t)
    (calls : list V8FileLogger.Call) :
  let s' :=
    V8FileLogger.perform_all tag_name event_name CodeKindToMarker flags s
      calls in
  V8FileLogger.log_ s `prefix_of` V8FileLogger.log_ s' /\
  V8FileLogger.is_logging s' = V8FileLogger.is_logging s /\
  V8FileLogger.logged_source_code_ s ⊆ V8FileLogger.logged_source_code_ s'.
Proof.
  intros s'.
  destruct (grows_perform_all tag_name event_name CodeKindToMarker flags calls
              s) as (E1 & E2 & _ & _ & _ & _ & Hs & Hl).
  split; [exact Hl|]. split; [|exact Hs].
  unfold V8FileLogger.is_logging, s'. by rewrite E1, E2.
Qed.

(** X10.  A script that [EnsureLogScriptSource] first sees while
    logging is disabled never gets its source logged by it.  The call
    notes the script in [logged_source_code_] before it asks for a
    message builder, returns false and writes nothing; after that,
    whatever operations are called and however logging and profiling
    are switched, every call for the script finds it noted, returns
    true and leaves the logger as it is. *)
Theorem script_first_seen_while_logging_is_off_is_never_logged
    (tag_name : CodeTag -> string)
    (event_name : V8FileLogger.Event -> string)
    (CodeKindToMarker : CodeKind -> string)
    (flags : V8FileLogger.Flags) (s : V8FileLogger.t)
    (script_ : V8FileLogger.Script) (sts : list V8FileLoggerHistory.Step) :
  V8FileLogger.is_logging s = false ->
  V8FileLogger.id script_ ∉ V8FileLogger.logged_source_code_ s ->
  let first := V8FileLogger.EnsureLogScriptSource s script_ in
  let later :=
    V8FileLoggerHistory.steps tag_name event_name CodeKindToMarker flags
      first.2 sts in
  first.1 = false /\
  V8FileLogger.log_ first.2 = V8FileLogger.log_ s /\
  V8FileLogger.EnsureLogScriptSource later script_ = (true, later).
Proof.
  intros Hoff Hnew first later.
  assert (first.1 = false /\ V8FileLogger.log_ first.2 = V8FileLogger.log_ s)
    as [H1 H2].
  { unfold first, V8FileLogger.EnsureLogScriptSource.
    rewrite decide_False by exact Hnew.
    destruct (V8FileLogger.source script_); [|done].
    unfold V8FileLogger.NewMessageBuilder, V8FileLogger.is_logging in *.
    cbn [V8FileLogger.is_profiling V8FileLogger.is_logging_].
    by rewrite Hoff. }
  split; [exact H1|]. split; [exact H2|].
  unfold V8FileLogger.EnsureLogScriptSource at 1.
  rewrite decide_True; [done|].
  apply (steps_keep_scripts tag_name event_name CodeKindToMarker flags sts).
  apply EnsureLogScriptSource_notes.
Qed.

Lemma script_first_seen_while_logging_is_off_is_never_logged_witness :
  V8FileLogger.is_logging V8FileLogger.profiling_logger = false /\
  V8FileLogger.EnsureLogScriptSource
    (V8FileLoggerHistory.steps V8FileLogger.sample_tag_name
       V8FileLogger.sample_event_name V8FileLogger.sample_marker
       V8FileLogger.all_flags
       (V8FileLogger.EnsureLogScriptSource V8FileLogger.profiling_logger
          V8FileLoggerHistory.sample_script).2
       [V8FileLoggerHistory.StepProfiling false])
    V8FileLoggerHistory.sample_script =
  (true,
   V8FileLoggerHistory.steps V8FileLogger.sample_tag_name
     V8FileLogger.sample_event_name V8FileLogger.sample_marker
     V8FileLogger.all_flags
     (V8FileLogger.EnsureLogScriptSource V8FileLogger.profiling_logger
        V8FileLoggerHistory.sample_script).2
     [V8FileLoggerHistory.StepProfiling false]).
Proof.
  split; [reflexivity|].
  apply (script_first_seen_while_logging_is_off_is_never_logged
           V8FileLogger.sample_tag_name V8FileLogger.sample_event_name
           V8FileLogger.sample_marker V8FileLogger.all_flags
           V8FileLogger.profiling_logger V8FileLoggerHistory.sample_script
           [V8FileLoggerHistory.StepProfiling false] eq_refl).
  apply not_elem_of_empty.
Defined.

(** ** The ring under overlapping accesses *)

Section AccessFacts.
Import Profiler ProfilerSteps.

Lemma producer_step_slots st :
  coherent st ->
  slots (buffer_ (ProfilerSteps.profiler (producer_step st)))
        (tail_ (ProfilerSteps.profiler st)) (occupied st) =
  slots (buffer_ (ProfilerSteps.profiler st))
        (tail_ (ProfilerSteps.profiler st)) (occupied st).
Proof.
  destruct st as [[b h t o n r] pr c tk sd]. intros H.
  unfold producer_step. cbn [producer ProfilerSteps.profiler].
  destruct pr; try done.
  unfold coherent, occupied in H |- *.
  cbn [ProfilerSteps.profiler producer consumer buffer_ head_ tail_
       buffer_semaphore_ with_buffer unsignalled] in H |- *.
  destruct H as (Hlen & Ht & Hocc & Hh & Hr & Hroom & _).
  apply slots_insert_outside; [done|lia|done].
Qed.

End AccessFacts.

(** X11.  [Insert] never writes into an occupied slot, also while it
    overlaps a [Remove].  Interleave the accesses of the sampler and of
    the consumer thread in any order: at every point at most 127 slots
    are occupied, counting the one a [Remove] in progress is copying
    from, and the next access of [Insert], whichever it is, leaves the
    contents of all of them as they are. *)
Theorem Insert_never_writes_an_occupied_slot (moves : list ProfilerSteps.Move) :
  let st := fold_left ProfilerSteps.move moves ProfilerSteps.engaged in
  (ProfilerSteps.occupied st <= 127)%nat /\
  Profiler.slots
    (Profiler.buffer_ (ProfilerSteps.profiler (ProfilerSteps.producer_step st)))
    (Profiler.tail_ (ProfilerSteps.profiler st)) (ProfilerSteps.occupied st) =
  Profiler.slots (Profiler.buffer_ (ProfilerSteps.profiler st))
    (Profiler.tail_ (ProfilerSteps.profiler st)) (ProfilerSteps.occupied st).
Proof.
  intros st.
  pose proof (moves_coherent moves _ coherent_engaged) as H. fold st in H.
  split; [by destruct H as (_ & _ & Hocc & _)|].
  by apply producer_step_slots.
Qed.

(** X12.  The report of an overflow can be lost when [Insert] overlaps
    [Remove].  [overflow_] is an ordinary member that [Insert] sets and
    [Remove] reads and then clears.  Take any state the two threads can
    reach in which [Insert] has found the ring full and is about to set
    the flag, while a [Remove] has already read the flag as false and
    has not yet cleared it.  After the store of [Insert] and the two
    remaining accesses of [Remove], [Insert] has returned without storing
    its sample, this [Remove] returns false, and the flag is clear, so
    that no later [Remove] reports the drop either. *)
Theorem overflow_report_lost_when_Insert_overlaps_Remove
    (moves : list ProfilerSteps.Move) (sample : TickSample) :
  let st := fold_left ProfilerSteps.move moves ProfilerSteps.engaged in
  ProfilerSteps.producer st = ProfilerSteps.PFull ->
  ProfilerSteps.consumer st = ProfilerSteps.CTail sample false ->
  let st' :=
    fold_left ProfilerSteps.move
      [ProfilerSteps.MProducer; ProfilerSteps.MConsumer;
       ProfilerSteps.MConsumer] st in
  ProfilerSteps.producer st' = ProfilerSteps.PIdle /\
  ProfilerSteps.stored st' = ProfilerSteps.stored st /\
  ProfilerSteps.consumer st' = ProfilerSteps.CTest sample false /\
  Profiler.overflow_ (ProfilerSteps.profiler st') = false.
Proof.
  intros st Hp Hc st'. unfold st'. clearbody st.
  destruct st as [p pr c tk sd]. cbn in Hp, Hc. subst pr c.
  by cbn.
Qed.

Lemma overflow_report_lost_when_Insert_overlaps_Remove_witness :
  let st :=
    fold_left ProfilerSteps.move
      (ProfilerRace.full_then_overlap ++
       [ProfilerSteps.MProducer; ProfilerSteps.MConsumer;
        ProfilerSteps.MConsumer]) ProfilerSteps.engaged in
  length (ProfilerSteps.stored st) = 127%nat /\
  ProfilerSteps.producer st = ProfilerSteps.PIdle /\
  ProfilerSteps.consumer st = ProfilerSteps.CTest (Profiler.numbered 1) false /\
  Profiler.overflow_ (ProfilerSteps.profiler st) = false.
Proof.
  intros st. unfold st. rewrite fold_left_app.
  destruct (overflow_report_lost_when_Insert_overlaps_Remove
              ProfilerRace.full_then_overlap (Profiler.numbered 1))
    as (H1 & H2 & H3 & H4); [by vm_compute|by vm_compute|].
  split; [rewrite H2; by vm_compute|]. split; [exact H1|].
  split; [exact H3|exact H4].
Defined.

(** ** Line positions for the JIT code event handler *)

Section JitLoggerFacts.
Import JitLogger.

Variable user_data_after : list JitCodeEvent -> Z.

Lemma CodeLinePosEvent_loop data code_type iter : forall events,
  exists added_events,
    fold_left
      (fun events entry =>
         let events :=
           if is_statement entry
           then AddCodeLinePosInfoEvent events data (code_offset entry)
                  (script_offset entry) STATEMENT_POSITION code_type
           else events in
         AddCodeLinePosInfoEvent events data (code_offset entry)
           (script_offset entry) POSITION code_type)
      iter events = events ++ added_events /\
    Forall (adds_for code_type data) added_events /\
    omap (added POSITION) added_events = map position_of iter /\
    omap (added STATEMENT_POSITION) added_events =
      map position_of (filter (fun entry => is_statement entry = true) iter).
Proof.
  set (body := fun events entry =>
         let events :=
           if is_statement entry
           then AddCodeLinePosInfoEvent events data (code_offset entry)
                  (script_offset entry) STATEMENT_POSITION code_type
           else events in
         AddCodeLinePosInfoEvent events data (code_offset entry)
           (script_offset entry) POSITION code_type).
  induction iter as [|entry iter IH]; intros events.
  - exists []. by rewrite app_nil_r.
  - cbn [fold_left].
    destruct (IH (body events entry)) as (more & -> & Hall & Hpos & Hst).
    unfold body, AddCodeLinePosInfoEvent. cbv zeta.
    destruct (is_statement entry) eqn:E.
    + eexists (_ :: _ :: more). rewrite <- !app_assoc. split; [reflexivity|].
      split; [repeat constructor; [by eexists _, _, _ ..|done]|].
      rewrite filter_cons, decide_True by done.
      cbn [map]. rewrite <- Hpos, <- Hst. by split.
    + eexists (_ :: more). rewrite <- !app_assoc. split; [reflexivity|].
      split; [constructor; [by eexists _, _, _|done]|].
      rewrite filter_cons, decide_False by (by rewrite E).
      cbn [map]. rewrite <- Hpos, <- Hst. by split.
Qed.

End JitLoggerFacts.

(** X13.  [CodeLinePosEvent] brackets the positions of a code object.
    On top of the events handed to the handler before, it hands over a
    [CODE_START_LINE_INFO_RECORDING] event, then only
    [CODE_ADD_LINE_POS_INFO] events, then one
    [CODE_END_LINE_INFO_RECORDING] event with the start of the code.
    All of them carry the given code type, and the events after the
    first carry as [user_data] what the handler left there on the start
    event.  The [POSITION] events give every entry of the table, in
    table order; the [STATEMENT_POSITION] events give the entries that
    are statements, in table order.  Each gives the code offset and
    the script offset of its entry converted from [int] to [size_t]:
    as they are when they are not negative, and increased by 2^64 when
    they are, so that a script offset of -1 reaches the handler as
    18446744073709551615. *)
Theorem CodeLinePosEvent_brackets_the_positions
    (user_data_after : list JitLogger.JitCodeEvent -> Z)
    (events : list JitLogger.JitCodeEvent) (code_start : Z)
    (iter : list JitLogger.Entry) (code_type : JitLogger.CodeType) :
  let data :=
    user_data_after
      (events ++ [JitLogger.CODE_START_LINE_INFO_RECORDING code_type]) in
  (exists added_events,
     JitLogger.CodeLinePosEvent user_data_after events code_start iter
       code_type =
       events ++ [JitLogger.CODE_START_LINE_INFO_RECORDING code_type] ++
       added_events ++
       [JitLogger.CODE_END_LINE_INFO_RECORDING code_type code_start data] /\
     Forall (JitLogger.adds_for code_type data) added_events /\
     omap (JitLogger.added JitLogger.POSITION) added_events =
       map JitLogger.position_of iter /\
     omap (JitLogger.added JitLogger.STATEMENT_POSITION) added_events =
       map JitLogger.position_of
         (filter (fun entry => JitLogger.is_statement entry = true) iter)) /\
  (forall entry,
     (0 <= JitLogger.code_offset entry < 2 ^ 31 ->
      (JitLogger.position_of entry).1 = JitLogger.code_offset entry) /\
     (0 <= JitLogger.script_offset entry < 2 ^ 31 ->
      (JitLogger.position_of entry).2 = JitLogger.script_offset entry) /\
     (- 2 ^ 31 <= JitLogger.code_offset entry < 0 ->
      (JitLogger.position_of entry).1 =
        2 ^ 64 + JitLogger.code_offset entry) /\
     (- 2 ^ 31 <= JitLogger.script_offset entry < 0 ->
      (JitLogger.position_of entry).2 =
        2 ^ 64 + JitLogger.script_offset entry)).
Proof.
  intros data. split.
  - unfold JitLogger.CodeLinePosEvent,
      JitLogger.StartCodePosInfoEvent, JitLogger.EndCodePosInfoEvent.
    cbv beta iota zeta. fold data.
    destruct (CodeLinePosEvent_loop data code_type iter
                (events ++ [JitLogger.CODE_START_LINE_INFO_RECORDING code_type]))
      as (added_events & E & Hall & Hpos & Hst).
    cbv beta iota zeta in E. rewrite E.
    exists added_events. by rewrite <- !app_assoc.
  - intros entry. unfold JitLogger.position_of, JitLogger.to_size_t.
    cbn [fst snd]. repeat split; intros H.
    + apply Z.mod_small. lia.
    + apply Z.mod_small. lia.
    + symmetry. apply (Z.mod_unique _ _ (-1)); lia.
    + symmetry. apply (Z.mod_unique _ _ (-1)); lia.
Qed.

(** A table entry at code offset 4 whose script offset is -1: the
    handler is given 4 and 18446744073709551615. *)
Lemma CodeLinePosEvent_brackets_the_positions_witness :
  let entry := JitLogger.mkEntry 4 (-1) false in
  (JitLogger.position_of entry).1 = 4 /\
  (JitLogger.position_of entry).2 = 18446744073709551615.
Proof.
  intros entry.
  destruct (CodeLinePosEvent_brackets_the_positions
              (fun _ => 0) [] 0 [entry] JitLogger.BYTE_CODE) as [_ H].
  destruct (H entry) as (H1 & _ & _ & H4).
  split; [exact (H1 ltac:(cbn; lia))|exact (H4 ltac:(cbn; lia))].
Defined.

(** ** The perf map read back *)

Section PerfMapReaderFacts.
Import PerfMapReader LinuxPerfBasicLogger.

Lemma split_at_app sep field rest :
  sep ∉ field -> split_at sep (field ++ sep :: rest) = Some (field, rest).
Proof.
  induction field as [|b field IH]; intros H; cbn [app split_at].
  - assert (Byte.eqb sep sep = true) as -> by (by destruct sep). done.
  - apply not_elem_of_cons in H as [Hb H].
    destruct (Byte.eqb b sep) eqn:E.
    { apply Byte.byte_dec_bl in E. congruence. }
    by rewrite IH.
Qed.

Lemma hexadecimal_has_no_space d :
  x20 ∉ list_byte_of_string (HexadecimalString.NilEmpty.string_of_uint d).
Proof.
  induction d; cbn [HexadecimalString.NilEmpty.string_of_uint
                    list_byte_of_string];
    [apply not_elem_of_nil|..];
    apply not_elem_of_cons; split; try done.
Qed.

Lemma hex_format n :
  hex (list_byte_of_string
         (HexadecimalString.NilEmpty.string_of_uint (N.to_hex_uint n))) =
  Some (Z.of_N n).
Proof.
  unfold hex. rewrite string_of_list_byte_of_string.
  rewrite HexadecimalString.NilEmpty.usu. cbn [mbind option_bind].
  by rewrite HexadecimalN.Unsigned.of_to.
Qed.

End PerfMapReaderFacts.

(** X14.  A line of the perf map reads back as what was logged.
    [WriteLogRecordedBuffer], on an open map, adds one line; read as two
    hexadecimal numbers and a name, each field ended by the separator
    that follows it in the format, the line gives the address as a
    64-bit unsigned number, the size as a 32-bit unsigned number and the
    name as printed, that is its first [name_length] bytes up to the
    first NUL, provided the name printed holds no newline.  As in every
    call of the source, [name] points to [name_length] bytes at
    least. *)
Theorem perf_map_line_reads_back
    (s : LinuxPerfBasicLogger.Statics) (stream : LinuxPerfBasicLogger.FILE)
    (address size : Z) (name : list byte) (name_length : Z) :
  LinuxPerfBasicLogger.perf_output_handle_ s = Some stream ->
  0 <= name_length <= Z.of_nat (length name) ->
  x0a ∉ LinuxPerfBasicLogger.format_s (Z.to_nat name_length) name ->
  exists s' line,
    LinuxPerfBasicLogger.WriteLogRecordedBuffer s address size name
      name_length = Some s' /\
    LinuxPerfBasicLogger.map_lines s' =
      LinuxPerfBasicLogger.map_lines s ++ [line] /\
    PerfMapReader.read_line line =
      Some (address mod 2 ^ 64, size mod 2 ^ 32,
            LinuxPerfBasicLogger.format_s (Z.to_nat name_length) name).
Proof.
  intros Hopen _ Hname. unfold LinuxPerfBasicLogger.WriteLogRecordedBuffer.
  rewrite Hopen. eexists _, _. split; [reflexivity|].
  split.
  { unfold LinuxPerfBasicLogger.map_lines.
    cbn [LinuxPerfBasicLogger.os_calls]. by rewrite omap_app. }
  unfold PerfMapReader.read_line, LinuxPerfBasicLogger.format_lx,
    NameBuffer.format_x.
  cbn [app].
  rewrite split_at_app by apply hexadecimal_has_no_space.
  cbn [mbind option_bind].
  rewrite split_at_app by apply hexadecimal_has_no_space.
  cbn [mbind option_bind].
  rewrite split_at_app by exact Hname.
  cbn [mbind option_bind]. rewrite !hex_format. cbn [mbind option_bind].
  rewrite !Z2N.id by (apply Z.mod_pos_bound; lia). done.
Qed.

Lemma perf_map_line_reads_back_witness :
  exists s' line,
    LinuxPerfBasicLogger.WriteLogRecordedBuffer LinuxPerfBasicLogger.one_logger
      4096 64 (list_byte_of_string "Function:f a.js:3:7") 19 = Some s' /\
    LinuxPerfBasicLogger.map_lines s' =
      LinuxPerfBasicLogger.map_lines LinuxPerfBasicLogger.one_logger ++
      [line] /\
    PerfMapReader.read_line line =
      Some (4096, 64, list_byte_of_string "Function:f a.js:3:7").
Proof.
  apply (perf_map_line_reads_back LinuxPerfBasicLogger.one_logger 3%nat 4096
           64 (list_byte_of_string "Function:f a.js:3:7") 19 eq_refl).
  { cbn. lia. }
  vm_compute. intros H.
  repeat (apply elem_of_cons in H as [H|H]; [discriminate H|]).
  by apply elem_of_nil in H.
Defined.
